(** * Skydive: traversal engine, TID mapper and on-demand capture client

    A shallow embedding of
      - [topology/graph/traversal/traversal.go] (the Gremlin-like step algebra),
      - [topology/topology.go]                  (paths, namespaces, hosts),
      - [topology/tid_mapper.go]                (the TID mapper),
      - [flow/ondemand/client/client.go]        (the capture orchestrator),
    followed by the properties of the specification stated over it.

    Go values of type [interface{}] are split by use: [Value] is what entity
    metadata holds, [Param] is what a step receives as argument.  A pointer
    receiver that may be nil is an [option]; a run-time panic (nil
    dereference, failed type assertion, index out of range) is the [Panic]
    outcome of the [Go] monad. *)

From Stdlib Require Import ZArith List Bool Lia.
From Stdlib Require Import Floats.SpecFloat.
From stdpp Require Import base option list strings gmap.

Set Warnings "-register-all".

Local Open Scope string_scope.
Local Open Scope list_scope.
Local Open Scope Z_scope.

(** ** Outcomes of Go code that may panic *)

Inductive Go (A : Type) : Type :=
| Ok (a : A)
| Panic (msg : string).
Arguments Ok {A} a.
Arguments Panic {A} msg.

#[global] Instance Go_ret : MRet Go := fun A a => Ok a.
#[global] Instance Go_bind : MBind Go := fun A B f m =>
  match m with
  | Ok a => f a
  | Panic msg => Panic msg
  end.
#[global] Instance Go_fmap : FMap Go := fun A B f m =>
  match m with
  | Ok a => Ok (f a)
  | Panic msg => Panic msg
  end.

(** Dereferencing a pointer that may be nil. *)
Definition deref {A : Type} (p : option A) : Go A :=
  match p with
  | Some a => Ok a
  | None => Panic "invalid memory address or nil pointer dereference"
  end.

(** Loops with [break]: the body tells whether the loop goes on. *)
Inductive Ctl (S : Type) : Type :=
| Continue (s : S)
| Break (s : S).
Arguments Continue {S} s.
Arguments Break {S} s.

Definition ctl_state {S : Type} (c : Ctl S) : S :=
  match c with Continue s | Break s => s end.

Fixpoint for_range {A S : Type} (body : A -> S -> Ctl S) (l : list A) (s : S)
  : Ctl S :=
  match l with
  | [] => Continue s
  | x :: l' =>
      match body x s with
      | Continue s' => for_range body l' s'
      | Break s' => Break s'
      end
  end.

(** ** Data model *)

Definition Identifier := string.

(** Values held by the metadata of nodes and edges. *)
Inductive Value : Type :=
| VNil
| VString (s : string)
| VBool (b : bool)
| VInt (z : Z)
| VInt64 (z : Z)
| VFloat64 (f : spec_float)
| VSlice (l : list Value)
| VMap (m : list (string * Value)).

(** [graph.Metadata] as carried by an entity. *)
Abbreviation Metadata := (gmap string Value).

Record Node : Type := mkNode {
  node_ID : Identifier;
  node_host : string;
  node_metadata : Metadata
}.

Record Edge : Type := mkEdge {
  edge_ID : Identifier;
  edge_parent : Identifier;
  edge_child : Identifier;
  edge_metadata : Metadata
}.

Definition Host (n : Node) : string := node_host n.
Definition GetParent (e : Edge) : Identifier := edge_parent e.
Definition GetChild (e : Edge) : Identifier := edge_child e.

(** Modelled from the spec: the accessors of [graph.Node] (package [graph]
    is not part of the sources).  The metadata is "a mapping from string
    keys to arbitrary scalars or structured values"; [GetField] reads a key,
    [GetFieldString] additionally requires the value to be a string. *)
Definition GetField (md : Metadata) (key : string) : option Value :=
  md !! key.

Definition GetFieldString (md : Metadata) (key : string) : option string :=
  match md !! key with
  | Some (VString s) => Some s
  | _ => None
  end.

(** Go's [x, _ := n.GetFieldString(k)]: the zero value on error. *)
Definition GetFieldString_ (md : Metadata) (key : string) : string :=
  default "" (GetFieldString md key).

(** Modelled from the spec: [filters.Filter] (package [filters] is not part
    of the sources); one constructor per filter the traversal builds. *)
Inductive Filter : Type :=
| RegexFilter (Key Value_ : string)
| TermStringFilter (Key Value_ : string)
| TermInt64Filter (Key : string) (Value_ : Z)
| LtInt64Filter (Key : string) (Value_ : Z)
| GtInt64Filter (Key : string) (Value_ : Z)
| LteInt64Filter (Key : string) (Value_ : Z)
| GteInt64Filter (Key : string) (Value_ : Z)
| NotFilter (f : Filter)
| AndFilter (fs : list Filter)
| OrFilter (fs : list Filter).

Definition NewNotFilter := NotFilter.
Definition NewTermStringFilter := TermStringFilter.
Definition NewTermInt64Filter := TermInt64Filter.
Definition NewLtInt64Filter := LtInt64Filter.
Definition NewGtInt64Filter := GtInt64Filter.
Definition NewGteInt64Filter := GteInt64Filter.
Definition NewAndFilter := AndFilter.
Definition NewOrFilter := OrFilter.

(** [graph.Metadata] as passed to the lookups of the graph: a key is bound
    to a plain value or to a filter. *)
Inductive MatchElem : Type :=
| MValue (v : Value)
| MFilter (f : Filter).

Abbreviation MetadataMatch := (gmap string MatchElem).

(** A compiled regular expression, kept as the expression it was compiled
    from. *)
Record Regexp : Type := mkRegexp { regexp_expr : string }.

Record RegexMetadataMatcher : Type := mkRegexMetadataMatcher {
  regexp : option Regexp;
  pattern : string
}.

(** Arguments of the steps ([interface{}] in the source). *)
Inductive Param : Type :=
| PString (s : string)
| PInt (z : Z)
| PInt64 (z : Z)
| PFloat64 (f : spec_float)
| PBool (b : bool)
| PTime (t : Z)
| PDuration (d : Z)
| PRegex (m : RegexMetadataMatcher)
| PNe (value : Param)
| PLt (value : Param)
| PGt (value : Param)
| PLte (value : Param)
| PGte (value : Param)
| PInside (from to : Param)
| POutside (from to : Param)
| PBetween (from to : Param)
| PWithin (List_ : list Param)
| PWithout (list_ : list Param)
| PSince (Seconds : Z).

Definition Within (s : list Param) : Param := PWithin s.
Definition Without (s : list Param) : Param := PWithout s.
Definition Ne (s : Param) : Param := PNe s.
Definition Lt (s : Param) : Param := PLt s.
Definition Gt (s : Param) : Param := PGt s.
Definition Lte (s : Param) : Param := PLte s.
Definition Gte (s : Param) : Param := PGte s.
Definition Inside (from to : Param) : Param := PInside from to.
Definition Outside (from to : Param) : Param := POutside from to.
Definition Between (from to : Param) : Param := PBetween from to.

(** ** The regular-expression matcher *)

(** [regexp.Compile] of the Go library, through the syntax error of an
    expression, if it has one. *)
Class RegexpLib : Type := {
  regexp_syntax_error : string -> option string
}.

Section RegexMatcher.

Context `{RegexpLib}.

(** [regexp.Compile(expr)] returns [(re, nil)] or [(nil, err)]. *)
Definition regexp_Compile (expr : string) : option Regexp * option string :=
  match regexp_syntax_error expr with
  | None => (Some (mkRegexp expr), None)
  | Some e => (None, Some e)
  end.

(** [r, _ := regexp.Compile(expr)]: the error is dropped. *)
Definition Regex (expr : string) : RegexMetadataMatcher :=
  let '(r, _) := regexp_Compile expr in
  {| regexp := r; pattern := expr |}.

End RegexMatcher.

(** ** The graph store, as the traversal sees it *)

Record TimeSlice : Type := mkTimeSlice { Start : Z; Last : Z }.
Definition NewTimeSlice (s l : Z) : TimeSlice := mkTimeSlice s l.

Record GraphContext : Type := mkGraphContext { TimeSlice_ : TimeSlice }.

(** Modelled from the spec: the read operations of [graph.Graph] (package
    [graph] is not part of the sources).  A graph is the record of the
    operations of its contract: [GetNode(id)], [GetNodes(metadata)],
    [GetNodeEdges(node, metadataFilter)], [GetEdgeNodes(edge, parentFilter,
    childFilter)], [LookupChildren], [LookupParents], [LookupShortestPath(from,
    targetMetadata, edgeFilter)] and [WithContext(time-slice)], which gives a
    view or fails.  A nil metadata argument is the empty mapping. *)
Inductive Graph : Type := mkGraph {
  GetNode : Identifier -> option Node;
  GetNodes : MetadataMatch -> list Node;
  GetNodeEdges : Node -> MetadataMatch -> list Edge;
  GetEdgeNodes : Edge -> MetadataMatch -> MetadataMatch -> list Node * list Node;
  LookupChildren : Node -> MetadataMatch -> MetadataMatch -> list Node;
  LookupParents : Node -> MetadataMatch -> MetadataMatch -> list Node;
  LookupShortestPath : Node -> MetadataMatch -> MetadataMatch -> list Node;
  WithContext : GraphContext -> Graph + string
}.

(** ** Pagination *)

(** [type GraphTraversalRange [2]int64]. *)
Definition GraphTraversalRange : Type := Z * Z.

Record GraphStepContext : Type := mkGraphStepContext {
  PaginationRange : option GraphTraversalRange
}.

(** Modelled from the spec: [common.Iterator] (package [common] is not part
    of the sources): "an iterator that counts and admits elements in
    [[from, to)]; when the iterator is exhausted, the step terminates".
    [NewIterator()] has no bounds; [NewIterator(at, from, to)] starts
    counting at [at]. *)
Record Iterator : Type := mkIterator {
  it_at : Z;
  it_bounds : option (Z * Z)
}.

Definition NewIterator (values : option (Z * Z * Z)) : Iterator :=
  match values with
  | None => mkIterator 0 None
  | Some (at_, from, to) => mkIterator at_ (Some (from, to))
  end.

(** The iterator is exhausted. *)
Definition Done (it : Iterator) : bool :=
  match it_bounds it with
  | None => false
  | Some (_, to) => to <=? it_at it
  end.

(** Counts one element and tells whether it is admitted. *)
Definition Next (it : Iterator) : Iterator * bool :=
  (mkIterator (it_at it + 1) (it_bounds it),
   match it_bounds it with
   | None => true
   | Some (from, to) => (from <=? it_at it) && (it_at it <? to)
   end).

Definition Range_Iterator (r : option GraphTraversalRange) : Iterator :=
  match r with
  | Some (r0, r1) => NewIterator (Some (0, r0, r1))
  | None => NewIterator None
  end.

(** ** Steps *)

Record GraphTraversal : Type := mkGraphTraversal {
  gt_Graph : option Graph;
  gt_error : option string;
  currentStepContext : GraphStepContext
}.

Record GraphTraversalV : Type := mkGraphTraversalV {
  tv_GraphTraversal : option GraphTraversal;
  tv_nodes : list Node;
  tv_error : option string
}.

Record GraphTraversalE : Type := mkGraphTraversalE {
  te_GraphTraversal : option GraphTraversal;
  te_edges : list Edge;
  te_error : option string
}.

Record GraphTraversalShortestPath : Type := mkGraphTraversalShortestPath {
  sp_GraphTraversal : option GraphTraversal;
  sp_paths : list (list Node);
  sp_error : option string
}.

Record GraphTraversalValue : Type := mkGraphTraversalValue {
  val_GraphTraversal : option GraphTraversal;
  val_value : Value;
  val_error : option string
}.

(** Struct literals that set the error only. *)
Definition errGT (e : string) : GraphTraversal :=
  mkGraphTraversal None (Some e) (mkGraphStepContext None).
Definition errV (e : string) : GraphTraversalV := mkGraphTraversalV None [] (Some e).
Definition errE (e : string) : GraphTraversalE := mkGraphTraversalE None [] (Some e).
Definition errSP (e : string) : GraphTraversalShortestPath :=
  mkGraphTraversalShortestPath None [] (Some e).
Definition errValue (e : string) : GraphTraversalValue :=
  mkGraphTraversalValue None VNil (Some e).

(** The elements of the sequence a step evaluates to. *)
Inductive Result : Type :=
| RGraph (g : option Graph)
| RNode (n : Node)
| RPath (p : list Node)
| REdge (e : Edge)
| RValue (v : Value).

(** Monadic [for ... range] with [break]. *)
Fixpoint for_rangeM {A S : Type} (body : A -> S -> Go (Ctl S)) (l : list A)
  (s : S) : Go (Ctl S) :=
  match l with
  | [] => Ok (Continue s)
  | x :: l' =>
      c ← body x s;
      match c with
      | Continue s' => for_rangeM body l' s'
      | Break s' => Ok (Break s')
      end
  end.

(** Keys of the [visited] maps ([map[interface{}]bool]): an identifier, a
    64-bit hash, or a metadata value. *)
Inductive MapKey : Type :=
| KIdentifier (id : Identifier)
| KUint64 (h : Z)
| KValue (v : Value).

(** Slices and maps cannot be hashed: indexing a map with one panics. *)
Definition hashable (k : MapKey) : bool :=
  match k with
  | KValue (VSlice _) | KValue (VMap _) => false
  | _ => true
  end.

(** Go's [==] on hashable interface values: same dynamic type and equal
    values; on floats a NaN differs from itself and the two zeros are
    equal. *)
Definition Value_eqb (a b : Value) : bool :=
  match a, b with
  | VNil, VNil => true
  | VString s, VString t => bool_decide (s = t)
  | VBool x, VBool y => Bool.eqb x y
  | VInt x, VInt y => x =? y
  | VInt64 x, VInt64 y => x =? y
  | VFloat64 f, VFloat64 g => SFeqb f g
  | _, _ => false
  end.

Definition MapKey_eqb (a b : MapKey) : bool :=
  match a, b with
  | KIdentifier x, KIdentifier y => bool_decide (x = y)
  | KUint64 x, KUint64 y => x =? y
  | KValue x, KValue y => Value_eqb x y
  | _, _ => false
  end.

(** [_, ok := visited[k]] on the keys inserted so far. *)
Definition visited_lookup (k : MapKey) (visited : list MapKey) : Go bool :=
  if hashable k then Ok (existsb (MapKey_eqb k) visited)
  else Panic "runtime error: hash of unhashable type".

(** [visited[k] = true]. *)
Definition visited_insert (k : MapKey) (visited : list MapKey) : list MapKey :=
  k :: visited.

(** [s[i]] on a slice indexed by a 64-bit integer. *)
Definition index {A : Type} (l : list A) (i : Z) : Go A :=
  if i <? 0 then Panic "runtime error: index out of range"
  else match l !! Z.to_nat i with
       | Some x => Ok x
       | None => Panic "runtime error: index out of range"
       end.

(** [for ; from < int64(len(src)) && from < to; from++ { acc = append(acc, src[from]) }] *)
Fixpoint Range_loop {A : Type} (fuel : nat) (from to : Z) (src acc : list A)
  : Go (list A) :=
  if (from <? Z.of_nat (length src)) && (from <? to) then
    match fuel with
    | O => Ok acc
    | S fuel' =>
        x ← index src from;
        Range_loop fuel' (from + 1) to src (acc ++ [x])
    end
  else Ok acc.

(** What the traversal takes from outside its file: [common.ToInt64] and
    [common.ToFloat64] (package [common]), the accessor [GetFieldInt64] and
    [MatchMetadata] of the graph entities, [Filter.Eval] (package [filters]),
    [hashstructure.Hash], which gives a 64-bit hash and maybe an error, the
    renderings of [fmt] for [%v] and [%s], and the clock [time.Now()]. *)
Class Externals : Type := {
  ToInt64 : Param -> Z + string;
  ToFloat64 : Z -> spec_float + string;
  GetFieldInt64 : Node -> string -> option Z;
  Filter_Eval : Filter -> Node -> bool;
  MatchMetadata : Edge -> MetadataMatch -> bool;
  hashstructure_Hash : list Value -> Z * option string;
  fmt_v : list Param -> string;
  fmt_s : Param -> string;
  time_Now : Z
}.

Section Traversal.

Context `{Externals}.

(** The inner loop of the [WithinMetadataMatcher] case. *)
Fixpoint Within_loop (k : string) (l : list Param) (orFilters : list Filter)
  : list Filter + string :=
  match l with
  | [] => inl orFilters
  | val :: l' =>
      match val with
      | PString v => Within_loop k l' (orFilters ++ [NewTermStringFilter k v])
      | v =>
          match ToInt64 v with
          | inr err => inr err
          | inl i => Within_loop k l' (orFilters ++ [NewTermInt64Filter k i])
          end
      end
  end.

Definition ParamToFilter (k : string) (v : Param) : Filter + string :=
  match v with
  | PRegex m => inl (RegexFilter k (pattern m))
  | PNe (PString t) => inl (NewNotFilter (NewTermStringFilter k t))
  | PNe t =>
      match ToInt64 t with
      | inr err => inr err
      | inl i => inl (NewNotFilter (NewTermInt64Filter k i))
      end
  | PLt value =>
      match ToInt64 value with
      | inr _ => inr "LT values should be of int64 type"
      | inl i => inl (NewLtInt64Filter k i)
      end
  | PGt value =>
      match ToInt64 value with
      | inr _ => inr "GT values should be of int64 type"
      | inl i => inl (NewGtInt64Filter k i)
      end
  | PGte value =>
      match ToInt64 value with
      | inr _ => inr "GTE values should be of int64 type"
      | inl i => inl (GteInt64Filter k i)
      end
  | PLte value =>
      match ToInt64 value with
      | inr _ => inr "LTE values should be of int64 type"
      | inl i => inl (LteInt64Filter k i)
      end
  | PInside from to =>
      match ToInt64 from, ToInt64 to with
      | inl f64, inl t64 =>
          inl (NewAndFilter [NewGtInt64Filter k f64; NewLtInt64Filter k t64])
      | _, _ => inr "Inside values should be of int64 type"
      end
  | POutside from to =>
      match ToInt64 from, ToInt64 to with
      | inl f64, inl t64 =>
          inl (NewAndFilter [NewLtInt64Filter k f64; NewGtInt64Filter k t64])
      | _, _ => inr "Outside values should be of int64 type"
      end
  | PBetween from to =>
      match ToInt64 from, ToInt64 to with
      | inl f64, inl t64 =>
          inl (NewAndFilter [NewGteInt64Filter k f64; NewLtInt64Filter k t64])
      | _, _ => inr "Between values should be of int64 type"
      end
  | PWithin l =>
      match Within_loop k l [] with
      | inr err => inr err
      | inl orFilters => inl (NewOrFilter orFilters)
      end
  | PString s => inl (NewTermStringFilter k s)
  | PInt64 i => inl (NewTermInt64Filter k i)
  | _ =>
      match ToInt64 v with
      | inr err => inr err
      | inl i => inl (NewTermInt64Filter k i)
      end
  end.

(** [for i := 0; i < len(params); i += 2] of [ParamsToFilter]. *)
Fixpoint ParamsToFilter_loop (params : list Param) (andFilters : list Filter)
  : list Filter + string :=
  match params with
  | PString k :: v :: rest =>
      match ParamToFilter k v with
      | inr err => inr err
      | inl filter => ParamsToFilter_loop rest (andFilters ++ [filter])
      end
  | _ :: _ :: _ => inr "Keys should be of string type"
  | _ => inl andFilters
  end.

Definition ParamsToFilter (params : list Param) : Filter + string :=
  if negb (Nat.even (length params)) then
    inr ("Slice must be defined by pair k,v: " +:+ fmt_v params)
  else
    match ParamsToFilter_loop params [] with
    | inr err => inr err
    | inl andFilters => inl (NewAndFilter andFilters)
    end.

(** [for i := 0; i < len(s); i += 2] of [SliceToMetadata]. *)
Fixpoint SliceToMetadata_loop (s : list Param) (m : MetadataMatch)
  : MetadataMatch + string :=
  match s with
  | PString k :: v :: rest =>
      match ParamToFilter k v with
      | inr err => inr err
      | inl filter => SliceToMetadata_loop rest (<[k := MFilter filter]> m)
      end
  | _ :: _ :: _ => inr "keys should be of string type"
  | _ => inl m
  end.

Definition SliceToMetadata (s : list Param) : MetadataMatch + string :=
  if negb (Nat.even (length s)) then
    inr ("slice must be defined by pair k,v: " +:+ fmt_v s)
  else SliceToMetadata_loop s ∅.

Definition NewGraphTraversal (g : option Graph) : GraphTraversal :=
  mkGraphTraversal g None (mkGraphStepContext None).

Definition GraphTraversal_Values (t : GraphTraversal) : list Result :=
  [RGraph (gt_Graph t)].

Definition GraphTraversal_Error (t : GraphTraversal) : option string :=
  gt_error t.

(** Instants and durations are counted in nanoseconds; [Unix()] gives the
    seconds.  Negating a duration wraps at 64 bits. *)
Definition wrap64 (z : Z) : Z := (z + 2 ^ 63) mod 2 ^ 64 - 2 ^ 63.
Definition Time_After (t u : Z) : bool := u <? t.
Definition Time_Add (t d : Z) : Z := t + d.
Definition Time_Unix (t : Z) : Z := t / 1000000000.

Definition Context (t : GraphTraversal) (s : list Param) : Go GraphTraversal :=
  match gt_error t with
  | Some _ => Ok t
  | None =>
      s0 ← index s 0;
      at_ ← match s0 with
            | PTime a => Ok a
            | _ => Panic "interface conversion: interface {} is not time.Time"
            end;
      duration ← match s with
                 | _ :: s1 :: _ =>
                     match s1 with
                     | PDuration d => Ok d
                     | _ => Panic "interface conversion: interface {} is not time.Duration"
                     end
                 | _ => Ok 0
                 end;
      if Time_After at_ time_Now then
        Ok (errGT "Sorry, I can't predict the future")
      else
        g ← deref (gt_Graph t);
        match WithContext g
                (mkGraphContext
                   (NewTimeSlice (Time_Unix (Time_Add at_ (wrap64 (- duration))))
                                 (Time_Unix at_))) with
        | inr err => Ok (errGT err)
        | inl g' => Ok (mkGraphTraversal (Some g') None (mkGraphStepContext None))
        end
  end.

(** The pagination loop shared by the steps: [if it.Done() { break } else if
    it.Next() { out = append(out, x) }]. *)
Definition paginate {A : Type} (x : A) (st : Iterator * list A)
  : Ctl (Iterator * list A) :=
  let '(it, out) := st in
  if Done it then Break (it, out)
  else
    let '(it', admitted) := Next it in
    if admitted then Continue (it', out ++ [x]) else Continue (it', out).

Definition V (t : GraphTraversal) (s : list Param) : Go GraphTraversalV :=
  match gt_error t with
  | Some e => Ok (errV e)
  | None =>
      r ← match s with
          | [s0] =>
              match s0 with
              | PString id =>
                  g ← deref (gt_Graph t);
                  match GetNode g id with
                  | None => Ok (inr ("Node '" +:+ id +:+ "' does not exist"))
                  | Some node => Ok (inl [node])
                  end
              | _ => Ok (inr "V accepts only a string when there is only one argument")
              end
          | [] =>
              g ← deref (gt_Graph t);
              Ok (inl (GetNodes g ∅))
          | _ =>
              match SliceToMetadata s with
              | inr err => Ok (inr err)
              | inl metadata =>
                  g ← deref (gt_Graph t);
                  Ok (inl (GetNodes g metadata))
              end
          end;
      match r with
      | inr err => Ok (errV err)
      | inl nodes =>
          let nodes' :=
            match PaginationRange (currentStepContext t) with
            | Some r =>
                snd (ctl_state
                       (for_range paginate nodes (Range_Iterator (Some r), [])))
            | None => nodes
            end in
          Ok (mkGraphTraversalV (Some t) nodes' None)
      end
  end.

Definition NewGraphTraversalV (gt : option GraphTraversal) (nodes : list Node)
  (err : list string) : GraphTraversalV :=
  mkGraphTraversalV gt nodes (head err).

Definition GraphTraversalV_Error (tv : GraphTraversalV) : option string :=
  tv_error tv.

Definition GraphTraversalV_Values (tv : GraphTraversalV) : list Result :=
  map RNode (tv_nodes tv).

Definition GetNodes_ (tv : GraphTraversalV) : list Node := tv_nodes tv.

(** [keys[0].(string)] *)
Definition string_arg (keys : list Param) : Go string :=
  k ← index keys 0;
  match k with
  | PString key => Ok key
  | _ => Panic "interface conversion: interface {} is not string"
  end.

Definition PropertyValues (tv : GraphTraversalV) (keys : list Param)
  : Go GraphTraversalValue :=
  match tv_error tv with
  | Some e => Ok (errValue e)
  | None =>
      key ← string_arg keys;
      let s := fold_left
                 (fun s n =>
                    match node_metadata n !! key with
                    | Some value => s ++ [value]
                    | None => s
                    end) (tv_nodes tv) [] in
      Ok (mkGraphTraversalValue (tv_GraphTraversal tv) (VSlice s) None)
  end.

(** The keys of a Go map come in no fixed order; the embedding takes the
    order of [map_to_list]. *)
Definition PropertyKeys (tv : GraphTraversalV) (keys : list Param)
  : Go GraphTraversalValue :=
  match tv_error tv with
  | Some e => Ok (errValue e)
  | None =>
      let s := fold_left
                 (fun s n =>
                    s ++ map (fun kv => VString (fst kv))
                           (map_to_list (node_metadata n)))
                 (tv_nodes tv) [] in
      Ok (mkGraphTraversalValue (tv_GraphTraversal tv) (VSlice s) None)
  end.

(** Addition of [float64]. *)
Definition float64_add (x y : spec_float) : spec_float := SFadd 53 1024 x y.

Fixpoint Sum_loop (key : string) (nodes : list Node) (s : spec_float)
  : spec_float + string :=
  match nodes with
  | [] => inl s
  | n :: nodes' =>
      match GetFieldInt64 n key with
      | Some value =>
          match ToFloat64 value with
          | inl v => Sum_loop key nodes' (float64_add s v)
          | inr err => inr err
          end
      | None => Sum_loop key nodes' s
      end
  end.

Definition Sum (tv : GraphTraversalV) (keys : list Param) : Go GraphTraversalValue :=
  match tv_error tv with
  | Some e => Ok (errValue e)
  | None =>
      match keys with
      | [PString key] =>
          match Sum_loop key (tv_nodes tv) (S754_zero false) with
          | inr err => Ok (errValue err)
          | inl s => Ok (mkGraphTraversalValue (tv_GraphTraversal tv) (VFloat64 s) None)
          end
      | [_] => Ok (errValue "Sum parameter has to be a string key")
      | _ => Ok (errValue "Sum requires 1 parameter")
      end
  end.

(** The loop of [Dedup] that collects the string keys. *)
Fixpoint Dedup_keys (s : list Param) (keys : list string) : option (list string) :=
  match s with
  | [] => Some keys
  | PString k :: s' => Dedup_keys s' (keys ++ [k])
  | _ => None
  end.

(** [values[i] = v] for every key, or [continue nodeLoop] when a field is
    missing. *)
Fixpoint Dedup_values (n : Node) (keys : list string) : option (list Value) :=
  match keys with
  | [] => Some []
  | key :: keys' =>
      match GetField (node_metadata n) key with
      | None => None
      | Some v => option_map (cons v) (Dedup_values n keys')
      end
  end.

Record DedupState : Type := mkDedupState {
  ds_it : Iterator;
  ds_visited : list MapKey;
  ds_nodes : list Node
}.

(** From [_, ok := visited[kvisited]] to the end of the loop body. *)
Definition GraphTraversalV_Dedup_visit (n : Node) (st : DedupState)
  (kvisited : MapKey) (skip : bool) : Go (Ctl DedupState) :=
  match visited_lookup kvisited (ds_visited st) with
  | Panic msg => Panic msg
  | Ok true => Ok (Continue st)
  | Ok false =>
      let '(it', admitted) := Next (ds_it st) in
      if negb admitted then
        Ok (Continue (mkDedupState it' (ds_visited st) (ds_nodes st)))
      else
        Ok (Continue
              (mkDedupState it'
                 (if skip then ds_visited st
                  else visited_insert kvisited (ds_visited st))
                 (ds_nodes st ++ [n])))
  end.

Definition GraphTraversalV_Dedup_body (keys : list string) (n : Node)
  (st : DedupState) : Go (Ctl DedupState) :=
  if Done (ds_it st) then Ok (Break st)
  else
    match keys with
    | [] => GraphTraversalV_Dedup_visit n st (KIdentifier (node_ID n)) false
    | _ =>
        match Dedup_values n keys with
        | None => Ok (Continue st)
        | Some values =>
            let '(h, err) := hashstructure_Hash values in
            GraphTraversalV_Dedup_visit n st (KUint64 h)
              (bool_decide (err <> None))
        end
    end.

Definition GraphTraversalV_Dedup (tv : GraphTraversalV) (s : list Param)
  : Go GraphTraversalV :=
  match tv_error tv with
  | Some _ => Ok tv
  | None =>
      match Dedup_keys s [] with
      | None => Ok (errV "Dedup parameters have to be string keys")
      | Some keys =>
          gt ← deref (tv_GraphTraversal tv);
          let it := Range_Iterator (PaginationRange (currentStepContext gt)) in
          c ← for_rangeM (GraphTraversalV_Dedup_body keys) (tv_nodes tv)
                (mkDedupState it [] []);
          Ok (mkGraphTraversalV (tv_GraphTraversal tv) (ds_nodes (ctl_state c)) None)
      end
  end.

Definition GraphTraversalShortestPath_Values (sp : GraphTraversalShortestPath)
  : list Result :=
  map RPath (sp_paths sp).

Definition GraphTraversalShortestPath_Error (sp : GraphTraversalShortestPath)
  : option string :=
  sp_error sp.

(** The body of the loop of [ShortestPathTo]: [visited] is consulted and
    never written. *)
Definition ShortestPathTo_body (tv : GraphTraversalV) (m e : MetadataMatch)
  (n : Node) (st : gset Identifier * list (list Node))
  : Go (Ctl (gset Identifier * list (list Node))) :=
  let '(visited, paths) := st in
  if bool_decide (node_ID n ∈ visited) then Ok (Continue (visited, paths))
  else
    gt ← deref (tv_GraphTraversal tv);
    g ← deref (gt_Graph gt);
    let path := LookupShortestPath g n m e in
    if (0 <? length path)%nat then Ok (Continue (visited, paths ++ [path]))
    else Ok (Continue (visited, paths)).

Definition ShortestPathTo (tv : GraphTraversalV) (m e : MetadataMatch)
  : Go GraphTraversalShortestPath :=
  match tv_error tv with
  | Some err => Ok (errSP err)
  | None =>
      c ← for_rangeM (ShortestPathTo_body tv m e) (tv_nodes tv) (∅, []);
      Ok (mkGraphTraversalShortestPath (tv_GraphTraversal tv)
            (snd (ctl_state c)) None)
  end.

Definition GraphTraversalV_hasKey (tv : GraphTraversalV) (k : string)
  : GraphTraversalV :=
  match tv_error tv with
  | Some _ => tv
  | None =>
      mkGraphTraversalV (tv_GraphTraversal tv)
        (fold_left
           (fun nodes n =>
              match node_metadata n !! k with
              | Some _ => nodes ++ [n]
              | None => nodes
              end) (tv_nodes tv) [])
        None
  end.

Definition GraphTraversalV_Has_body (filter : Filter) (n : Node)
  (st : Iterator * list Node) : Ctl (Iterator * list Node) :=
  let '(it, nodes) := st in
  if Done it then Break (it, nodes)
  else if Filter_Eval filter n then
    let '(it', admitted) := Next it in
    if admitted then Continue (it', nodes ++ [n]) else Continue (it', nodes)
  else Continue (it, nodes).

Definition GraphTraversalV_Has (tv : GraphTraversalV) (s : list Param)
  : Go GraphTraversalV :=
  match tv_error tv with
  | Some _ => Ok tv
  | None =>
      match s with
      | [] => Ok (errV "At least one parameter must be provided")
      | [PString k] => Ok (GraphTraversalV_hasKey tv k)
      | [_] => Ok (errV "Key must be a string")
      | _ =>
          gt ← deref (tv_GraphTraversal tv);
          let it := Range_Iterator (PaginationRange (currentStepContext gt)) in
          match ParamsToFilter s with
          | inr err => Ok (errV err)
          | inl filter =>
              Ok (mkGraphTraversalV (tv_GraphTraversal tv)
                    (snd (ctl_state
                            (for_range (GraphTraversalV_Has_body filter)
                               (tv_nodes tv) (it, []))))
                    None)
          end
      end
  end.

(** [tv.GraphTraversal.Graph], dereferenced inside a loop body. *)
Definition graph_of (gt : GraphTraversal) : Go Graph := deref (gt_Graph gt).

(** Lifts the result of an inner loop that ends in [break nodeloop]. *)
Definition pure_loop {A S : Type} (body : A -> S -> Ctl S) (l : list A) (s : S)
  : Go (Ctl S) :=
  Ok (for_range body l s).

Definition Both_body (gt : GraphTraversal) (metadata : MetadataMatch)
  (n : Node) (st : Iterator * list Node) : Go (Ctl (Iterator * list Node)) :=
  g ← graph_of gt;
  for_rangeM
    (fun e st =>
       let nodes :=
         if bool_decide (GetChild e = node_ID n)
         then fst (GetEdgeNodes g e metadata ∅)
         else snd (GetEdgeNodes g e ∅ metadata) in
       pure_loop paginate nodes st)
    (GetNodeEdges g n ∅) st.

Definition Both (tv : GraphTraversalV) (s : list Param) : Go GraphTraversalV :=
  match tv_error tv with
  | Some _ => Ok tv
  | None =>
      match SliceToMetadata s with
      | inr err => Ok (errV err)
      | inl metadata =>
          gt ← deref (tv_GraphTraversal tv);
          let it := Range_Iterator (PaginationRange (currentStepContext gt)) in
          c ← for_rangeM (Both_body gt metadata) (tv_nodes tv) (it, []);
          Ok (mkGraphTraversalV (tv_GraphTraversal tv) (snd (ctl_state c)) None)
      end
  end.

Definition GraphTraversalV_Count (tv : GraphTraversalV) (s : list Param)
  : GraphTraversalValue :=
  match tv_error tv with
  | Some e => errValue e
  | None =>
      mkGraphTraversalValue (tv_GraphTraversal tv)
        (VInt (Z.of_nat (length (tv_nodes tv)))) None
  end.

Definition GraphTraversalV_Range (tv : GraphTraversalV) (s : list Param)
  : Go GraphTraversalV :=
  match tv_error tv with
  | Some e => Ok (errV e)
  | None =>
      match s with
      | [s0; s1] =>
          match s0, s1 with
          | PInt64 from, PInt64 to =>
              nodes ← Range_loop (S (length (tv_nodes tv))) from to (tv_nodes tv) [];
              Ok (mkGraphTraversalV (tv_GraphTraversal tv) nodes None)
          | PInt64 _, _ => Ok (errV (fmt_s s1 +:+ " is not an integer"))
          | _, _ => Ok (errV (fmt_s s0 +:+ " is not an integer"))
          end
      | _ => Ok (errV "2 parameters must be provided to 'range'")
      end
  end.

Definition GraphTraversalV_Limit (tv : GraphTraversalV) (s : list Param)
  : Go GraphTraversalV :=
  s0 ← index s 0;
  GraphTraversalV_Range tv [PInt64 0; s0].

Definition Out_body (gt : GraphTraversal) (metadata : MetadataMatch)
  (n : Node) (st : Iterator * list Node) : Go (Ctl (Iterator * list Node)) :=
  g ← graph_of gt;
  pure_loop paginate (LookupChildren g n metadata ∅) st.

Definition Out (tv : GraphTraversalV) (s : list Param) : Go GraphTraversalV :=
  match tv_error tv with
  | Some _ => Ok tv
  | None =>
      match SliceToMetadata s with
      | inr err => Ok (errV err)
      | inl metadata =>
          gt ← deref (tv_GraphTraversal tv);
          let it := Range_Iterator (PaginationRange (currentStepContext gt)) in
          c ← for_rangeM (Out_body gt metadata) (tv_nodes tv) (it, []);
          Ok (mkGraphTraversalV (tv_GraphTraversal tv) (snd (ctl_state c)) None)
      end
  end.

(** The inner loop of [OutE]: [Done] is consulted, [Next] is not called. *)
Definition OutE_inner (n : Node) (e : Edge) (st : Iterator * list Edge)
  : Ctl (Iterator * list Edge) :=
  let '(it, edges) := st in
  if bool_decide (GetParent e = node_ID n) then
    if Done it then Break (it, edges)
    else Continue (it, edges ++ [e])
  else Continue (it, edges).

Definition OutE_body (gt : GraphTraversal) (metadata : MetadataMatch)
  (n : Node) (st : Iterator * list Edge) : Go (Ctl (Iterator * list Edge)) :=
  g ← graph_of gt;
  pure_loop (OutE_inner n) (GetNodeEdges g n metadata) st.

Definition OutE (tv : GraphTraversalV) (s : list Param) : Go GraphTraversalE :=
  match tv_error tv with
  | Some e => Ok (errE e)
  | None =>
      match SliceToMetadata s with
      | inr err => Ok (errE err)
      | inl metadata =>
          gt ← deref (tv_GraphTraversal tv);
          let it := Range_Iterator (PaginationRange (currentStepContext gt)) in
          c ← for_rangeM (OutE_body gt metadata) (tv_nodes tv) (it, []);
          Ok (mkGraphTraversalE (tv_GraphTraversal tv) (snd (ctl_state c)) None)
      end
  end.

(** The inner loop of [In]: [Done] is consulted, [Next] is not called. *)
Definition In_inner (parent : Node) (st : Iterator * list Node)
  : Ctl (Iterator * list Node) :=
  let '(it, nodes) := st in
  if Done it then Break (it, nodes)
  else Continue (it, nodes ++ [parent]).

Definition In_body (gt : GraphTraversal) (metadata : MetadataMatch)
  (n : Node) (st : Iterator * list Node) : Go (Ctl (Iterator * list Node)) :=
  g ← graph_of gt;
  pure_loop In_inner (LookupParents g n metadata ∅) st.

Definition In_ (tv : GraphTraversalV) (s : list Param) : Go GraphTraversalV :=
  match tv_error tv with
  | Some _ => Ok tv
  | None =>
      match SliceToMetadata s with
      | inr err => Ok (errV err)
      | inl metadata =>
          gt ← deref (tv_GraphTraversal tv);
          let it := Range_Iterator (PaginationRange (currentStepContext gt)) in
          c ← for_rangeM (In_body gt metadata) (tv_nodes tv) (it, []);
          Ok (mkGraphTraversalV (tv_GraphTraversal tv) (snd (ctl_state c)) None)
      end
  end.

Definition InE_inner (n : Node) (e : Edge) (st : Iterator * list Edge)
  : Ctl (Iterator * list Edge) :=
  if bool_decide (GetChild e = node_ID n) then paginate e st
  else Continue st.

Definition InE_body (gt : GraphTraversal) (metadata : MetadataMatch)
  (n : Node) (st : Iterator * list Edge) : Go (Ctl (Iterator * list Edge)) :=
  g ← graph_of gt;
  pure_loop (InE_inner n) (GetNodeEdges g n metadata) st.

Definition InE (tv : GraphTraversalV) (s : list Param) : Go GraphTraversalE :=
  match tv_error tv with
  | Some e => Ok (errE e)
  | None =>
      match SliceToMetadata s with
      | inr err =>
          Ok (mkGraphTraversalE (tv_GraphTraversal tv) [] (Some err))
      | inl metadata =>
          gt ← deref (tv_GraphTraversal tv);
          let it := Range_Iterator (PaginationRange (currentStepContext gt)) in
          c ← for_rangeM (InE_body gt metadata) (tv_nodes tv) (it, []);
          Ok (mkGraphTraversalE (tv_GraphTraversal tv) (snd (ctl_state c)) None)
      end
  end.

Definition GraphTraversalE_Error (te : GraphTraversalE) : option string :=
  te_error te.

Definition GraphTraversalE_Values (te : GraphTraversalE) : list Result :=
  map REdge (te_edges te).

Definition GraphTraversalE_Count (te : GraphTraversalE) (s : list Param)
  : GraphTraversalValue :=
  match te_error te with
  | Some e => errValue e
  | None =>
      mkGraphTraversalValue (te_GraphTraversal te)
        (VInt (Z.of_nat (length (te_edges te)))) None
  end.

Definition GraphTraversalE_Range (te : GraphTraversalE) (s : list Param)
  : Go GraphTraversalE :=
  match te_error te with
  | Some _ => Ok te
  | None =>
      match s with
      | [s0; s1] =>
          match s0, s1 with
          | PInt64 from, PInt64 to =>
              edges ← Range_loop (S (length (te_edges te))) from to (te_edges te) [];
              Ok (mkGraphTraversalE (te_GraphTraversal te) edges None)
          | PInt64 _, _ => Ok (errE (fmt_s s1 +:+ " is not an integer"))
          | _, _ => Ok (errE (fmt_s s0 +:+ " is not an integer"))
          end
      | _ =>
          Ok (mkGraphTraversalE (te_GraphTraversal te) []
                (Some "2 parameters must be provided to 'range'"))
      end
  end.

Definition GraphTraversalE_Limit (te : GraphTraversalE) (s : list Param)
  : Go GraphTraversalE :=
  match te_error te with
  | Some _ => Ok te
  | None =>
      s0 ← index s 0;
      GraphTraversalE_Range te [PInt64 0; s0]
  end.

(** The body of the loop of the edge [Dedup]. *)
Definition GraphTraversalE_Dedup_body (key : string) (e : Edge)
  (st : list MapKey * list Edge) : Go (Ctl (list MapKey * list Edge)) :=
  let '(visited, edges) := st in
  let kvisited :=
    if bool_decide (key <> "") then
      match edge_metadata e !! key with
      | Some v => KValue v
      | None => KIdentifier (edge_ID e)
      end
    else KIdentifier (edge_ID e) in
  match visited_lookup kvisited visited with
  | Panic msg => Panic msg
  | Ok true => Ok (Continue (visited, edges))
  | Ok false => Ok (Continue (visited_insert kvisited visited, edges ++ [e]))
  end.

Definition GraphTraversalE_Dedup (te : GraphTraversalE) (keys : list Param)
  : Go GraphTraversalE :=
  match te_error te with
  | Some _ => Ok te
  | None =>
      match
        match keys with
        | [] => Some ""
        | PString k :: _ => Some k
        | _ => None
        end
      with
      | None => Ok (errE "Dedup parameter has to be a string key")
      | Some key =>
          c ← for_rangeM (GraphTraversalE_Dedup_body key) (te_edges te) ([], []);
          Ok (mkGraphTraversalE (te_GraphTraversal te) (snd (ctl_state c)) None)
      end
  end.

Definition GraphTraversalE_hasKey_body (k : string) (e : Edge)
  (st : Iterator * list Edge) : Ctl (Iterator * list Edge) :=
  let '(it, edges) := st in
  if Done it then Break (it, edges)
  else
    match edge_metadata e !! k with
    | Some _ =>
        let '(it', admitted) := Next it in
        if admitted then Continue (it', edges ++ [e]) else Continue (it', edges)
    | None => Continue (it, edges)
    end.

Definition GraphTraversalE_hasKey (te : GraphTraversalE) (k : string)
  : Go GraphTraversalE :=
  match te_error te with
  | Some _ => Ok te
  | None =>
      gt ← deref (te_GraphTraversal te);
      let it := Range_Iterator (PaginationRange (currentStepContext gt)) in
      Ok (mkGraphTraversalE (te_GraphTraversal te)
            (snd (ctl_state
                    (for_range (GraphTraversalE_hasKey_body k) (te_edges te)
                       (it, []))))
            None)
  end.

Definition GraphTraversalE_Has_body (m : MetadataMatch) (e : Edge)
  (st : Iterator * list Edge) : Ctl (Iterator * list Edge) :=
  let '(it, edges) := st in
  if Done it then Break (it, edges)
  else if MatchMetadata e m then
    let '(it', admitted) := Next it in
    if admitted then Continue (it', edges ++ [e]) else Continue (it', edges)
  else Continue (it, edges).

Definition GraphTraversalE_Has (te : GraphTraversalE) (s : list Param)
  : Go GraphTraversalE :=
  match te_error te with
  | Some _ => Ok te
  | None =>
      match s with
      | [] => Ok (errE "At least one parameters must be provided")
      | [PString k] => GraphTraversalE_hasKey te k
      | [_] => Ok (errE "Key must be a string")
      | _ =>
          match SliceToMetadata s with
          | inr err => Ok (errE err)
          | inl m =>
              gt ← deref (te_GraphTraversal te);
              let it := Range_Iterator (PaginationRange (currentStepContext gt)) in
              Ok (mkGraphTraversalE (te_GraphTraversal te)
                    (snd (ctl_state
                            (for_range (GraphTraversalE_Has_body m) (te_edges te)
                               (it, []))))
                    None)
          end
      end
  end.

(** The inner loops of [InV] and [OutV] end in a plain [break]: the loop
    over the edges goes on. *)
Definition InV_body (gt : GraphTraversal) (metadata : MetadataMatch)
  (e : Edge) (st : Iterator * list Node) : Go (Ctl (Iterator * list Node)) :=
  g ← graph_of gt;
  let parents := fst (GetEdgeNodes g e metadata ∅) in
  Ok (Continue (ctl_state (for_range paginate parents st))).

Definition InV (te : GraphTraversalE) (s : list Param) : Go GraphTraversalV :=
  match te_error te with
  | Some e => Ok (errV e)
  | None =>
      match SliceToMetadata s with
      | inr err => Ok (errV err)
      | inl metadata =>
          gt ← deref (te_GraphTraversal te);
          let it := Range_Iterator (PaginationRange (currentStepContext gt)) in
          c ← for_rangeM (InV_body gt metadata) (te_edges te) (it, []);
          Ok (mkGraphTraversalV (te_GraphTraversal te) (snd (ctl_state c)) None)
      end
  end.

Definition OutV_body (gt : GraphTraversal) (metadata : MetadataMatch)
  (e : Edge) (st : Iterator * list Node) : Go (Ctl (Iterator * list Node)) :=
  g ← graph_of gt;
  let children := snd (GetEdgeNodes g e ∅ metadata) in
  Ok (Continue (ctl_state (for_range paginate children st))).

Definition OutV (te : GraphTraversalE) (s : list Param) : Go GraphTraversalV :=
  match te_error te with
  | Some e => Ok (errV e)
  | None =>
      match SliceToMetadata s with
      | inr err => Ok (errV err)
      | inl metadata =>
          gt ← deref (te_GraphTraversal te);
          let it := Range_Iterator (PaginationRange (currentStepContext gt)) in
          c ← for_rangeM (OutV_body gt metadata) (te_edges te) (it, []);
          Ok (mkGraphTraversalV (te_GraphTraversal te) (snd (ctl_state c)) None)
      end
  end.

Definition NewGraphTraversalValue (gt : option GraphTraversal) (value : Value)
  (err : list string) : GraphTraversalValue :=
  mkGraphTraversalValue gt value (head err).

(** [Values] does not look at the error: a value that is a slice is
    returned as it is, any other value, nil included, is wrapped in a
    slice of one element. *)
Definition GraphTraversalValue_Values (t : GraphTraversalValue) : list Result :=
  match val_value t with
  | VSlice v => map RValue v
  | value => [RValue value]
  end.

Definition GraphTraversalValue_Error (t : GraphTraversalValue) : option string :=
  val_error t.

Definition GraphTraversalValue_Dedup_body (v : Value)
  (st : list MapKey * list Value) : Go (Ctl (list MapKey * list Value)) :=
  let '(visited, nv) := st in
  match visited_lookup (KValue v) visited with
  | Panic msg => Panic msg
  | Ok true => Ok (Continue (visited, nv))
  | Ok false => Ok (Continue (visited_insert (KValue v) visited, nv ++ [v]))
  end.

Definition GraphTraversalValue_Dedup (t : GraphTraversalValue) (keys : list Param)
  : Go GraphTraversalValue :=
  match val_error t with
  | Some _ => Ok t
  | None =>
      let values := match val_value t with
                    | VSlice v => v
                    | value => [value]
                    end in
      c ← for_rangeM GraphTraversalValue_Dedup_body values ([], []);
      Ok (mkGraphTraversalValue (val_GraphTraversal t)
            (VSlice (snd (ctl_state c))) None)
  end.

(** *** The steps as one algebra *)

(** A step object of any of the five kinds ([GraphTraversalStep]). *)
Inductive Step : Type :=
| SGraph (t : GraphTraversal)
| SV (tv : GraphTraversalV)
| SE (te : GraphTraversalE)
| SPath (sp : GraphTraversalShortestPath)
| SValue (t : GraphTraversalValue).

Definition Step_Error (s : Step) : option string :=
  match s with
  | SGraph t => GraphTraversal_Error t
  | SV tv => GraphTraversalV_Error tv
  | SE te => GraphTraversalE_Error te
  | SPath sp => GraphTraversalShortestPath_Error sp
  | SValue t => GraphTraversalValue_Error t
  end.

Definition Step_Values (s : Step) : list Result :=
  match s with
  | SGraph t => GraphTraversal_Values t
  | SV tv => GraphTraversalV_Values tv
  | SE te => GraphTraversalE_Values te
  | SPath sp => GraphTraversalShortestPath_Values sp
  | SValue t => GraphTraversalValue_Values t
  end.

(** A method call with its arguments. *)
Inductive Call : Type :=
| CContext (s : list Param)
| CV (s : list Param)
| CPropertyValues (keys : list Param)
| CPropertyKeys (keys : list Param)
| CSum (keys : list Param)
| CDedup (s : list Param)
| CShortestPathTo (m e : MetadataMatch)
| CHas (s : list Param)
| CBoth (s : list Param)
| CCount (s : list Param)
| CRange (s : list Param)
| CLimit (s : list Param)
| COut (s : list Param)
| COutE (s : list Param)
| CIn (s : list Param)
| CInE (s : list Param)
| CInV (s : list Param)
| COutV (s : list Param).

(** Applies a method to a step; [None] when the kind of step has no such
    method. *)
Definition apply (c : Call) (s : Step) : option (Go Step) :=
  match s, c with
  | SGraph t, CContext a => Some (SGraph <$> Context t a)
  | SGraph t, CV a => Some (SV <$> V t a)
  | SV tv, CPropertyValues a => Some (SValue <$> PropertyValues tv a)
  | SV tv, CPropertyKeys a => Some (SValue <$> PropertyKeys tv a)
  | SV tv, CSum a => Some (SValue <$> Sum tv a)
  | SV tv, CDedup a => Some (SV <$> GraphTraversalV_Dedup tv a)
  | SV tv, CShortestPathTo m e => Some (SPath <$> ShortestPathTo tv m e)
  | SV tv, CHas a => Some (SV <$> GraphTraversalV_Has tv a)
  | SV tv, CBoth a => Some (SV <$> Both tv a)
  | SV tv, CCount a => Some (Ok (SValue (GraphTraversalV_Count tv a)))
  | SV tv, CRange a => Some (SV <$> GraphTraversalV_Range tv a)
  | SV tv, CLimit a => Some (SV <$> GraphTraversalV_Limit tv a)
  | SV tv, COut a => Some (SV <$> Out tv a)
  | SV tv, COutE a => Some (SE <$> OutE tv a)
  | SV tv, CIn a => Some (SV <$> In_ tv a)
  | SV tv, CInE a => Some (SE <$> InE tv a)
  | SE te, CCount a => Some (Ok (SValue (GraphTraversalE_Count te a)))
  | SE te, CRange a => Some (SE <$> GraphTraversalE_Range te a)
  | SE te, CLimit a => Some (SE <$> GraphTraversalE_Limit te a)
  | SE te, CDedup a => Some (SE <$> GraphTraversalE_Dedup te a)
  | SE te, CHas a => Some (SE <$> GraphTraversalE_Has te a)
  | SE te, CInV a => Some (SV <$> InV te a)
  | SE te, COutV a => Some (SV <$> OutV te a)
  | SValue t, CDedup a => Some (SValue <$> GraphTraversalValue_Dedup t a)
  | _, _ => None
  end.

(** A fresh step object that holds an error and nothing else. *)
Definition error_only (e : string) (s : Step) : Prop :=
  s = SGraph (errGT e) \/ s = SV (errV e) \/ s = SE (errE e) \/
  s = SPath (errSP e) \/ s = SValue (errValue e).

End Traversal.

(** ** The TID mapper ([topology/tid_mapper.go]) *)

(** [uuid.NewV5(ns, name)] of the UUID library followed by [String()]. *)
Class UUIDLib : Type := {
  uuid_NewV5 : string -> string -> string
}.

Definition NamespaceOID : string := "6ba7b812-9dad-11d1-80b4-00c04fd430c8".

(** Modelled from the spec: the graph the mapper writes to (package [graph]
    is not part of the sources): "a set of nodes and a set of edges"; a node
    is known by its identifier and carries its metadata, and the edges are
    kept in the order of their insertion. *)
Record Store : Type := mkStore {
  st_nodes : gmap Identifier Metadata;
  st_edges : list Edge
}.

(** The metadata a [*graph.Node] shows at the time it is read. *)
Definition Node_Metadata (g : Store) (n : Identifier) : Metadata :=
  default ∅ (st_nodes g !! n).

(** Modelled from the spec: [AddMetadata(node, key, value)] sets the key of
    the node.  The listeners are told of the update; for the mapper itself
    that call finds the TID just written and does nothing. *)
Definition AddMetadata (g : Store) (n : Identifier) (k : string) (v : Value)
  : Store :=
  match st_nodes g !! n with
  | Some md => mkStore (<[n := <[k := v]> md]> (st_nodes g)) (st_edges g)
  | None => g
  end.

(** "A distinguished [RelationType] key classifies edges, notably
    [ownership]". *)
Definition is_ownership (e : Edge) : bool :=
  bool_decide (GetFieldString (edge_metadata e) "RelationType" = Some "ownership").

Definition node_exists (g : Store) (n : Identifier) : bool :=
  bool_decide (is_Some (st_nodes g !! n)).

(** Modelled from the spec: [LookupChildren(node, {}, {RelationType:
    ownership})], the children of the node through its ownership edges. *)
Definition ownership_children (g : Store) (n : Identifier) : list Identifier :=
  map edge_child
    (List.filter (fun e => is_ownership e && bool_decide (edge_parent e = n)
                      && node_exists g (edge_child e))
       (st_edges g)).

(** Modelled from the spec: [LookupParents(node, {}, {RelationType:
    ownership})], the parents of the node through its ownership edges. *)
Definition ownership_parents (g : Store) (n : Identifier) : list Identifier :=
  map edge_parent
    (List.filter (fun e => is_ownership e && bool_decide (edge_child e = n)
                      && node_exists g (edge_parent e))
       (st_edges g)).

(** Modelled from the spec: [GetEdgeNodes(edge, {}, {})], the parent and the
    child of the edge that are in the graph. *)
Definition edge_nodes (g : Store) (e : Edge) : list Identifier * list Identifier :=
  (if node_exists g (edge_parent e) then [edge_parent e] else [],
   if node_exists g (edge_child e) then [edge_child e] else []).

Record TIDMapper : Type := mkTIDMapper {
  tm_Graph : Store;
  hostID : Identifier;
  (** what [logging.GetLogger().Errorf] has received; a node is rendered
      by its identifier *)
  tm_errors : list string
}.

Section Mapper.

Context `{UUIDLib}.

Definition set_graph (t : TIDMapper) (g : Store) : TIDMapper :=
  mkTIDMapper g (hostID t) (tm_errors t).

Definition setTID (t : TIDMapper) (parent child : Identifier) : TIDMapper :=
  let tp := GetFieldString_ (Node_Metadata (tm_Graph t) child) "Type" in
  if bool_decide (tp = "") then t
  else
    let name := GetFieldString_ (Node_Metadata (tm_Graph t) child) "Name" in
    if bool_decide (name = "") then t
    else
      let tid := GetFieldString_ (Node_Metadata (tm_Graph t) parent) "TID" in
      if bool_decide (tid <> "") then
        let tid := tid +:+ name +:+ tp in
        let u := uuid_NewV5 NamespaceOID tid in
        set_graph t (AddMetadata (tm_Graph t) child "TID" (VString u))
      else t.

Definition setChildrenTID (t : TIDMapper) (parent : Identifier) : TIDMapper :=
  let children := ownership_children (tm_Graph t) parent in
  fold_left (fun t child => setTID t parent child) children t.

Definition TIDMapper_onNodeEvent (t : TIDMapper) (n : Identifier) : TIDMapper :=
  let md := Node_Metadata (tm_Graph t) n in
  match GetFieldString md "TID" with
  | Some _ => t
  | None =>
      match GetFieldString md "Type" with
      | None => t
      | Some tp =>
          if bool_decide (tp = "host") then
            let t := mkTIDMapper (tm_Graph t) n (tm_errors t) in
            let t := set_graph t (AddMetadata (tm_Graph t) n "TID" (VString n)) in
            setChildrenTID t n
          else if bool_decide (tp = "netns") then
            let path := GetFieldString_ md "Path" in
            if bool_decide (path <> "") then
              let tid := hostID t +:+ path +:+ tp in
              let u := uuid_NewV5 NamespaceOID tid in
              let t := set_graph t (AddMetadata (tm_Graph t) n "TID" (VString u)) in
              setChildrenTID t n
            else t
          else if bool_decide (tp = "ovsport") then
            let u := GetFieldString_ md "UUID" in
            if bool_decide (u <> "") then
              let tid := hostID t +:+ u +:+ tp in
              let u := uuid_NewV5 NamespaceOID tid in
              let t := set_graph t (AddMetadata (tm_Graph t) n "TID" (VString u)) in
              setChildrenTID t n
            else t
          else
            let probe := GetFieldString_ md "Probe" in
            if bool_decide (probe = "fabric") then
              set_graph t (AddMetadata (tm_Graph t) n "TID" (VString n))
            else
              let parents := ownership_parents (tm_Graph t) n in
              if (1 <? length parents)%nat then
                mkTIDMapper (tm_Graph t) (hostID t)
                  (tm_errors t ++
                   ["A should always only have one ownership parent: " +:+ n])
              else
                match parents with
                | [parent] => setTID t parent n
                | _ => t
                end
      end
  end.

Definition TIDMapper_OnNodeUpdated := TIDMapper_onNodeEvent.
Definition TIDMapper_OnNodeAdded := TIDMapper_onNodeEvent.

Definition onEdgeEvent (t : TIDMapper) (e : Edge) : TIDMapper :=
  if bool_decide (GetFieldString_ (edge_metadata e) "RelationType" <> "ownership")
  then t
  else
    match edge_nodes (tm_Graph t) e with
    | (parent :: _, child :: _) => setTID t parent child
    | _ => t
    end.

Definition TIDMapper_OnEdgeUpdated := onEdgeEvent.
Definition TIDMapper_OnEdgeAdded := onEdgeEvent.

Definition NewTIDMapper (g : Store) : TIDMapper := mkTIDMapper g "" [].

End Mapper.

(** ** The on-demand capture client ([flow/ondemand/client/client.go]) *)

(** [api.Capture]: the identifier, the query, and the capture parameters,
    which the client passes on as they are. *)
Record Capture : Type := mkCapture {
  UUID : string;
  GremlinQuery : string;
  capture_params : string
}.

(** The zero value [api.Capture{}]. *)
Definition Capture_zero : Capture := mkCapture "" "" "".

Record CaptureQuery : Type := mkCaptureQuery {
  NodeID : string;
  cq_Capture : Capture
}.

Inductive WSObj : Type :=
| ObjCaptureQuery (cq : CaptureQuery)
| ObjCapture (c : Capture).

Record WSMessage : Type := mkWSMessage {
  msg_Namespace : string;
  msg_Type : string;
  msg_Obj : WSObj
}.

(** Modelled from the spec: [ondemand.Namespace] and [shttp.NewWSMessage]
    (packages [ondemand] and [http] are not part of the sources): "all
    orchestrator messages use a single logical channel ("ondemand");
    envelope carries a string type and a payload". *)
Definition Namespace : string := "ondemand".
Definition NewWSMessage (ns type : string) (obj : WSObj) : WSMessage :=
  mkWSMessage ns type obj.

(** What a handler does to the outside, in order: a directed send, a
    broadcast, a line of log, a goroutine running [registerProbes]. *)
Inductive Effect : Type :=
| ESendWSMessageTo (msg : WSMessage) (host : string)
| EBroadcastWSMessage (msg : WSMessage)
| ELog (text : string)
| EGo_registerProbes (nodes : list Result) (capture : Capture).

(** The collaborators of the client: the delivery result of the bus
    ([WSServer.SendWSMessageTo]) and the evaluation of a query on the graph
    ([topology.ExecuteGremlinQuery]), which gives a step or an error. *)
Class ClientEnv : Type := {
  SendWSMessageTo : WSMessage -> string -> bool;
  ExecuteGremlinQuery : string -> Step + string
}.

Record OnDemandProbeClient : Type := mkOnDemandProbeClient {
  captures : gmap string Capture;
  (** what [elector.IsMaster()] answers *)
  IsMaster : bool
}.

Section Client.

Context `{ClientEnv}.

Definition registerProbe (id : Identifier) (host : string) (capture : Capture)
  : list Effect * bool :=
  let cq := mkCaptureQuery id capture in
  let msg := NewWSMessage Namespace "CaptureStart" (ObjCaptureQuery cq) in
  if negb (SendWSMessageTo msg host) then
    ([ESendWSMessageTo msg host;
      ELog ("Unable to send message to agent: " +:+ host)], false)
  else ([ESendWSMessageTo msg host], true).

(** One node of [registerProbes]; [Break] stands for [return].  The node
    is read as the graph shows it when the goroutine runs. *)
Definition registerProbes_node (capture : Capture) (node : Node)
  (effects : list Effect) : Ctl (list Effect) :=
  match GetFieldString (node_metadata node) "Capture/ID" with
  | Some _ => Break effects
  | None =>
      let nodeID := node_ID node in
      let host := Host node in
      Continue (effects ++ fst (registerProbe nodeID host capture))
  end.

Definition registerProbes_body (capture : Capture) (i : Result)
  (effects : list Effect) : Ctl (list Effect) :=
  match i with
  | RNode node => registerProbes_node capture node effects
  | RPath nodes => for_range (registerProbes_node capture) nodes effects
  | _ => Continue effects
  end.

Definition registerProbes (nodes : list Result) (capture : Capture)
  : list Effect :=
  ctl_state (for_range (registerProbes_body capture) nodes []).

Definition unregisterProbe (node : Node) : list Effect * bool :=
  let msg := NewWSMessage Namespace "CaptureStop"
               (ObjCaptureQuery (mkCaptureQuery (node_ID node) Capture_zero)) in
  if negb (SendWSMessageTo msg (Host node)) then
    ([ESendWSMessageTo msg (Host node);
      ELog ("Unable to send message to agent: " +:+ Host node)], false)
  else ([ESendWSMessageTo msg (Host node)], true).

Definition applyGremlinExpr (query : string) : list Result * list Effect :=
  match ExecuteGremlinQuery query with
  | inr err => ([], [ELog ("Gremlin error: " +:+ err)])
  | inl res => (Step_Values res, [])
  end.

(** The captures of a Go map come in no fixed order; the embedding takes
    the order of [map_to_list]. *)
Definition onNodeEvent (o : OnDemandProbeClient) : list Effect :=
  if negb (IsMaster o) then []
  else
    fold_left
      (fun effects kv =>
         let capture := snd kv in
         let '(res, logs) := applyGremlinExpr (GremlinQuery capture) in
         if (0 <? length res)%nat
         then effects ++ logs ++ [EGo_registerProbes res capture]
         else effects ++ logs)
      (map_to_list (captures o)) [].

Definition OnNodeAdded (o : OnDemandProbeClient) (n : Node) := onNodeEvent o.
Definition OnNodeUpdated (o : OnDemandProbeClient) (n : Node) := onNodeEvent o.
Definition OnEdgeAdded (o : OnDemandProbeClient) (e : Edge) := onNodeEvent o.

Definition onCaptureAdded (o : OnDemandProbeClient) (capture : Capture)
  : OnDemandProbeClient * list Effect :=
  if negb (IsMaster o) then (o, [])
  else
    let o := mkOnDemandProbeClient (<[UUID capture := capture]> (captures o))
               (IsMaster o) in
    let '(nodes, logs) := applyGremlinExpr (GremlinQuery capture) in
    if (0 <? length nodes)%nat
    then (o, logs ++ [EGo_registerProbes nodes capture])
    else (o, logs).

Definition stop_node (node : Node) (effects : list Effect) : list Effect :=
  let '(sent, ok) := unregisterProbe node in
  if negb ok
  then effects ++ sent ++ [ELog ("Failed to stop capture on " +:+ node_ID node)]
  else effects ++ sent.

Definition onCaptureDeleted_body (value : Result) (effects : list Effect)
  : Ctl (list Effect) :=
  match value with
  | RNode e => Continue (stop_node e effects)
  | RPath e => Continue (fold_left (fun effects node => stop_node node effects) e effects)
  | _ => Break effects
  end.

Definition onCaptureDeleted (o : OnDemandProbeClient) (capture : Capture)
  : OnDemandProbeClient * list Effect :=
  if negb (IsMaster o) then (o, [])
  else
    let o := mkOnDemandProbeClient (delete (UUID capture) (captures o))
               (IsMaster o) in
    match ExecuteGremlinQuery (GremlinQuery capture) with
    | inr err => (o, [ELog ("Gremlin error: " +:+ err)])
    | inl res =>
        (o, ctl_state (for_range onCaptureDeleted_body (Step_Values res) []))
    end.

Definition onAPIWatcherEvent (o : OnDemandProbeClient) (action id : string)
  (capture : Capture) : OnDemandProbeClient * list Effect :=
  let debug := ELog ("New watcher event " +:+ action +:+ " for " +:+ id) in
  if bool_decide (action ∈ ["init"; "create"; "set"; "update"]) then
    let bc := EBroadcastWSMessage
                (NewWSMessage Namespace "CaptureAdded" (ObjCapture capture)) in
    let '(o', effects) := onCaptureAdded o capture in
    (o', debug :: bc :: effects)
  else if bool_decide (action ∈ ["expire"; "delete"]) then
    let bc := EBroadcastWSMessage
                (NewWSMessage Namespace "CaptureDeleted" (ObjCapture capture)) in
    let '(o', effects) := onCaptureDeleted o capture in
    (o', debug :: bc :: effects)
  else (o, [debug]).

(** The effects of a handler once its goroutines have run. *)
Definition run_goroutines (effects : list Effect) : list Effect :=
  flat_map (fun ef =>
              match ef with
              | EGo_registerProbes nodes capture => registerProbes nodes capture
              | _ => [ef]
              end) effects.

Definition is_outbound (ef : Effect) : bool :=
  match ef with
  | ESendWSMessageTo _ _ | EBroadcastWSMessage _ => true
  | _ => false
  end.

(** The messages put on the bus, directed and broadcast. *)
Definition outbound (effects : list Effect) : list Effect :=
  List.filter is_outbound (run_goroutines effects).

Definition is_directed (ef : Effect) : bool :=
  match ef with
  | ESendWSMessageTo _ _ => true
  | _ => false
  end.

End Client.

(** ** Text of an error *)

(** [sub] occurs in [s] ([strings.Contains]). *)
Fixpoint contains (sub s : string) : bool :=
  String.prefix sub s
  || match s with
     | EmptyString => false
     | String _ s' => contains sub s'
     end.

(** ** Concrete collaborators, for the examples *)

Module Sample.

Definition int_field (n : Node) (k : string) : option Z :=
  match node_metadata n !! k with
  | Some (VInt64 z) | Some (VInt z) => Some z
  | _ => None
  end.

(** "A node matches a filter when, for every key in the filter, the
    entity's value at that key satisfies the corresponding predicate";
    a regular expression is taken to match any string. *)
Fixpoint eval (f : Filter) (n : Node) : bool :=
  match f with
  | RegexFilter k _ => bool_decide (is_Some (GetFieldString (node_metadata n) k))
  | TermStringFilter k v => bool_decide (GetFieldString (node_metadata n) k = Some v)
  | TermInt64Filter k v => bool_decide (int_field n k = Some v)
  | LtInt64Filter k v => match int_field n k with Some x => x <? v | None => false end
  | GtInt64Filter k v => match int_field n k with Some x => v <? x | None => false end
  | LteInt64Filter k v => match int_field n k with Some x => x <=? v | None => false end
  | GteInt64Filter k v => match int_field n k with Some x => v <=? x | None => false end
  | NotFilter f => negb (eval f n)
  | AndFilter fs => forallb (fun f => eval f n) fs
  | OrFilter fs => existsb (fun f => eval f n) fs
  end.

(** A 64-bit hash of the strings and integers of a list of values. *)
Definition hash_string (s : string) (h : Z) : Z :=
  fold_left (fun h c => (h * 31 + Z.of_nat (Ascii.nat_of_ascii c)) mod 2 ^ 64)
    (String.list_ascii_of_string s) h.

Definition hash_value (h : Z) (v : Value) : Z :=
  match v with
  | VString s => hash_string s ((h * 31 + 1) mod 2 ^ 64)
  | VInt z | VInt64 z => (h * 31 + z) mod 2 ^ 64
  | _ => (h * 31) mod 2 ^ 64
  end.

Definition hash_values (vs : list Value) : Z := fold_left hash_value vs 7.

Definition externals : Externals := {|
  ToInt64 := fun p =>
    match p with
    | PInt z | PInt64 z => inl z
    | _ => inr "not an integer"
    end;
  ToFloat64 := fun z => inl (binary_normalize 53 1024 z 0 false);
  GetFieldInt64 := int_field;
  Filter_Eval := eval;
  MatchMetadata := fun e m => true;
  hashstructure_Hash := fun vs => (hash_values vs, None);
  fmt_v := fun _ => "[...]";
  fmt_s := fun _ => "%!s";
  (* Sat, 31 Oct 2026 00:00:00 UTC *)
  time_Now := 1793404800 * 1000000000
|}.

(** An expression is taken to be ill-formed when it is an opening
    parenthesis alone. *)
Definition regexplib : RegexpLib := {|
  regexp_syntax_error := fun expr =>
    if bool_decide (expr = "(")
    then Some "error parsing regexp: missing closing ): `(`"
    else None
|}.

Definition md (l : list (string * Value)) : Metadata := list_to_map l.

Definition host1 : Node :=
  mkNode "h1" "host-1" (md [("Type", VString "host"); ("Name", VString "host-1")]).
Definition host2 : Node :=
  mkNode "h2" "host-2" (md [("Type", VString "host"); ("Name", VString "host-2")]).
Definition br1 : Node :=
  mkNode "b1" "host-1" (md [("Type", VString "ovsbridge"); ("Name", VString "br-int")]).
Definition br2 : Node :=
  mkNode "b2" "host-1"
    (md [("Type", VString "ovsbridge"); ("Name", VString "br-ex");
         ("Capture/ID", VString "c-1")]).

Definition own1 : Edge :=
  mkEdge "e1" "h1" "b1" (md [("RelationType", VString "ownership")]).
Definition own2 : Edge :=
  mkEdge "e2" "h2" "b1" (md [("RelationType", VString "ownership")]).

(** A graph in which [br1] has the two parents [host1] and [host2], and
    from which the shortest path of [br1] to a host is [br1; host1]. *)
Definition graph : Graph := {|
  GetNode := fun id =>
    if bool_decide (id = "h1") then Some host1
    else if bool_decide (id = "h2") then Some host2
    else if bool_decide (id = "b1") then Some br1
    else None;
  GetNodes := fun _ => [host1; host2; br1];
  GetNodeEdges := fun n _ =>
    if bool_decide (node_ID n = "h1") then [own1]
    else if bool_decide (node_ID n = "h2") then [own2]
    else if bool_decide (node_ID n = "b1") then [own1; own2]
    else [];
  GetEdgeNodes := fun e _ _ =>
    if bool_decide (edge_ID e = "e1") then ([host1], [br1]) else ([host2], [br1]);
  LookupChildren := fun n _ _ =>
    if bool_decide (node_ID n = "h1") || bool_decide (node_ID n = "h2")
    then [br1] else [];
  LookupParents := fun n _ _ =>
    if bool_decide (node_ID n = "b1") then [host1; host2] else [];
  LookupShortestPath := fun n _ _ =>
    if bool_decide (node_ID n = "b1") then [br1; host1] else [];
  WithContext := fun _ => inr "no historical backend"
|}.

Definition range (from to : Z) : GraphTraversal :=
  mkGraphTraversal (Some graph) None (mkGraphStepContext (Some (from, to))).

End Sample.

(** The arguments of [Context(at [, duration])]. *)
Definition Context_args (at_ : Z) (duration : option Z) : list Param :=
  PTime at_ :: match duration with Some d => [PDuration d] | None => [] end.

(** An errored step holds no sequence: no nodes, edges or paths, and the
    nil value. *)
Definition holds_nothing (s : Step) : Prop :=
  match s with
  | SGraph _ => True
  | SV tv => tv_nodes tv = []
  | SE te => te_edges te = []
  | SPath sp => sp_paths sp = []
  | SValue t => val_value t = VNil
  end.

(** What [Values] gives on a step that holds nothing. *)
Definition empty_Values (s : Step) : list Result :=
  match s with
  | SGraph t => [RGraph (gt_Graph t)]
  | SValue _ => [RValue VNil]
  | _ => []
  end.

(** The node-step [Limit] reads its first argument before it looks at the
    error. *)
Definition Limit_without_argument (c : Call) (s : Step) : Prop :=
  c = CLimit [] /\ exists tv, s = SV tv.

(** Every step that carries an error holds nothing. *)
Definition Step_wf (s : Step) : Prop :=
  Step_Error s = None \/ holds_nothing s.

(** *** The outputs of the [Dedup] loops, as functions of their inputs *)

(** The key under which the node [Dedup] looks a node up, and whether the
    hash failed; [None] when a field is missing. *)
Definition Dedup_key `{Externals} (keys : list string) (n : Node)
  : option (MapKey * bool) :=
  match keys with
  | [] => Some (KIdentifier (node_ID n), false)
  | _ =>
      match Dedup_values n keys with
      | None => None
      | Some values =>
          let '(h, err) := hashstructure_Hash values in
          Some (KUint64 h, bool_decide (err <> None))
      end
  end.

(** The nodes the loop of the node [Dedup] appends when no range is set. *)
Fixpoint Dedup_unbounded `{Externals} (keys : list string)
  (visited : list MapKey) (l : list Node) : list Node :=
  match l with
  | [] => []
  | n :: l' =>
      match Dedup_key keys n with
      | None => Dedup_unbounded keys visited l'
      | Some (k, skip) =>
          if existsb (MapKey_eqb k) visited then Dedup_unbounded keys visited l'
          else n :: Dedup_unbounded keys (if skip then visited else k :: visited) l'
      end
  end.

(** The key under which the edge [Dedup] looks an edge up. *)
Definition Edge_Dedup_key (key : string) (e : Edge) : MapKey :=
  if bool_decide (key <> "") then
    match edge_metadata e !! key with
    | Some v => KValue v
    | None => KIdentifier (edge_ID e)
    end
  else KIdentifier (edge_ID e).

(** The edges the loop of the edge [Dedup] appends, or its panic. *)
Fixpoint Edge_Dedup_out (key : string) (visited : list MapKey) (l : list Edge)
  : Go (list Edge) :=
  match l with
  | [] => Ok []
  | e :: l' =>
      let k := Edge_Dedup_key key e in
      if hashable k then
        if existsb (MapKey_eqb k) visited then Edge_Dedup_out key visited l'
        else cons e <$> Edge_Dedup_out key (k :: visited) l'
      else Panic "runtime error: hash of unhashable type"
  end.

(** No pagination range is set on the traversal a step belongs to. *)
Definition no_range (gt : option GraphTraversal) : Prop :=
  forall t, gt = Some t -> PaginationRange (currentStepContext t) = None.

Module SampleSteps.

(** A traversal of the sample graph with no pagination range. *)
Definition g : GraphTraversal := NewGraphTraversal (Some Sample.graph).

(** A node step in which [br1] comes twice. *)
Definition nodes_twice : GraphTraversalV :=
  mkGraphTraversalV (Some g) [Sample.br1; Sample.host1; Sample.br1] None.

(** An edge step in which [own1] comes twice. *)
Definition edges_twice : GraphTraversalE :=
  mkGraphTraversalE (Some g) [Sample.own1; Sample.own1; Sample.own2] None.

End SampleSteps.

Module SampleClient.

Definition query : string := "G.V().Has('Type','ovsbridge')".

(** The capture of the scenarios: it targets the bridges. *)
Definition capture : Capture := mkCapture "c-1" query "".

(** Every delivery succeeds; the query of [capture] resolves to [br2],
    which carries [Capture/ID] already, and then [br1], which does not. *)
Definition env : ClientEnv := {|
  SendWSMessageTo := fun _ _ => true;
  ExecuteGremlinQuery := fun q =>
    if bool_decide (q = query)
    then inl (SV (mkGraphTraversalV (Some SampleSteps.g)
                    [Sample.br2; Sample.br1] None))
    else inr "parse error"
|}.

Definition master : OnDemandProbeClient := mkOnDemandProbeClient ∅ true.
Definition not_master : OnDemandProbeClient := mkOnDemandProbeClient ∅ false.

Definition CaptureStart (n : Node) : Effect :=
  ESendWSMessageTo
    (NewWSMessage Namespace "CaptureStart"
       (ObjCaptureQuery (mkCaptureQuery (node_ID n) capture)))
    (Host n).

Definition CaptureAdded : Effect :=
  EBroadcastWSMessage (NewWSMessage Namespace "CaptureAdded" (ObjCapture capture)).

End SampleClient.

(** The broadcast a watcher event makes, whoever the leader is. *)
Definition watcher_broadcast (action : string) (capture : Capture) : list Effect :=
  if bool_decide (action ∈ ["init"; "create"; "set"; "update"]) then
    [EBroadcastWSMessage (NewWSMessage Namespace "CaptureAdded" (ObjCapture capture))]
  else if bool_decide (action ∈ ["expire"; "delete"]) then
    [EBroadcastWSMessage (NewWSMessage Namespace "CaptureDeleted" (ObjCapture capture))]
  else [].

(** The TID of a network namespace: UUIDv5 in the OID namespace of the host
    identifier followed by the path and by "netns". *)
Definition netns_TID `{UUIDLib} (host path : Identifier) : string :=
  uuid_NewV5 NamespaceOID (host +:+ path +:+ "netns").

(** The TID a node has in the graph of the mapper. *)
Definition TID_of (t : TIDMapper) (n : Identifier) : option string :=
  GetFieldString (Node_Metadata (tm_Graph t) n) "TID".

Module SampleMapper.

(** A UUID is written as the text it was made from. *)
Definition uuidlib : UUIDLib := {|
  uuid_NewV5 := fun ns name => "uuid5(" +:+ ns +:+ "," +:+ name +:+ ")"
|}.

Definition own (id parent child : Identifier) : Edge :=
  mkEdge id parent child (Sample.md [("RelationType", VString "ownership")]).

(** Two hosts with their TIDs, a namespace owned by the first, and a
    bridge with an ownership edge from each host. *)
Definition store : Store := {|
  st_nodes := list_to_map
    [("host-1", Sample.md [("Type", VString "host"); ("Name", VString "host-1");
                           ("TID", VString "host-1")]);
     ("host-2", Sample.md [("Type", VString "host"); ("Name", VString "host-2");
                           ("TID", VString "host-2")]);
     ("ns", Sample.md [("Type", VString "netns"); ("Name", VString "x");
                       ("Path", VString "/var/run/netns/x")]);
     ("b1", Sample.md [("Type", VString "ovsbridge"); ("Name", VString "br-int")])];
  st_edges := [own "e0" "host-1" "ns"; own "e1" "host-1" "b1"; own "e2" "host-2" "b1"]
|}.

(** The mapper after it has seen [host-1]. *)
Definition mapper : TIDMapper := mkTIDMapper store "host-1" [].

End SampleMapper.

(** The mapper once [AddMetadata(n, "TID", tid)] is done. *)
Definition assign_TID (t : TIDMapper) (n : Identifier) (tid : string) : TIDMapper :=
  set_graph t (AddMetadata (tm_Graph t) n "TID" (VString tid)).

(** A node event reaches the [netns] case with a path: the node has no TID
    yet, it is a [netns], and its [Path] is the non-empty string [path]. *)
Definition netns_event (t : TIDMapper) (n : Identifier) (path : string) : Prop :=
  TID_of t n = None /\
  GetFieldString (Node_Metadata (tm_Graph t) n) "Type" = Some "netns" /\
  GetFieldString (Node_Metadata (tm_Graph t) n) "Path" = Some path /\
  path <> "".

(** A node event reaches the last case of the switch, and not the fabric
    probe: the node has no TID yet, its type is none of [host], [netns] and
    [ovsport], and its [Probe] is not [fabric]. *)
Definition other_event (t : TIDMapper) (n : Identifier) : Prop :=
  TID_of t n = None /\
  (exists tp, GetFieldString (Node_Metadata (tm_Graph t) n) "Type" = Some tp /\
              tp <> "host" /\ tp <> "netns" /\ tp <> "ovsport") /\
  GetFieldString_ (Node_Metadata (tm_Graph t) n) "Probe" <> "fabric".

(** The line of log of a node with several ownership parents. *)
Definition ownership_violation (n : Identifier) : string :=
  "A should always only have one ownership parent: " +:+ n.

(** The elements of [l] whose running index, counted from [a], falls in
    [[from, to)]. *)
Fixpoint admitted {A : Type} (from to a : Z) (l : list A) : list A :=
  match l with
  | [] => []
  | x :: l' =>
      if (from <=? a) && (a <? to)
      then x :: admitted from to (a + 1) l'
      else admitted from to (a + 1) l'
  end.

(** The nodes a result stands for: itself, or the nodes of a path. *)
Definition nodes_of (i : Result) : list Node :=
  match i with
  | RNode node => [node]
  | RPath nodes => nodes
  | _ => []
  end.

(** A probe is bound to the node already: it carries a string under
    [Capture/ID]. *)
Definition bound (node : Node) : bool :=
  bool_decide (is_Some (GetFieldString (node_metadata node) "Capture/ID")).

(** The nodes that come before the first bound one. *)
Fixpoint before_bound (l : list Node) : list Node :=
  match l with
  | [] => []
  | node :: l' => if bound node then [] else node :: before_bound l'
  end.

(** The [CaptureStart] message of a node. *)
Definition CaptureStart_to (capture : Capture) (node : Node) : Effect :=
  ESendWSMessageTo
    (NewWSMessage Namespace "CaptureStart"
       (ObjCaptureQuery (mkCaptureQuery (node_ID node) capture)))
    (Host node).

(** A loop [run x] counts the elements [items x] under the range
    [[from, to)]: started with the count at [a], it appends the admitted
    ones and leaves the count advanced by their number, or past the end of
    the range. *)
Definition counts {X A : Type} (from to : Z)
  (run : X -> Iterator * list A -> Go (Ctl (Iterator * list A)))
  (items : X -> list A) : Prop :=
  forall x a acc,
    exists c a',
      run x (mkIterator a (Some (from, to)), acc) = Ok c /\
      ctl_state c =
        (mkIterator a' (Some (from, to)), acc ++ admitted from to a (items x)) /\
      match c with
      | Continue _ =>
          a' = a + Z.of_nat (length (items x)) \/
          to <= a' <= a + Z.of_nat (length (items x))
      | Break _ => to <= a' <= a + Z.of_nat (length (items x))
      end.

(** The metadata binds the key ([_, ok := m[k]]). *)
Definition has_key (md : Metadata) (k : string) : bool :=
  match md !! k with
  | Some _ => true
  | None => false
  end.

(** The elements a step keeps of the list [l] of candidates: all of them
    when no range is set, the admitted ones under a range. *)
Definition kept {A : Type} (r : option GraphTraversalRange) (l : list A) : list A :=
  match r with
  | None => l
  | Some (from, to) => admitted from to 0 l
  end.

(** A loop [run x] lets the elements [items x] pass when no range is set:
    it appends them all and goes on. *)
Definition passes {X A : Type}
  (run : X -> Iterator * list A -> Go (Ctl (Iterator * list A)))
  (items : X -> list A) : Prop :=
  forall x a acc,
    run x (mkIterator a None, acc) =
    Ok (Continue (mkIterator (a + Z.of_nat (length (items x))) None,
                  acc ++ items x)).

(** A loop that paginates its elements: it counts them under every range
    and lets them pass without one. *)
Definition paginates {X A : Type}
  (run : X -> Iterator * list A -> Go (Ctl (Iterator * list A)))
  (items : X -> list A) : Prop :=
  (forall from to, counts from to run items) /\ passes run items.

(** The nodes [Both] reaches from the node [n] through the edge [e]: the
    parents of the edge when [n] is its child, its children otherwise, in
    both cases those that match the metadata. *)
Definition Both_neighbours (g : Graph) (metadata : MetadataMatch) (n : Node)
  (e : Edge) : list Node :=
  if bool_decide (GetChild e = node_ID n)
  then fst (GetEdgeNodes g e metadata ∅)
  else snd (GetEdgeNodes g e ∅ metadata).

(** The edges of which [n] is the child, among those [GetNodeEdges] gives. *)
Definition incoming_edges (g : Graph) (metadata : MetadataMatch) (n : Node)
  : list Edge :=
  List.filter (fun e => bool_decide (GetChild e = node_ID n))
    (GetNodeEdges g n metadata).

(** The traversal without its pagination range. *)
Definition without_range (t : GraphTraversal) : GraphTraversal :=
  mkGraphTraversal (gt_Graph t) (gt_error t) (mkGraphStepContext None).

(** The arguments [k1, v1, k2, v2, ...] of a step, keys and values being
    strings. *)
Definition string_pairs (kvs : list (string * string)) : list Param :=
  flat_map (fun kv => [PString (fst kv); PString (snd kv)]) kvs.

(** Modelled from the spec: what the integer filters mean for a field whose
    value is the integer [x] ([Filter.Eval] is in package [filters], not
    part of the sources): "[Lt/Gt/Lte/Gte(v)] -> numeric comparison", a
    term filter is equality, [AndFilter] holds when all its filters hold,
    [OrFilter] when one does, [NotFilter] when its filter does not; the
    filters on strings do not hold for an integer. *)
Fixpoint Filter_holds (f : Filter) (x : Z) : bool :=
  match f with
  | RegexFilter _ _ | TermStringFilter _ _ => false
  | TermInt64Filter _ v => x =? v
  | LtInt64Filter _ v => x <? v
  | GtInt64Filter _ v => v <? x
  | LteInt64Filter _ v => x <=? v
  | GteInt64Filter _ v => v <=? x
  | NotFilter f => negb (Filter_holds f x)
  | AndFilter fs => forallb (fun f => Filter_holds f x) fs
  | OrFilter fs => existsb (fun f => Filter_holds f x) fs
  end.

(** ** Paths and hosts ([topology/topology.go]) *)

(** [type NodePath []*graph.Node]. *)
Definition NodePath : Type := list Node.

(** [metadata[key]]: the nil interface when the key is not there. *)
Definition Metadata_at (md : Metadata) (key : string) : Value :=
  default VNil (md !! key).

Definition is_nil (v : Value) : bool :=
  match v with VNil => true | _ => false end.

(** [v.(string)] *)
Definition assert_string (v : Value) : Go string :=
  match v with
  | VString s => Ok s
  | _ => Panic "interface conversion: interface {} is not string"
  end.

(** The body of the loop of [Marshal]; [Break] stands for [return ""]. *)
Definition Marshal_body (node : Node) (path : string) : Go (Ctl string) :=
  let path := if (0 <? String.length path)%nat then path +:+ "/" else path in
  let metadata := node_metadata node in
  let n := Metadata_at metadata "Name" in
  let t := Metadata_at metadata "Type" in
  if is_nil n || is_nil t then Ok (Break "")
  else
    n ← assert_string n;
    t ← assert_string t;
    Ok (Continue (path +:+ (n +:+ "[Type=" +:+ t +:+ "]"))).

(** The loop runs from the last node of the path to the first. *)
Definition NodePath_Marshal (p : NodePath) : Go string :=
  ctl_state <$> for_rangeM Marshal_body (rev p) "".

Definition host_metadata : MetadataMatch :=
  {["Type" := MValue (VString "host")]}.
Definition ownership_metadata : MetadataMatch :=
  {["RelationType" := MValue (VString "ownership")]}.

Definition GraphPath (g : Graph) (n : Node) : Go string :=
  let nodes := LookupShortestPath g n host_metadata ownership_metadata in
  if (0 <? length nodes)%nat then NodePath_Marshal nodes else Ok "".

(** What [NewNetNSContextByNode] returns: an error, [(nil, nil)], or what
    [common.NewNetNsContext(path)] returns for the path it is given. *)
Inductive NetNSContext : Type :=
| NetNS_error (msg : string)
| NetNS_none
| NetNS_enter (path : string).

Section Topology.

(** [%v] of a node. *)
Variable fmt_node : Node -> string.

(** The body of the loop of [NewNetNSContextByNode]: the state is the
    node [n] of the call, [Break] stands for [return]. *)
Definition NewNetNSContextByNode_body (n : Node) (node : Node)
  (st : NetNSContext) : Ctl NetNSContext :=
  let tp := GetFieldString_ (node_metadata node) "Type" in
  if bool_decide (tp = "") then
    Break (NetNS_error ("No Type for node " +:+ fmt_node n))
  else if bool_decide (tp = "netns") then
    let name := GetFieldString_ (node_metadata node) "Name" in
    if bool_decide (name = "") then
      Break (NetNS_error ("No Name for node " +:+ fmt_node node))
    else
      let path := GetFieldString_ (node_metadata node) "Path" in
      if bool_decide (path = "") then
        Break (NetNS_error ("No Path for node " +:+ fmt_node node))
      else Break (NetNS_enter path)
  else Continue st.

Definition NewNetNSContextByNode (g : Graph) (n : Node) : NetNSContext :=
  let name := GetFieldString_ (node_metadata n) "Name" in
  if bool_decide (name = "") then
    NetNS_error ("No Name for node " +:+ fmt_node n)
  else
    let nodes := LookupShortestPath g n host_metadata ownership_metadata in
    if (length nodes =? 0)%nat then
      NetNS_error ("Failed to determine probePath for " +:+ name)
    else
      ctl_state (for_range (NewNetNSContextByNode_body n) nodes NetNS_none).

End Topology.

(** [type HostNodeTIDMap map[string][]string]; a host that is not bound
    reads as the nil slice. *)
Abbreviation HostNodeTIDMap := (gmap string (list string)).

Definition BuildHostNodeTIDMap_body (hnmap : HostNodeTIDMap) (node : Node)
  : HostNodeTIDMap :=
  let tid := GetFieldString_ (node_metadata node) "TID" in
  if bool_decide (tid <> "")
  then <[Host node := default [] (hnmap !! Host node) ++ [tid]]> hnmap
  else hnmap.

Definition BuildHostNodeTIDMap (nodes : list Node) : HostNodeTIDMap :=
  fold_left BuildHostNodeTIDMap_body nodes ∅.

(** A node carries a string under [Name] and under [Type]. *)
Definition named (node : Node) : Prop :=
  is_Some (GetFieldString (node_metadata node) "Name") /\
  is_Some (GetFieldString (node_metadata node) "Type").

(** A node has no [Name] or no [Type]. *)
Definition unnamed (node : Node) : Prop :=
  Metadata_at (node_metadata node) "Name" = VNil \/
  Metadata_at (node_metadata node) "Type" = VNil.

(** The text of a node in a path. *)
Definition segment (node : Node) : string :=
  GetFieldString_ (node_metadata node) "Name" +:+ "[Type=" +:+
  GetFieldString_ (node_metadata node) "Type" +:+ "]".

(** The node has a type, which is not [netns]. *)
Definition outside_netns (node : Node) : Prop :=
  GetFieldString_ (node_metadata node) "Type" <> "" /\
  GetFieldString_ (node_metadata node) "Type" <> "netns".

(** The TIDs of the nodes of a host, in the order of the nodes. *)
Definition TIDs_of_host (host : string) (nodes : list Node) : list string :=
  map (fun node => GetFieldString_ (node_metadata node) "TID")
    (List.filter
       (fun node => bool_decide (Host node = host) &&
                    bool_decide (GetFieldString_ (node_metadata node) "TID" <> ""))
       nodes).

Module SampleTopology.

Definition ns : Node :=
  mkNode "ns" "host-1"
    (Sample.md [("Type", VString "netns"); ("Name", VString "x");
                ("Path", VString "/var/run/netns/x"); ("TID", VString "t-ns")]).
Definition eth0 : Node :=
  mkNode "eth0" "host-1"
    (Sample.md [("Type", VString "veth"); ("Name", VString "eth0");
                ("TID", VString "t-eth0")]).
Definition host : Node :=
  mkNode "h1" "host-1"
    (Sample.md [("Type", VString "host"); ("Name", VString "host-1");
                ("TID", VString "h1")]).
Definition anonymous : Node :=
  mkNode "a" "host-2" (Sample.md [("Type", VString "device")]).
Definition numbered : Node :=
  mkNode "n" "host-2" (Sample.md [("Type", VString "device"); ("Name", VInt 7)]).

(** The shortest path of [eth0] to its host goes through the namespace. *)
Definition graph : Graph := {|
  GetNode := fun _ => None;
  GetNodes := fun _ => [eth0; ns; host];
  GetNodeEdges := fun _ _ => [];
  GetEdgeNodes := fun _ _ _ => ([], []);
  LookupChildren := fun _ _ _ => [];
  LookupParents := fun _ _ _ => [];
  LookupShortestPath := fun n _ _ =>
    if bool_decide (node_ID n = "eth0") then [eth0; ns; host] else [];
  WithContext := fun _ => inr "no historical backend"
|}.

End SampleTopology.
(** The TID of a node below another: UUIDv5 in the OID namespace of the
    TID of the parent followed by the name and by the type of the node. *)
Definition child_TID `{UUIDLib} (tid name tp : string) : string :=
  uuid_NewV5 NamespaceOID (tid +:+ name +:+ tp).

(** What a handler of the mapper may do to its state [t], giving [t']: the
    edges and the set of nodes stay, no key other than [TID] is written, a
    TID that is there is not taken away, and the log only grows. *)
Definition writes_TID_only (t t' : TIDMapper) : Prop :=
  st_edges (tm_Graph t') = st_edges (tm_Graph t) /\
  (forall m, node_exists (tm_Graph t') m = node_exists (tm_Graph t) m) /\
  (forall m k, k <> "TID" ->
               Node_Metadata (tm_Graph t') m !! k =
               Node_Metadata (tm_Graph t) m !! k) /\
  (forall m, is_Some (TID_of t m) -> is_Some (TID_of t' m)) /\
  tm_errors t `prefix_of` tm_errors t'.

(** A node event reaches the [host] case: the node has no TID yet and its
    type is [host]. *)
Definition host_event (t : TIDMapper) (n : Identifier) : Prop :=
  TID_of t n = None /\
  GetFieldString (Node_Metadata (tm_Graph t) n) "Type" = Some "host".

Module SampleBoot.

(** A host that has not been seen yet, with an interface and a port; the
    interface has a TID of an earlier run. *)
Definition store : Store := {|
  st_nodes := list_to_map
    [("h", Sample.md [("Type", VString "host"); ("Name", VString "node-1")]);
     ("p", Sample.md [("Type", VString "veth"); ("Name", VString "eth0")]);
     ("q", Sample.md [("Type", VString "ovsport"); ("Name", VString "tap0");
                      ("UUID", VString "u-1"); ("TID", VString "old")])];
  st_edges := [SampleMapper.own "e" "h" "p"; SampleMapper.own "f" "h" "q"]
|}.

Definition mapper : TIDMapper := NewTIDMapper store.

End SampleBoot.
(** The mapper of [SampleBoot] once the host has its TID. *)
Definition SampleBoot_seen : TIDMapper :=
  mkTIDMapper (AddMetadata SampleBoot.store "h" "TID" (VString "h")) "h" [].
(** The nodes of the values that come before the first value that is
    neither a node nor a path. *)
Fixpoint before_other (l : list Result) : list Node :=
  match l with
  | RNode node :: l' => node :: before_other l'
  | RPath nodes :: l' => nodes ++ before_other l'
  | _ => []
  end.

(** The [CaptureStop] message of a node: it names the node and carries the
    zero capture. *)
Definition CaptureStop_to (node : Node) : Effect :=
  ESendWSMessageTo
    (NewWSMessage Namespace "CaptureStop"
       (ObjCaptureQuery (mkCaptureQuery (node_ID node) Capture_zero)))
    (Host node).

(** The nodes the query of a capture resolves to. *)
Definition targets `{ClientEnv} (capture : Capture) : list Node :=
  flat_map nodes_of (fst (applyGremlinExpr (GremlinQuery capture))).

(** A [CaptureStart] of a capture the client knows, for a node of its
    query that comes before the first bound one. *)
Definition starts_a_known_capture `{ClientEnv} (o : OnDemandProbeClient)
  (ef : Effect) : Prop :=
  exists k capture node,
    captures o !! k = Some capture /\
    node ∈ before_bound (targets capture) /\
    ef = CaptureStart_to capture node.
Module SampleStart.

(** The query of the capture resolves to [br1], not bound, and then to
    [br2], bound; no delivery succeeds. *)
Definition env : ClientEnv := {|
  SendWSMessageTo := fun _ _ => false;
  ExecuteGremlinQuery := fun q =>
    if bool_decide (q = SampleClient.query)
    then inl (SV (mkGraphTraversalV (Some SampleSteps.g)
                    [Sample.br1; Sample.br2] None))
    else inr "parse error"
|}.

End SampleStart.

(** The value is the string [key]. *)
Definition is_key (key : string) (v : Value) : bool :=
  match v with
  | VString s => bool_decide (s = key)
  | _ => false
  end.

(** The slice a value step holds; no element when it holds a scalar. *)
Definition slice_of (t : GraphTraversalValue) : list Value :=
  match val_value t with
  | VSlice v => v
  | _ => []
  end.

(** The step with other nodes. *)
Definition with_nodes (tv : GraphTraversalV) (nodes : list Node) : GraphTraversalV :=
  mkGraphTraversalV (tv_GraphTraversal tv) nodes (tv_error tv).
(** The node has an integer under [key] ([GetFieldInt64] gives no error). *)
Definition has_integer `{Externals} (key : string) (n : Node) : bool :=
  match GetFieldInt64 n key with
  | Some _ => true
  | None => false
  end.
(** * Properties *)

(** ** The regular-expression matcher *)

(** C10. For every string [expr], [Regex expr] is a matcher (the function is
    total and has no error result) that keeps [expr] as its pattern; when
    [expr] does not compile the error of the compilation is dropped and the
    compiled pattern of the matcher is nil. *)
Theorem Regex_discards_compile_error `{RegexpLib} (expr : string) :
  pattern (Regex expr) = expr /\
  regexp (Regex expr) = fst (regexp_Compile expr) /\
  regexp (Regex expr) =
    match regexp_syntax_error expr with
    | Some _ => None
    | None => Some (mkRegexp expr)
    end.
Proof.
  unfold Regex, regexp_Compile.
  destruct (regexp_syntax_error expr); simpl; auto.
Qed.

Example Regex_invalid :
  @Regex Sample.regexplib "(" = mkRegexMetadataMatcher None "(".
Proof. reflexivity. Qed.

Example Regex_valid :
  @Regex Sample.regexplib "eth[0-9]+" =
  mkRegexMetadataMatcher (Some (mkRegexp "eth[0-9]+")) "eth[0-9]+".
Proof. reflexivity. Qed.

(** ** Time-sliced traversals *)

(** C4. On a traversal that carries no error, [Context] called with an
    instant strictly after the current time returns a traversal whose error
    is "Sorry, I can't predict the future", which contains "future", and
    whose graph is nil: no time-sliced graph was asked for. *)
Theorem Context_rejects_the_future `{Externals} (t : GraphTraversal) (at_ : Z)
  (duration : option Z) :
  gt_error t = None ->
  time_Now < at_ ->
  exists t' msg,
    Context t (Context_args at_ duration) = Ok t' /\
    gt_error t' = Some msg /\
    contains "future" msg = true /\
    gt_Graph t' = None.
Proof.
  intros Herr Hlt.
  exists (errGT "Sorry, I can't predict the future"), "Sorry, I can't predict the future".
  split; [|split; [reflexivity|split; reflexivity]].
  unfold Context. rewrite Herr.
  assert (Hafter : Time_After at_ time_Now = true) by (apply Z.ltb_lt; exact Hlt).
  destruct duration; simpl; rewrite Hafter; reflexivity.
Qed.

Lemma Context_rejects_the_future_witness :
  exists t' msg,
    @Context Sample.externals (NewGraphTraversal (Some Sample.graph))
      (Context_args (1793404800 * 1000000000 + 3600 * 1000000000) None) = Ok t' /\
    gt_error t' = Some msg /\
    contains "future" msg = true /\
    gt_Graph t' = None.
Proof.
  apply (@Context_rejects_the_future Sample.externals
           (NewGraphTraversal (Some Sample.graph))
           (1793404800 * 1000000000 + 3600 * 1000000000) None).
  - reflexivity.
  - simpl. lia.
Defined.

(** ** Sticky errors *)

Lemma holds_nothing_Values (s : Step) :
  holds_nothing s -> Step_Values s = empty_Values s.
Proof.
  destruct s as [t|tv|te|sp|t]; simpl; intros Hn; try reflexivity.
  - unfold GraphTraversalV_Values. now rewrite Hn.
  - unfold GraphTraversalE_Values. now rewrite Hn.
  - unfold GraphTraversalShortestPath_Values. now rewrite Hn.
  - unfold GraphTraversalValue_Values. now rewrite Hn.
Qed.

Lemma error_only_holds_nothing (e : string) (s : Step) :
  error_only e s -> holds_nothing s /\ Step_Error s = Some e.
Proof.
  intros [->|[->|[->|[->| ->]]]]; split; reflexivity.
Qed.

(** A step applied to an errored step gives the receiver or a step that
    holds the error only. *)
Lemma error_propagation `{Externals} (s : Step) (e : string) (c : Call)
  (r : Go Step) :
  Step_Error s = Some e ->
  apply c s = Some r ->
  ~ Limit_without_argument c s ->
  exists s',
    r = Ok s' /\
    Step_Error s' = Some e /\
    (s' = s \/ error_only e s') /\
    (holds_nothing s -> holds_nothing s' /\ Step_Values s' = empty_Values s').
Proof.
  intros He Hr Hlim.
  assert (Hgoal : exists s', r = Ok s' /\ (s' = s \/ error_only e s')).
  { destruct s as [t|tv|te|sp|t];
      destruct c as [a|a|a|a|a|a|m0 e0|a|a|a|a|a|a|a|a|a|a|a]; simpl in He, Hr;
      try discriminate Hr; injection Hr as <-.
    all: unfold Context, V, PropertyValues, PropertyKeys, Sum,
           GraphTraversalV_Dedup, ShortestPathTo, GraphTraversalV_Has, Both,
           GraphTraversalV_Count, GraphTraversalV_Range, GraphTraversalV_Limit,
           Out, OutE, In_, InE, GraphTraversalE_Count, GraphTraversalE_Range,
           GraphTraversalE_Limit, GraphTraversalE_Dedup, GraphTraversalE_Has,
           InV, OutV, GraphTraversalValue_Dedup,
           GraphTraversal_Error, GraphTraversalV_Error, GraphTraversalE_Error,
           GraphTraversalValue_Error in *.
    all: try (rewrite He; simpl; eexists; split; [reflexivity|];
              first [left; reflexivity | right; unfold error_only; tauto]).
    (* the node-step Limit *)
    destruct a as [|s0 rest].
    - exfalso. apply Hlim. split; [reflexivity|]. eexists; reflexivity.
    - simpl. unfold GraphTraversalV_Range. rewrite He. simpl.
      eexists; split; [reflexivity|]. right; unfold error_only; tauto. }
  destruct Hgoal as (s' & -> & Hs').
  exists s'. split; [reflexivity|].
  destruct Hs' as [->|Honly].
  - split; [exact He|]. split; [now left|].
    intros Hn. split; [exact Hn|]. now apply holds_nothing_Values.
  - destruct (error_only_holds_nothing _ _ Honly) as [Hn' He'].
    split; [exact He'|]. split; [now right|].
    intros _. split; [exact Hn'|]. now apply holds_nothing_Values.
Qed.

(** C3, as the code has it. A step applied to a step that carries an error
    [e] (a node-step [Limit] called without argument apart) returns a step
    that carries [e]: the receiver itself or a fresh step that holds the
    error and nothing else, so that no graph operation enters the result.
    [Values] does not look at the error: when the errored step holds no
    sequence, [Values] of the result is empty for a node, edge or path step,
    but it is the one-element sequence of the nil value for a value step and
    the one-element sequence of the graph for a graph traversal. *)
Theorem errors_are_sticky `{Externals} (s : Step) (e : string) (c : Call)
  (r : Go Step) :
  Step_Error s = Some e ->
  apply c s = Some r ->
  ~ Limit_without_argument c s ->
  exists s',
    r = Ok s' /\
    Step_Error s' = Some e /\
    (s' = s \/ error_only e s') /\
    (holds_nothing s -> holds_nothing s' /\ Step_Values s' = empty_Values s').
Proof. exact (error_propagation s e c r). Qed.

Lemma errors_are_sticky_witness :
  Step_Error (SV (errV "boom")) = Some "boom" /\
  exists s',
    Ok (SValue (errValue "boom")) = Ok s' /\
    Step_Error s' = Some "boom" /\
    (s' = SV (errV "boom") \/ error_only "boom" s') /\
    (holds_nothing (SV (errV "boom")) ->
     holds_nothing s' /\ Step_Values s' = empty_Values s').
Proof.
  split; [reflexivity|].
  apply (@errors_are_sticky Sample.externals (SV (errV "boom")) "boom"
           (CCount []) (Ok (SValue (errValue "boom")))).
  - reflexivity.
  - reflexivity.
  - intros [Hc _]. discriminate Hc.
Defined.

(** C3 as stated fails on a value step: [V] refuses its argument, [Count]
    passes the error on, and [Values] of the errored result is the sequence
    of one nil value, not the empty sequence. *)
Lemma Values_of_an_errored_value_step :
  exists tv s',
    @V Sample.externals (NewGraphTraversal (Some Sample.graph)) [PInt64 5] = Ok tv /\
    tv_error tv = Some "V accepts only a string when there is only one argument" /\
    @apply Sample.externals (CCount []) (SV tv) = Some (Ok s') /\
    Step_Error s' = tv_error tv /\
    Step_Values s' = [RValue VNil] /\
    Step_Values s' <> [].
Proof.
  eexists; eexists.
  split; [reflexivity|]. split; [reflexivity|]. split; [reflexivity|].
  split; [reflexivity|]. split; [reflexivity|]. discriminate.
Qed.

Ltac unfold_steps :=
  unfold Context, V, PropertyValues, PropertyKeys, Sum,
    GraphTraversalV_Dedup, ShortestPathTo, GraphTraversalV_Has,
    GraphTraversalV_hasKey, Both,
    GraphTraversalV_Count, GraphTraversalV_Range, GraphTraversalV_Limit,
    Out, OutE, In_, InE, GraphTraversalE_Count, GraphTraversalE_Range,
    GraphTraversalE_Limit, GraphTraversalE_Dedup, GraphTraversalE_Has,
    GraphTraversalE_hasKey, InV, OutV, GraphTraversalValue_Dedup,
    GraphTraversal_Error, GraphTraversalV_Error, GraphTraversalE_Error,
    GraphTraversalShortestPath_Error, GraphTraversalValue_Error,
    string_arg, deref, mbind, Go_bind, fmap, Go_fmap in *.

(** The steps keep the errored steps empty: a step built by the engine
    either carries no error or holds nothing. *)
Lemma steps_keep_errored_steps_empty `{Externals} (s s' : Step) (c : Call) :
  Step_wf s -> apply c s = Some (Ok s') -> Step_wf s'.
Proof.
  intros Hwf Happ.
  destruct (Step_Error s) as [e|] eqn:He.
  - destruct Hwf as [Hnone|Hn]; [congruence|].
    assert (Hl : ~ Limit_without_argument c s).
    { intros [-> [tv ->]]. simpl in Happ. discriminate Happ. }
    destruct (error_propagation s e c (Ok s') He Happ Hl) as (s2 & Heq & _ & _ & Hk).
    injection Heq as <-. right. now apply Hk.
  - clear Hwf.
    destruct s as [t|tv|te|sp|t];
      destruct c as [a|a|a|a|a|a|m0 e0|a|a|a|a|a|a|a|a|a|a|a]; simpl in He, Happ;
      try discriminate Happ; injection Happ as Happ.
    all: unfold_steps; try rewrite He in Happ.
    all: unfold GraphTraversalE_Range, GraphTraversalV_Range in Happ;
      unfold_steps; try rewrite He in Happ.
    all: repeat case_match; simplify_eq; simpl;
      first [left; reflexivity | right; reflexivity].
Qed.

(** ** Dedup *)

Section DedupIdempotence.

Context `{Externals}.

Lemma Dedup_key_hashable (keys : list string) (n : Node) (k : MapKey)
  (skip : bool) :
  Dedup_key keys n = Some (k, skip) -> hashable k = true.
Proof.
  unfold Dedup_key. destruct keys as [|key keys'].
  - intros [= <- _]. reflexivity.
  - destruct (Dedup_values n (key :: keys')); [|discriminate].
    destruct (hashstructure_Hash l) as [h err]. intros [= <- _]. reflexivity.
Qed.

Lemma Dedup_body_unbounded (keys : list string) (n : Node) (st : DedupState) :
  it_bounds (ds_it st) = None ->
  exists it',
    it_bounds it' = None /\
    GraphTraversalV_Dedup_body keys n st =
    Ok (Continue
          match Dedup_key keys n with
          | None => st
          | Some (k, skip) =>
              if existsb (MapKey_eqb k) (ds_visited st) then st
              else mkDedupState it'
                     (if skip then ds_visited st else k :: ds_visited st)
                     (ds_nodes st ++ [n])
          end).
Proof.
  intros Hb.
  exists (mkIterator (it_at (ds_it st) + 1) None). split; [reflexivity|].
  unfold GraphTraversalV_Dedup_body, Done. rewrite Hb.
  pose proof (Dedup_key_hashable keys n) as Hh.
  assert (Hgen : forall k skip, hashable k = true ->
    GraphTraversalV_Dedup_visit n st k skip =
    Ok (Continue
          (if existsb (MapKey_eqb k) (ds_visited st) then st
           else mkDedupState (mkIterator (it_at (ds_it st) + 1) None)
                  (if skip then ds_visited st else k :: ds_visited st)
                  (ds_nodes st ++ [n])))).
  { intros k skip Hk. unfold GraphTraversalV_Dedup_visit, visited_lookup.
    rewrite Hk. destruct (existsb (MapKey_eqb k) (ds_visited st)); [reflexivity|].
    unfold Next. rewrite Hb. simpl. destruct skip; reflexivity. }
  unfold Dedup_key in *. destruct keys as [|key keys'].
  - apply Hgen. reflexivity.
  - destruct (Dedup_values n (key :: keys')) as [values|]; [|reflexivity].
    destruct (hashstructure_Hash values) as [h err]. apply Hgen. reflexivity.
Qed.

Lemma Dedup_loop_unbounded (keys : list string) (l : list Node) :
  forall st, it_bounds (ds_it st) = None ->
  exists st',
    for_rangeM (GraphTraversalV_Dedup_body keys) l st = Ok (Continue st') /\
    ds_nodes st' = ds_nodes st ++ Dedup_unbounded keys (ds_visited st) l.
Proof.
  induction l as [|n l IH]; intros st Hb; simpl.
  - exists st. split; [reflexivity|]. now rewrite app_nil_r.
  - destruct (Dedup_body_unbounded keys n st Hb) as (it' & Hb' & ->).
    unfold mbind, Go_bind.
    destruct (Dedup_key keys n) as [[k skip]|].
    + destruct (existsb (MapKey_eqb k) (ds_visited st)).
      * apply IH, Hb.
      * destruct (IH (mkDedupState it'
                        (if skip then ds_visited st else k :: ds_visited st)
                        (ds_nodes st ++ [n])) Hb') as (st' & -> & Hn).
        exists st'. split; [reflexivity|]. rewrite Hn. simpl.
        now rewrite <- app_assoc.
    + apply IH, Hb.
Qed.

Lemma Dedup_unbounded_idempotent (keys : list string) (l : list Node) :
  forall visited,
    Dedup_unbounded keys visited (Dedup_unbounded keys visited l) =
    Dedup_unbounded keys visited l.
Proof.
  induction l as [|n l IH]; intros visited; simpl; [reflexivity|].
  destruct (Dedup_key keys n) as [[k skip]|] eqn:Hk; [|apply IH].
  destruct (existsb (MapKey_eqb k) visited) eqn:Hv; [apply IH|].
  simpl. rewrite Hk, Hv. f_equal. apply IH.
Qed.

Lemma Edge_Dedup_body_eq (key : string) (e : Edge) (visited : list MapKey)
  (edges : list Edge) :
  GraphTraversalE_Dedup_body key e (visited, edges) =
  if hashable (Edge_Dedup_key key e) then
    Ok (Continue
          (if existsb (MapKey_eqb (Edge_Dedup_key key e)) visited
           then (visited, edges)
           else (Edge_Dedup_key key e :: visited, edges ++ [e])))
  else Panic "runtime error: hash of unhashable type".
Proof.
  unfold GraphTraversalE_Dedup_body. fold (Edge_Dedup_key key e).
  unfold visited_lookup, visited_insert.
  destruct (hashable (Edge_Dedup_key key e)); [|reflexivity].
  now destruct (existsb (MapKey_eqb (Edge_Dedup_key key e)) visited).
Qed.

Lemma Edge_Dedup_loop (key : string) (l : list Edge) :
  forall visited edges,
    match Edge_Dedup_out key visited l with
    | Ok out =>
        exists visited',
          for_rangeM (GraphTraversalE_Dedup_body key) l (visited, edges) =
          Ok (Continue (visited', edges ++ out))
    | Panic msg =>
        for_rangeM (GraphTraversalE_Dedup_body key) l (visited, edges) = Panic msg
    end.
Proof.
  induction l as [|e l IH]; intros visited edges;
    cbn [for_rangeM Edge_Dedup_out].
  - exists visited. now rewrite app_nil_r.
  - rewrite Edge_Dedup_body_eq. unfold mbind, Go_bind.
    destruct (hashable (Edge_Dedup_key key e)); [|reflexivity].
    destruct (existsb (MapKey_eqb (Edge_Dedup_key key e)) visited).
    + apply IH.
    + specialize (IH (Edge_Dedup_key key e :: visited) (edges ++ [e])).
      destruct (Edge_Dedup_out key (Edge_Dedup_key key e :: visited) l)
        as [out|msg]; simpl.
      * destruct IH as (visited' & ->). exists visited'.
        now rewrite <- app_assoc.
      * exact IH.
Qed.

Lemma Edge_Dedup_out_idempotent (key : string) (l : list Edge) :
  forall visited out,
    Edge_Dedup_out key visited l = Ok out ->
    Edge_Dedup_out key visited out = Ok out.
Proof.
  induction l as [|e l IH]; intros visited out; simpl.
  - intros [= <-]. reflexivity.
  - destruct (hashable (Edge_Dedup_key key e)) eqn:Hh; [|discriminate].
    destruct (existsb (MapKey_eqb (Edge_Dedup_key key e)) visited) eqn:Hv.
    + apply IH.
    + destruct (Edge_Dedup_out key (Edge_Dedup_key key e :: visited) l)
        as [out'|] eqn:Ho; [|discriminate].
      simpl. intros [= <-]. simpl. rewrite Hh, Hv.
      now rewrite (IH _ _ Ho).
Qed.

End DedupIdempotence.

(** C9. With no pagination range set, applying [Dedup] twice (same key
    arguments) to a node step gives what applying it once gives: the same
    step, hence the same output sequence, and the same panic or error when
    there is one.  The same holds for an edge step. *)
Theorem Dedup_is_idempotent `{Externals} (q : GraphTraversalV)
  (qe : GraphTraversalE) (s : list Param) :
  no_range (tv_GraphTraversal q) ->
  (GraphTraversalV_Dedup q s ≫= fun q' => GraphTraversalV_Dedup q' s) =
    GraphTraversalV_Dedup q s /\
  (GraphTraversalE_Dedup qe s ≫= fun q' => GraphTraversalE_Dedup q' s) =
    GraphTraversalE_Dedup qe s.
Proof.
  intros Hr. unfold mbind, Go_bind. split.
  - unfold GraphTraversalV_Dedup at 1 3.
    destruct (tv_error q) as [e|] eqn:He.
    { simpl. unfold GraphTraversalV_Dedup. now rewrite He. }
    destruct (Dedup_keys s []) as [keys|] eqn:Hk; [|reflexivity].
    destruct (tv_GraphTraversal q) as [gt|] eqn:Hgt; [|reflexivity].
    simpl. rewrite (Hr gt eq_refl).
    destruct (Dedup_loop_unbounded keys (tv_nodes q)
                (mkDedupState (Range_Iterator None) [] []) eq_refl)
      as (st1 & Hl1 & Hn1).
    rewrite Hl1. simpl in Hn1 |- *.
    unfold GraphTraversalV_Dedup. simpl. rewrite Hk. simpl.
    rewrite (Hr gt eq_refl).
    destruct (Dedup_loop_unbounded keys (ds_nodes st1)
                (mkDedupState (Range_Iterator None) [] []) eq_refl)
      as (st2 & Hl2 & Hn2).
    rewrite Hl2. simpl in Hn2 |- *.
    rewrite Hn2, Hn1. now rewrite Dedup_unbounded_idempotent.
  - unfold GraphTraversalE_Dedup at 1 3.
    destruct (te_error qe) as [e|] eqn:He.
    { simpl. unfold GraphTraversalE_Dedup. now rewrite He. }
    set (okey := match s with
                 | [] => Some ""
                 | PString k :: _ => Some k
                 | _ => None
                 end).
    assert (Hokey : okey = match s with
                           | [] => Some ""
                           | PString k :: _ => Some k
                           | _ => None
                           end) by reflexivity.
    destruct okey as [key|]; [|reflexivity].
    pose proof (Edge_Dedup_loop key (te_edges qe) [] []) as Hl1.
    destruct (Edge_Dedup_out key [] (te_edges qe)) as [out|msg] eqn:Ho.
    + destruct Hl1 as (v1 & ->). simpl.
      unfold GraphTraversalE_Dedup. simpl. rewrite <- Hokey.
      pose proof (Edge_Dedup_loop key out [] []) as Hl2.
      rewrite (Edge_Dedup_out_idempotent _ _ _ _ Ho) in Hl2.
      destruct Hl2 as (v2 & ->). reflexivity.
    + rewrite Hl1. reflexivity.
Qed.

Example Dedup_by_identifier :
  @GraphTraversalV_Dedup Sample.externals SampleSteps.nodes_twice [] =
  Ok (mkGraphTraversalV (Some SampleSteps.g) [Sample.br1; Sample.host1] None).
Proof. vm_compute. reflexivity. Qed.

Example Dedup_by_key :
  @GraphTraversalV_Dedup Sample.externals
    (mkGraphTraversalV (Some SampleSteps.g)
       [Sample.br1; Sample.host1; Sample.host2; Sample.br1] None)
    [PString "Type"] =
  Ok (mkGraphTraversalV (Some SampleSteps.g) [Sample.br1; Sample.host1] None).
Proof. vm_compute. reflexivity. Qed.

Example Dedup_edges_by_key :
  GraphTraversalE_Dedup SampleSteps.edges_twice
    [PString "RelationType"] =
  Ok (mkGraphTraversalE (Some SampleSteps.g) [Sample.own1] None).
Proof. vm_compute. reflexivity. Qed.

Lemma Dedup_is_idempotent_witness :
  no_range (tv_GraphTraversal SampleSteps.nodes_twice) /\
  (@GraphTraversalV_Dedup Sample.externals SampleSteps.nodes_twice [] ≫=
     fun q' => @GraphTraversalV_Dedup Sample.externals q' []) =
    @GraphTraversalV_Dedup Sample.externals SampleSteps.nodes_twice [] /\
  (GraphTraversalE_Dedup SampleSteps.edges_twice [] ≫=
     fun q' => GraphTraversalE_Dedup q' []) =
    GraphTraversalE_Dedup SampleSteps.edges_twice [].
Proof.
  assert (Hr : no_range (tv_GraphTraversal SampleSteps.nodes_twice)).
  { intros t Ht. injection Ht as <-. reflexivity. }
  split; [exact Hr|].
  exact (@Dedup_is_idempotent Sample.externals SampleSteps.nodes_twice
           SampleSteps.edges_twice [] Hr).
Defined.

(** ** Shortest paths *)

Lemma ShortestPathTo_body_eq (tv : GraphTraversalV) (gt : GraphTraversal)
  (g : Graph) (m e : MetadataMatch) (n : Node) (paths : list (list Node)) :
  tv_GraphTraversal tv = Some gt ->
  gt_Graph gt = Some g ->
  ShortestPathTo_body tv m e n (∅, paths) =
  Ok (Continue
        (∅, if (0 <? length (LookupShortestPath g n m e))%nat
            then paths ++ [LookupShortestPath g n m e] else paths)).
Proof.
  intros Hgt Hg. unfold ShortestPathTo_body.
  rewrite (bool_decide_eq_false_2 (node_ID n ∈ (∅ : gset Identifier)))
    by apply not_elem_of_empty.
  rewrite Hgt. simpl. rewrite Hg. simpl.
  now destruct (0 <? length (LookupShortestPath g n m e))%nat.
Qed.

(** What the loop of [ShortestPathTo] computes: [visited] stays empty, so
    every node of the sequence is looked up, a repeated one again. *)
Lemma ShortestPathTo_loop (tv : GraphTraversalV) (gt : GraphTraversal)
  (g : Graph) (m e : MetadataMatch) (l : list Node) :
  tv_GraphTraversal tv = Some gt ->
  gt_Graph gt = Some g ->
  forall paths,
    for_rangeM (ShortestPathTo_body tv m e) l (∅, paths) =
    Ok (Continue
          (∅, paths ++
              List.filter (fun p => (0 <? length p)%nat)
                (map (fun n => LookupShortestPath g n m e) l))).
Proof.
  intros Hgt Hg. induction l as [|n l IH]; intros paths;
    cbn [for_rangeM map List.filter].
  - now rewrite app_nil_r.
  - rewrite (ShortestPathTo_body_eq tv gt g m e n paths Hgt Hg).
    unfold mbind, Go_bind.
    destruct (0 <? length (LookupShortestPath g n m e))%nat.
    + rewrite IH. now rewrite <- app_assoc.
    + apply IH.
Qed.

Lemma ShortestPathTo_visits_every_source (tv : GraphTraversalV)
  (gt : GraphTraversal) (g : Graph) (m e : MetadataMatch) :
  tv_error tv = None ->
  tv_GraphTraversal tv = Some gt ->
  gt_Graph gt = Some g ->
  ShortestPathTo tv m e =
  Ok (mkGraphTraversalShortestPath (Some gt)
        (List.filter (fun p => (0 <? length p)%nat)
           (map (fun n => LookupShortestPath g n m e) (tv_nodes tv)))
        None).
Proof.
  intros He Hgt Hg. unfold ShortestPathTo. rewrite He.
  rewrite (ShortestPathTo_loop tv gt g m e (tv_nodes tv) Hgt Hg []).
  simpl. now rewrite Hgt.
Qed.

(** C7, at a node step in which [br1] comes twice: [ShortestPathTo] returns
    the shortest path of [br1] twice, where the specification has one path
    for each distinct source. *)
Theorem ShortestPathTo_repeats_a_duplicate_source :
  ShortestPathTo
    (mkGraphTraversalV (Some SampleSteps.g) [Sample.br1; Sample.br1] None) ∅ ∅ =
  Ok (mkGraphTraversalShortestPath (Some SampleSteps.g)
        [[Sample.br1; Sample.host1]; [Sample.br1; Sample.host1]] None).
Proof. vm_compute. reflexivity. Qed.

(** ** Pagination *)

Lemma In_inner_loop (it : Iterator) (l nodes : list Node) :
  Done it = false ->
  for_range In_inner l (it, nodes) = Continue (it, nodes ++ l).
Proof.
  intros Hd. revert nodes. induction l as [|p l IH]; intros nodes; simpl.
  - now rewrite app_nil_r.
  - rewrite Hd. rewrite IH. now rewrite <- app_assoc.
Qed.

(** Under a range that is not exhausted at the start, [In] returns every
    parent: nothing is counted. *)
Lemma In_counts_nothing `{Externals} (tv : GraphTraversalV)
  (gt : GraphTraversal) (g : Graph) (s : list Param) (metadata : MetadataMatch)
  (from to : Z) :
  tv_error tv = None ->
  tv_GraphTraversal tv = Some gt ->
  gt_Graph gt = Some g ->
  PaginationRange (currentStepContext gt) = Some (from, to) ->
  0 < to ->
  SliceToMetadata s = inl metadata ->
  In_ tv s =
  Ok (mkGraphTraversalV (Some gt)
        (flat_map (fun n => LookupParents g n metadata ∅) (tv_nodes tv)) None).
Proof.
  intros He Hgt Hg Hr Hto Hs. unfold In_. rewrite He, Hs, Hgt. simpl.
  rewrite Hr. simpl.
  assert (Hd : Done (NewIterator (Some (0, from, to))) = false).
  { unfold Done. simpl. apply Z.leb_gt. exact Hto. }
  assert (Hl : forall l nodes,
    for_rangeM (In_body gt metadata) l (NewIterator (Some (0, from, to)), nodes) =
    Ok (Continue (NewIterator (Some (0, from, to)),
                  nodes ++ flat_map (fun n => LookupParents g n metadata ∅) l))).
  { assert (Hb : forall n nodes,
      In_body gt metadata n (NewIterator (Some (0, from, to)), nodes) =
      Ok (Continue (NewIterator (Some (0, from, to)),
                    nodes ++ LookupParents g n metadata ∅))).
    { intros n nodes. unfold In_body, graph_of, pure_loop. rewrite Hg. simpl.
      now rewrite (In_inner_loop _ _ _ Hd). }
    induction l as [|n l IH]; intros nodes; cbn [for_rangeM flat_map].
    - now rewrite app_nil_r.
    - rewrite Hb. unfold mbind, Go_bind. rewrite IH. now rewrite <- app_assoc. }
  rewrite Hl. reflexivity.
Qed.

(** C8, under the range [[0, 1)]: [In] on [br1] returns its two parents and
    [OutE] on the two hosts returns their two edges, where the sibling
    steps [Out] and [InE], which count what they admit, return one element
    each. *)
Theorem In_and_OutE_do_not_count :
  @In_ Sample.externals
    (mkGraphTraversalV (Some (Sample.range 0 1)) [Sample.br1] None) [] =
    Ok (mkGraphTraversalV (Some (Sample.range 0 1))
          [Sample.host1; Sample.host2] None) /\
  @OutE Sample.externals
    (mkGraphTraversalV (Some (Sample.range 0 1)) [Sample.host1; Sample.host2] None) [] =
    Ok (mkGraphTraversalE (Some (Sample.range 0 1)) [Sample.own1; Sample.own2] None) /\
  @Out Sample.externals
    (mkGraphTraversalV (Some (Sample.range 0 1)) [Sample.host1; Sample.host2] None) [] =
    Ok (mkGraphTraversalV (Some (Sample.range 0 1)) [Sample.br1] None) /\
  @InE Sample.externals
    (mkGraphTraversalV (Some (Sample.range 0 1)) [Sample.br1] None) [] =
    Ok (mkGraphTraversalE (Some (Sample.range 0 1)) [Sample.own1] None).
Proof. vm_compute. repeat split; reflexivity. Qed.

(** ** The capture client *)

(** C1, at a query that resolves to [br2], already bound, and then [br1],
    not bound: the capture is stored and [CaptureAdded] is broadcast, but
    [registerProbes] returns at [br2] and no [CaptureStart] is sent for
    [br1]; with the two nodes in the other order [br1] gets its
    [CaptureStart]. *)
Theorem registerProbes_returns_at_a_bound_node :
  captures (fst (@onAPIWatcherEvent SampleClient.env SampleClient.master
                   "create" "c-1" SampleClient.capture)) !! "c-1" =
    Some SampleClient.capture /\
  @outbound SampleClient.env
    (snd (@onAPIWatcherEvent SampleClient.env SampleClient.master
            "create" "c-1" SampleClient.capture)) =
    [SampleClient.CaptureAdded] /\
  @registerProbes SampleClient.env [RNode Sample.br2; RNode Sample.br1]
    SampleClient.capture = [] /\
  @registerProbes SampleClient.env [RNode Sample.br1; RNode Sample.br2]
    SampleClient.capture = [SampleClient.CaptureStart Sample.br1].
Proof. vm_compute. repeat split; reflexivity. Qed.

(** C2 as stated fails on a watcher event: handled by a client that is not
    the leader, the creation of a capture still puts [CaptureAdded] on the
    bus. *)
Lemma not_master_still_broadcasts :
  IsMaster SampleClient.not_master = false /\
  @outbound SampleClient.env
    (snd (@onAPIWatcherEvent SampleClient.env SampleClient.not_master
            "create" "c-1" SampleClient.capture)) =
    [SampleClient.CaptureAdded] /\
  @outbound SampleClient.env
    (snd (@onAPIWatcherEvent SampleClient.env SampleClient.not_master
            "create" "c-1" SampleClient.capture)) <> [].
Proof. vm_compute. repeat split; try reflexivity. discriminate. Qed.

(** C2, as the code has it. When [IsMaster()] is false at the time an event
    is handled, a graph event has no effect at all; a watcher event leaves
    the capture mapping as it is, starts no goroutine and sends no directed
    message ([CaptureStart], [CaptureStop]): all it puts on the bus is the
    broadcast of [CaptureAdded] or [CaptureDeleted] that [onAPIWatcherEvent]
    makes before the leadership is looked at. *)
Theorem not_master_sends_nothing_directed `{ClientEnv} (o : OnDemandProbeClient)
  (action id : string) (capture : Capture) :
  IsMaster o = false ->
  onNodeEvent o = [] /\
  fst (onAPIWatcherEvent o action id capture) = o /\
  List.filter is_directed
    (run_goroutines (snd (onAPIWatcherEvent o action id capture))) = [] /\
  outbound (snd (onAPIWatcherEvent o action id capture)) =
    watcher_broadcast action capture.
Proof.
  intros Hm.
  unfold onNodeEvent, onAPIWatcherEvent, onCaptureAdded, onCaptureDeleted,
    watcher_broadcast, outbound.
  rewrite Hm. simpl.
  split; [reflexivity|].
  destruct (bool_decide (action ∈ ["init"; "create"; "set"; "update"]));
    [simpl; auto|].
  destruct (bool_decide (action ∈ ["expire"; "delete"])); simpl; auto.
Qed.

Lemma not_master_sends_nothing_directed_witness :
  IsMaster SampleClient.not_master = false /\
  @onNodeEvent SampleClient.env SampleClient.not_master = [] /\
  fst (@onAPIWatcherEvent SampleClient.env SampleClient.not_master
         "delete" "c-1" SampleClient.capture) = SampleClient.not_master /\
  List.filter is_directed
    (@run_goroutines SampleClient.env
       (snd (@onAPIWatcherEvent SampleClient.env SampleClient.not_master
               "delete" "c-1" SampleClient.capture))) = [] /\
  @outbound SampleClient.env
    (snd (@onAPIWatcherEvent SampleClient.env SampleClient.not_master
            "delete" "c-1" SampleClient.capture)) =
    watcher_broadcast "delete" SampleClient.capture.
Proof.
  split; [reflexivity|].
  apply (@not_master_sends_nothing_directed SampleClient.env
           SampleClient.not_master "delete" "c-1" SampleClient.capture).
  reflexivity.
Defined.

(** ** The TID mapper *)

Section MapperFacts.

Context `{UUIDLib}.

Lemma AddMetadata_same (g : Store) (n : Identifier) (k : string) (v : Value) :
  is_Some (st_nodes g !! n) ->
  Node_Metadata (AddMetadata g n k v) n !! k = Some v.
Proof.
  intros [md Hmd]. unfold Node_Metadata, AddMetadata. rewrite Hmd. simpl.
  rewrite lookup_insert_eq. simpl. apply lookup_insert_eq.
Qed.

Lemma AddMetadata_other (g : Store) (n n' : Identifier) (k : string) (v : Value) :
  n <> n' ->
  Node_Metadata (AddMetadata g n k v) n' = Node_Metadata g n'.
Proof.
  intros Hne. unfold Node_Metadata, AddMetadata.
  destruct (st_nodes g !! n) as [md|]; [|reflexivity].
  simpl. now rewrite lookup_insert_ne.
Qed.

Lemma AddMetadata_exists (g : Store) (n n' : Identifier) (k : string) (v : Value) :
  node_exists (AddMetadata g n k v) n' = node_exists g n'.
Proof.
  unfold node_exists, AddMetadata.
  destruct (st_nodes g !! n) as [md|] eqn:Hn; [|reflexivity]. simpl.
  apply bool_decide_ext.
  destruct (decide (n = n')) as [<-|Hne].
  - rewrite lookup_insert_eq, Hn. split; eauto.
  - now rewrite lookup_insert_ne.
Qed.

Lemma AddMetadata_children (g : Store) (n p : Identifier) (k : string) (v : Value) :
  ownership_children (AddMetadata g n k v) p = ownership_children g p.
Proof.
  unfold ownership_children. f_equal.
  assert (He : st_edges (AddMetadata g n k v) = st_edges g).
  { unfold AddMetadata. now destruct (st_nodes g !! n). }
  rewrite He. apply List.filter_ext. intros e.
  now rewrite AddMetadata_exists.
Qed.

Lemma setTID_other (t : TIDMapper) (parent child n : Identifier) :
  child <> n ->
  Node_Metadata (tm_Graph (setTID t parent child)) n =
  Node_Metadata (tm_Graph t) n.
Proof.
  intros Hne. unfold setTID.
  repeat case_bool_decide; try reflexivity.
  simpl. now apply AddMetadata_other.
Qed.

Lemma setChildren_other (parent n : Identifier) (children : list Identifier) :
  n ∉ children ->
  forall t,
    Node_Metadata
      (tm_Graph (fold_left (fun t child => setTID t parent child) children t)) n =
    Node_Metadata (tm_Graph t) n.
Proof.
  induction children as [|c children IH]; intros Hn t; simpl; [reflexivity|].
  apply not_elem_of_cons in Hn as [Hc Hn].
  rewrite (IH Hn). apply setTID_other. congruence.
Qed.

Lemma GetFieldString_exists (g : Store) (n : Identifier) (k s : string) :
  GetFieldString (Node_Metadata g n) k = Some s -> is_Some (st_nodes g !! n).
Proof.
  unfold GetFieldString, Node_Metadata.
  destruct (st_nodes g !! n) as [md|]; [eauto|].
  simpl. rewrite lookup_empty. discriminate.
Qed.

End MapperFacts.

Lemma netns_event_run `{UUIDLib} (t : TIDMapper) (n : Identifier) (path : string) :
  netns_event t n path ->
  TIDMapper_onNodeEvent t n =
    setChildrenTID (assign_TID t n (netns_TID (hostID t) path)) n /\
  TID_of (assign_TID t n (netns_TID (hostID t) path)) n =
    Some (netns_TID (hostID t) path) /\
  (n ∉ ownership_children (tm_Graph t) n ->
   TID_of (TIDMapper_onNodeEvent t n) n = Some (netns_TID (hostID t) path)).
Proof.
  intros (Htid & Htp & Hpath & Hne).
  assert (Hrun : TIDMapper_onNodeEvent t n =
                 setChildrenTID (assign_TID t n (netns_TID (hostID t) path)) n).
  { unfold TIDMapper_onNodeEvent. unfold TID_of in Htid. rewrite Htid, Htp.
    rewrite bool_decide_eq_false_2 by discriminate.
    rewrite bool_decide_eq_true_2 by reflexivity.
    unfold GetFieldString_. rewrite Hpath. simpl.
    rewrite bool_decide_eq_true_2 by exact Hne. reflexivity. }
  assert (Hset : TID_of (assign_TID t n (netns_TID (hostID t) path)) n =
                 Some (netns_TID (hostID t) path)).
  { unfold TID_of, assign_TID, GetFieldString. simpl.
    rewrite AddMetadata_same; [reflexivity|].
    eapply GetFieldString_exists, Htp. }
  split; [exact Hrun|]. split; [exact Hset|].
  intros Hself. rewrite Hrun. unfold TID_of, setChildrenTID.
  rewrite setChildren_other; [exact Hset|].
  unfold assign_TID. simpl. now rewrite AddMetadata_children.
Qed.

(** C5. When the mapper handles the event of a node that has no TID, whose
    type is [netns] and whose path is a non-empty string, it writes
    [TID = UUIDv5(OID, hostID ++ Path ++ "netns")] on the node and then
    visits the ownership children; the node keeps that TID unless it is its
    own ownership child.  The value is a function of the host identifier
    and of the path: a second run with the same two inputs, on whatever
    graph and node, writes the same TID. *)
Theorem netns_TID_is_assigned `{UUIDLib} (t t' : TIDMapper) (n n' : Identifier)
  (path : string) :
  netns_event t n path ->
  netns_event t' n' path ->
  hostID t = hostID t' ->
  (TIDMapper_onNodeEvent t n =
     setChildrenTID (assign_TID t n (netns_TID (hostID t) path)) n /\
   TID_of (assign_TID t n (netns_TID (hostID t) path)) n =
     Some (uuid_NewV5 NamespaceOID (hostID t +:+ path +:+ "netns")) /\
   (n ∉ ownership_children (tm_Graph t) n ->
    TID_of (TIDMapper_onNodeEvent t n) n =
      Some (uuid_NewV5 NamespaceOID (hostID t +:+ path +:+ "netns")))) /\
  (TIDMapper_onNodeEvent t' n' =
     setChildrenTID (assign_TID t' n' (netns_TID (hostID t) path)) n' /\
   TID_of (assign_TID t' n' (netns_TID (hostID t) path)) n' =
     TID_of (assign_TID t n (netns_TID (hostID t) path)) n /\
   (n ∉ ownership_children (tm_Graph t) n ->
    n' ∉ ownership_children (tm_Graph t') n' ->
    TID_of (TIDMapper_onNodeEvent t' n') n' =
      TID_of (TIDMapper_onNodeEvent t n) n)).
Proof.
  intros Hev Hev' Hhost.
  destruct (netns_event_run t n path Hev) as (Hrun & Hset & Hfin).
  destruct (netns_event_run t' n' path Hev') as (Hrun' & Hset' & Hfin').
  rewrite <- Hhost in Hrun', Hset', Hfin'.
  split; [split; [exact Hrun|split; [exact Hset|exact Hfin]]|].
  split; [exact Hrun'|]. split; [now rewrite Hset, Hset'|].
  intros Hs Hs'. now rewrite (Hfin Hs), (Hfin' Hs').
Qed.

Lemma SampleMapper_netns_event :
  netns_event SampleMapper.mapper "ns" "/var/run/netns/x".
Proof.
  split; [reflexivity|]. split; [reflexivity|]. split; [reflexivity|].
  discriminate.
Defined.

Lemma netns_TID_is_assigned_witness :
  netns_event SampleMapper.mapper "ns" "/var/run/netns/x" /\
  @TID_of (@TIDMapper_onNodeEvent SampleMapper.uuidlib SampleMapper.mapper "ns") "ns" =
    Some (@uuid_NewV5 SampleMapper.uuidlib NamespaceOID
            ("host-1" +:+ "/var/run/netns/x" +:+ "netns")).
Proof.
  split; [exact SampleMapper_netns_event|].
  refine (proj2 (proj2 (proj1
            (@netns_TID_is_assigned SampleMapper.uuidlib SampleMapper.mapper
               SampleMapper.mapper "ns" "ns" "/var/run/netns/x"
               SampleMapper_netns_event SampleMapper_netns_event eq_refl))) _).
  vm_compute. intros Hin. inversion Hin.
Defined.

(** C6, as the code has it. When the mapper handles the event of a node of
    the last case of the switch (no TID, not a host, netns or ovsport, no
    fabric probe) that has more than one ownership parent, it logs the
    violation and does nothing else: the graph is left as it is, no parent
    is used and the node gets no TID in that event. *)
Theorem several_parents_are_logged_only `{UUIDLib} (t : TIDMapper) (n : Identifier) :
  other_event t n ->
  (1 < length (ownership_parents (tm_Graph t) n))%nat ->
  TIDMapper_onNodeEvent t n =
    mkTIDMapper (tm_Graph t) (hostID t) (tm_errors t ++ [ownership_violation n]) /\
  TID_of (TIDMapper_onNodeEvent t n) n = None.
Proof.
  intros (Htid & (tp & Htp & Hh & Hn & Ho) & Hprobe) Hlen.
  assert (Hrun : TIDMapper_onNodeEvent t n =
                 mkTIDMapper (tm_Graph t) (hostID t)
                   (tm_errors t ++ [ownership_violation n])).
  { unfold TIDMapper_onNodeEvent. unfold TID_of in Htid. rewrite Htid, Htp.
    rewrite !bool_decide_eq_false_2 by assumption.
    apply Nat.ltb_lt in Hlen. now rewrite Hlen. }
  split; [exact Hrun|]. rewrite Hrun. exact Htid.
Qed.

Lemma SampleMapper_other_event : other_event SampleMapper.mapper "b1".
Proof.
  split; [reflexivity|]. split.
  - exists "ovsbridge". split; [reflexivity|]. repeat split; discriminate.
  - vm_compute. discriminate.
Defined.

Lemma several_parents_are_logged_only_witness :
  other_event SampleMapper.mapper "b1" /\
  (1 < length (ownership_parents (tm_Graph SampleMapper.mapper) "b1"))%nat /\
  @TIDMapper_onNodeEvent SampleMapper.uuidlib SampleMapper.mapper "b1" =
    mkTIDMapper (tm_Graph SampleMapper.mapper) (hostID SampleMapper.mapper)
      (tm_errors SampleMapper.mapper ++ [ownership_violation "b1"]) /\
  TID_of (@TIDMapper_onNodeEvent SampleMapper.uuidlib SampleMapper.mapper "b1") "b1" =
    None.
Proof.
  assert (Hlen : (1 < length (ownership_parents (tm_Graph SampleMapper.mapper) "b1"))%nat).
  { vm_compute. lia. }
  split; [exact SampleMapper_other_event|]. split; [exact Hlen|].
  exact (@several_parents_are_logged_only SampleMapper.uuidlib SampleMapper.mapper
           "b1" SampleMapper_other_event Hlen).
Defined.

(** C6 as stated fails: [b1] is owned by [host-1] and by [host-2], which
    both have a TID; the event of [b1] is logged and [b1] gets no TID,
    where the first parent would have given it one. *)
Lemma several_parents_give_no_TID :
  ownership_parents (tm_Graph SampleMapper.mapper) "b1" = ["host-1"; "host-2"] /\
  tm_errors (@TIDMapper_onNodeEvent SampleMapper.uuidlib SampleMapper.mapper "b1") =
    [ownership_violation "b1"] /\
  TID_of (@TIDMapper_onNodeEvent SampleMapper.uuidlib SampleMapper.mapper "b1") "b1" =
    None /\
  TID_of (@setTID SampleMapper.uuidlib SampleMapper.mapper "host-1" "b1") "b1" =
    Some (@uuid_NewV5 SampleMapper.uuidlib NamespaceOID
            ("host-1" +:+ "br-int" +:+ "ovsbridge")).
Proof. vm_compute. repeat split; reflexivity. Qed.

(** *** The steps that count *)

Lemma admitted_done {A : Type} (from to : Z) (l : list A) :
  forall a, to <= a -> admitted from to a l = [].
Proof.
  induction l as [|x l IH]; intros a Ha; simpl; [reflexivity|].
  replace (a <? to) with false by (symmetry; apply Z.ltb_ge; lia).
  rewrite andb_false_r. apply IH. lia.
Qed.

Lemma admitted_app {A : Type} (from to : Z) (l1 l2 : list A) :
  forall a,
    admitted from to a (l1 ++ l2) =
    admitted from to a l1 ++ admitted from to (a + Z.of_nat (length l1)) l2.
Proof.
  induction l1 as [|x l1 IH]; intros a; simpl.
  - now rewrite Z.add_0_r.
  - rewrite IH.
    replace (a + 1 + Z.of_nat (length l1)) with (a + Z.pos (Pos.of_succ_nat (length l1)))
      by lia.
    now destruct ((from <=? a) && (a <? to)).
Qed.

(** The pagination loop appends the admitted elements; it goes on with the
    count advanced by the length of the list, or breaks with the range
    exhausted. *)
Lemma paginate_loop {A : Type} (from to : Z) (l : list A) :
  forall a acc,
    exists c,
      for_range paginate l (mkIterator a (Some (from, to)), acc) = c /\
      snd (ctl_state c) = acc ++ admitted from to a l /\
      match c with
      | Continue s => fst s = mkIterator (a + Z.of_nat (length l)) (Some (from, to))
      | Break _ => to <= a + Z.of_nat (length l)
      end.
Proof.
  induction l as [|x l IH]; intros a acc.
  - eexists. split; [reflexivity|]. simpl. split; [now rewrite app_nil_r|].
    now rewrite Z.add_0_r.
  - cbn [for_range admitted]. unfold paginate at 1, Done, Next. cbn [it_bounds it_at].
    destruct (to <=? a) eqn:Hd.
    + apply Z.leb_le in Hd. eexists. split; [reflexivity|]. simpl.
      rewrite (admitted_done from to l (a + 1)) by lia.
      replace (a <? to) with false by (symmetry; apply Z.ltb_ge; lia).
      rewrite andb_false_r, app_nil_r. split; [reflexivity|]. lia.
    + destruct ((from <=? a) && (a <? to)).
      * destruct (IH (a + 1) (acc ++ [x])) as (c & Hc & Hs & Hk).
        exists c. split; [exact Hc|]. split.
        -- rewrite Hs. now rewrite <- app_assoc.
        -- destruct c; simpl length;
             [rewrite Hk; f_equal; lia | lia].
      * destruct (IH (a + 1) acc) as (c & Hc & Hs & Hk).
        exists c. split; [exact Hc|]. split; [exact Hs|].
        destruct c; simpl length; [rewrite Hk; f_equal; lia | lia].
Qed.

Lemma Out_loop `{Externals} (gt : GraphTraversal) (g : Graph)
  (metadata : MetadataMatch) (from to : Z) (nodes : list Node) :
  gt_Graph gt = Some g ->
  forall a acc,
    exists c,
      for_rangeM (Out_body gt metadata) nodes
        (mkIterator a (Some (from, to)), acc) = Ok c /\
      snd (ctl_state c) =
        acc ++ admitted from to a
                 (flat_map (fun n => LookupChildren g n metadata ∅) nodes).
Proof.
  intros Hg.
  assert (Hb : forall n st,
    Out_body gt metadata n st =
    Ok (for_range paginate (LookupChildren g n metadata ∅) st)).
  { intros n st. unfold Out_body, graph_of, pure_loop. now rewrite Hg. }
  induction nodes as [|n nodes IH]; intros a acc; cbn [for_rangeM flat_map].
  - eexists. split; [reflexivity|]. simpl. now rewrite app_nil_r.
  - rewrite Hb. unfold mbind, Go_bind.
    destruct (paginate_loop from to (LookupChildren g n metadata ∅) a acc)
      as (c & -> & Hs & Hk).
    rewrite admitted_app.
    destruct c as [[it' acc']|[it' acc']]; simpl in Hs, Hk; subst.
    + destruct (IH (a + Z.of_nat (length (LookupChildren g n metadata ∅)))
                  (acc ++ admitted from to a (LookupChildren g n metadata ∅)))
        as (c & Hc & Hs').
      exists c. split; [exact Hc|]. rewrite Hs'. now rewrite <- app_assoc.
    + eexists. split; [reflexivity|]. simpl.
      now rewrite (admitted_done from to _ _ Hk), app_nil_r.
Qed.

(** Under a pagination range [[from, to)], [Out] returns exactly the
    children whose running index falls in the range. *)
Lemma Out_paginates `{Externals} (tv : GraphTraversalV) (gt : GraphTraversal)
  (g : Graph) (s : list Param) (metadata : MetadataMatch) (from to : Z) :
  tv_error tv = None ->
  tv_GraphTraversal tv = Some gt ->
  gt_Graph gt = Some g ->
  PaginationRange (currentStepContext gt) = Some (from, to) ->
  SliceToMetadata s = inl metadata ->
  Out tv s =
  Ok (mkGraphTraversalV (Some gt)
        (admitted from to 0
           (flat_map (fun n => LookupChildren g n metadata ∅) (tv_nodes tv)))
        None).
Proof.
  intros He Hgt Hg Hr Hs. unfold Out. rewrite He, Hs, Hgt. simpl. rewrite Hr.
  destruct (Out_loop gt g metadata from to (tv_nodes tv) Hg 0 []) as (c & Hc & Hn).
  unfold Range_Iterator, NewIterator. rewrite Hc. simpl. now rewrite Hn.
Qed.

(** *** What [registerProbes] sends *)

Section RegisterProbes.

Context `{ClientEnv}.

Lemma registerProbe_directed (capture : Capture) (node : Node) :
  List.filter is_directed (fst (registerProbe (node_ID node) (Host node) capture)) =
  [CaptureStart_to capture node].
Proof.
  unfold registerProbe, CaptureStart_to.
  now destruct (SendWSMessageTo _ _).
Qed.

Lemma registerProbes_node_loop (capture : Capture) (l : list Node) :
  forall effects,
    exists c,
      for_range (registerProbes_node capture) l effects = c /\
      List.filter is_directed (ctl_state c) =
        List.filter is_directed effects ++
        map (CaptureStart_to capture) (before_bound l) /\
      forall rest,
        before_bound (l ++ rest) =
        match c with
        | Continue _ => before_bound l ++ before_bound rest
        | Break _ => before_bound l
        end.
Proof.
  induction l as [|node l IH]; intros effects; cbn [for_range before_bound].
  - eexists. split; [reflexivity|]. simpl. split; [now rewrite app_nil_r|].
    reflexivity.
  - unfold registerProbes_node at 1, bound.
    destruct (GetFieldString (node_metadata node) "Capture/ID") as [id|] eqn:Hid.
    + rewrite bool_decide_eq_true_2 by eauto.
      eexists. split; [reflexivity|]. simpl.
      unfold bound. rewrite Hid.
      rewrite bool_decide_eq_true_2 by eauto.
      split; [now rewrite app_nil_r|]. reflexivity.
    + rewrite bool_decide_eq_false_2 by (intros [? ?]; discriminate).
      destruct (IH (effects ++ fst (registerProbe (node_ID node) (Host node) capture)))
        as (c & Hc & Hf & Hr).
      exists c. split; [exact Hc|]. split.
      * rewrite Hf, List.filter_app, registerProbe_directed.
        now rewrite <- app_assoc.
      * intros rest. simpl. unfold bound at 1. rewrite Hid.
        rewrite bool_decide_eq_false_2 by (intros [? ?]; discriminate).
        rewrite Hr. now destruct c.
Qed.

(** [registerProbes] sends [CaptureStart] to the nodes that come before the
    first node that carries [Capture/ID], in order, and to no other. *)
Lemma registerProbes_sends (nodes : list Result) (capture : Capture) :
  List.filter is_directed (registerProbes nodes capture) =
  map (CaptureStart_to capture) (before_bound (flat_map nodes_of nodes)).
Proof.
  unfold registerProbes.
  assert (Hgen : forall effects,
    List.filter is_directed
      (ctl_state (for_range (registerProbes_body capture) nodes effects)) =
    List.filter is_directed effects ++
    map (CaptureStart_to capture) (before_bound (flat_map nodes_of nodes))).
  { induction nodes as [|i nodes IH]; intros effects; cbn [for_range flat_map].
    - simpl. now rewrite app_nil_r.
    - assert (Hb : registerProbes_body capture i effects =
                   for_range (registerProbes_node capture) (nodes_of i) effects).
      { destruct i; simpl; try reflexivity.
        now destruct (registerProbes_node capture n effects). }
      rewrite Hb.
      destruct (registerProbes_node_loop capture (nodes_of i) effects)
        as (c & -> & Hf & Hr).
      rewrite (Hr (flat_map nodes_of nodes)).
      destruct c as [effects'|effects']; simpl in Hf.
      + rewrite IH, Hf, map_app. now rewrite <- app_assoc.
      + exact Hf. }
  apply Hgen.
Qed.

End RegisterProbes.

(** *** The general statements at the sample graph *)

Lemma Out_paginates_witness :
  @Out Sample.externals
    (mkGraphTraversalV (Some (Sample.range 0 1)) [Sample.host1; Sample.host2] None) [] =
  Ok (mkGraphTraversalV (Some (Sample.range 0 1))
        (admitted 0 1 0
           (flat_map (fun n => LookupChildren Sample.graph n ∅ ∅)
              [Sample.host1; Sample.host2]))
        None).
Proof.
  apply (@Out_paginates Sample.externals
           (mkGraphTraversalV (Some (Sample.range 0 1))
              [Sample.host1; Sample.host2] None)
           (Sample.range 0 1) Sample.graph [] ∅ 0 1); reflexivity.
Defined.

Lemma In_counts_nothing_witness :
  0 < 1 /\
  @In_ Sample.externals
    (mkGraphTraversalV (Some (Sample.range 0 1)) [Sample.br1] None) [] =
  Ok (mkGraphTraversalV (Some (Sample.range 0 1))
        (flat_map (fun n => LookupParents Sample.graph n ∅ ∅) [Sample.br1]) None).
Proof.
  split; [lia|].
  apply (@In_counts_nothing Sample.externals
           (mkGraphTraversalV (Some (Sample.range 0 1)) [Sample.br1] None)
           (Sample.range 0 1) Sample.graph [] ∅ 0 1); reflexivity.
Defined.

Lemma ShortestPathTo_visits_every_source_witness :
  ShortestPathTo
    (mkGraphTraversalV (Some SampleSteps.g) [Sample.br1; Sample.br1] None) ∅ ∅ =
  Ok (mkGraphTraversalShortestPath (Some SampleSteps.g)
        (List.filter (fun p => (0 <? length p)%nat)
           (map (fun n => LookupShortestPath Sample.graph n ∅ ∅)
              [Sample.br1; Sample.br1]))
        None).
Proof.
  apply (ShortestPathTo_visits_every_source
           (mkGraphTraversalV (Some SampleSteps.g) [Sample.br1; Sample.br1] None)
           SampleSteps.g Sample.graph ∅ ∅); reflexivity.
Defined.

Lemma steps_keep_errored_steps_empty_witness :
  Step_wf (SGraph SampleSteps.g) /\
  Step_wf (SV (errV "V accepts only a string when there is only one argument")).
Proof.
  assert (Hwf : Step_wf (SGraph SampleSteps.g)) by (left; reflexivity).
  split; [exact Hwf|].
  apply (@steps_keep_errored_steps_empty Sample.externals
           (SGraph SampleSteps.g) _ (CV [PInt64 5]) Hwf).
  reflexivity.
Defined.

(** *** The steps at the sample graph *)

Example V_all :
  @V Sample.externals SampleSteps.g [] =
  Ok (mkGraphTraversalV (Some SampleSteps.g)
        [Sample.host1; Sample.host2; Sample.br1] None).
Proof. vm_compute. reflexivity. Qed.

Example V_paginated :
  @V Sample.externals (Sample.range 1 2) [] =
  Ok (mkGraphTraversalV (Some (Sample.range 1 2)) [Sample.host2] None).
Proof. vm_compute. reflexivity. Qed.

Example V_unknown_node :
  @V Sample.externals SampleSteps.g [PString "zz"] =
  Ok (errV "Node 'zz' does not exist").
Proof. vm_compute. reflexivity. Qed.

Example Has_Type_host :
  @GraphTraversalV_Has Sample.externals
    (mkGraphTraversalV (Some SampleSteps.g)
       [Sample.host1; Sample.br1; Sample.host2] None)
    [PString "Type"; PString "host"] =
  Ok (mkGraphTraversalV (Some SampleSteps.g) [Sample.host1; Sample.host2] None).
Proof. vm_compute. reflexivity. Qed.

Example Has_odd_arguments :
  exists e,
    @GraphTraversalV_Has Sample.externals
      (mkGraphTraversalV (Some SampleSteps.g) [Sample.host1] None)
      [PString "Type"; PString "host"; PString "Name"] = Ok (errV e).
Proof. eexists. vm_compute. reflexivity. Qed.

Example Range_middle :
  @GraphTraversalV_Range Sample.externals
    (mkGraphTraversalV (Some SampleSteps.g)
       [Sample.host1; Sample.br1; Sample.host2] None)
    [PInt64 1; PInt64 2] =
  Ok (mkGraphTraversalV (Some SampleSteps.g) [Sample.br1] None).
Proof. vm_compute. reflexivity. Qed.

Example Range_negative_from_panics :
  @GraphTraversalV_Range Sample.externals
    (mkGraphTraversalV (Some SampleSteps.g) [Sample.host1] None)
    [PInt64 (-1); PInt64 2] =
  Panic "runtime error: index out of range".
Proof. vm_compute. reflexivity. Qed.

Example Limit_without_argument_panics :
  @GraphTraversalV_Limit Sample.externals (errV "boom") [] =
  Panic "runtime error: index out of range".
Proof. vm_compute. reflexivity. Qed.

Example Both_of_a_bridge :
  @Both Sample.externals
    (mkGraphTraversalV (Some SampleSteps.g) [Sample.br1] None) [] =
  Ok (mkGraphTraversalV (Some SampleSteps.g) [Sample.host1; Sample.host2] None).
Proof. vm_compute. reflexivity. Qed.

Example Context_of_the_past_has_no_backend :
  @Context Sample.externals SampleSteps.g [PTime 0] =
  Ok (errGT "no historical backend").
Proof. vm_compute. reflexivity. Qed.

Example host_event_sets_the_children :
  TID_of (@TIDMapper_onNodeEvent SampleMapper.uuidlib
            (NewTIDMapper
               (mkStore
                  (list_to_map
                     [("h", Sample.md [("Type", VString "host")]);
                      ("p", Sample.md [("Type", VString "veth");
                                       ("Name", VString "eth0")])])
                  [SampleMapper.own "e" "h" "p"]))
            "h") "p" =
  Some (@uuid_NewV5 SampleMapper.uuidlib NamespaceOID ("h" +:+ "eth0" +:+ "veth")).
Proof. vm_compute. reflexivity. Qed.

Example capture_deleted_stops_every_node :
  @outbound SampleClient.env
    (snd (@onAPIWatcherEvent SampleClient.env SampleClient.master
            "delete" "c-1" SampleClient.capture)) =
  [EBroadcastWSMessage
     (NewWSMessage Namespace "CaptureDeleted" (ObjCapture SampleClient.capture));
   ESendWSMessageTo
     (NewWSMessage Namespace "CaptureStop"
        (ObjCaptureQuery (mkCaptureQuery "b2" Capture_zero))) "host-1";
   ESendWSMessageTo
     (NewWSMessage Namespace "CaptureStop"
        (ObjCaptureQuery (mkCaptureQuery "b1" Capture_zero))) "host-1"].
Proof. vm_compute. reflexivity. Qed.

(** ** Range and Limit *)

Lemma index_lookup {A : Type} (l : list A) (i : nat) (x : A) :
  l !! i = Some x -> index l (Z.of_nat i) = Ok x.
Proof.
  intros Hx. unfold index.
  replace (Z.of_nat i <? 0) with false by (symmetry; apply Z.ltb_ge; lia).
  now rewrite Nat2Z.id, Hx.
Qed.

(** The loop of [Range] started at a non-negative index copies the slice
    [src[i : min(to, len(src))]]. *)
Lemma Range_loop_slice {A : Type} (to : Z) (src : list A) :
  forall (fuel i : nat) (acc : list A),
    (length src - i < fuel)%nat ->
    Range_loop fuel (Z.of_nat i) to src acc =
    Ok (acc ++ take (Z.to_nat (to - Z.of_nat i)) (drop i src)).
Proof.
  induction fuel as [|fuel IH]; intros i acc Hfuel; [lia|].
  cbn [Range_loop].
  destruct ((Z.of_nat i <? Z.of_nat (length src)) && (Z.of_nat i <? to)) eqn:Hc.
  - apply andb_true_iff in Hc as [Hlen Hto].
    apply Z.ltb_lt in Hlen. apply Z.ltb_lt in Hto.
    destruct (lookup_lt_is_Some_2 src i ltac:(lia)) as [x Hx].
    rewrite (index_lookup _ _ _ Hx). unfold mbind, Go_bind.
    replace (Z.of_nat i + 1) with (Z.of_nat (S i)) by lia.
    rewrite IH by lia.
    rewrite (drop_S _ _ _ Hx).
    replace (Z.to_nat (to - Z.of_nat i)) with (S (Z.to_nat (to - Z.of_nat (S i))))
      by lia.
    cbn [take firstn]. now rewrite <- app_assoc.
  - apply andb_false_iff in Hc as [Hlen|Hto].
    + apply Z.ltb_ge in Hlen. rewrite drop_ge by lia.
      now rewrite take_nil, app_nil_r.
    + apply Z.ltb_ge in Hto.
      replace (Z.to_nat (to - Z.of_nat i)) with 0%nat by lia.
      cbn [take firstn]. now rewrite app_nil_r.
Qed.

Lemma Range_loop_from {A : Type} (from to : Z) (src : list A) :
  0 <= from ->
  Range_loop (S (length src)) from to src [] =
  Ok (take (Z.to_nat (to - from)) (drop (Z.to_nat from) src)).
Proof.
  intros Hfrom.
  rewrite <- (Z2Nat.id from Hfrom) at 1.
  rewrite Range_loop_slice by lia.
  now rewrite Z2Nat.id by exact Hfrom.
Qed.

(** [Range(from, to)] with [0 <= from] on a step that carries no error
    never panics and returns the elements of index [from] to [to - 1], as
    far as there are any: the slice [s[from : min(to, len(s))]], nodes and
    edges alike. *)
Lemma Range_is_a_slice `{Externals} (tv : GraphTraversalV) (te : GraphTraversalE)
  (from to : Z) :
  tv_error tv = None ->
  te_error te = None ->
  0 <= from ->
  GraphTraversalV_Range tv [PInt64 from; PInt64 to] =
    Ok (mkGraphTraversalV (tv_GraphTraversal tv)
          (take (Z.to_nat (to - from)) (drop (Z.to_nat from) (tv_nodes tv))) None) /\
  GraphTraversalE_Range te [PInt64 from; PInt64 to] =
    Ok (mkGraphTraversalE (te_GraphTraversal te)
          (take (Z.to_nat (to - from)) (drop (Z.to_nat from) (te_edges te))) None).
Proof.
  intros Hv He Hfrom.
  unfold GraphTraversalV_Range, GraphTraversalE_Range. rewrite Hv, He.
  rewrite !Range_loop_from by exact Hfrom. split; reflexivity.
Qed.

Lemma Range_is_a_slice_witness :
  0 <= 1 /\
  @GraphTraversalV_Range Sample.externals
    (mkGraphTraversalV (Some SampleSteps.g)
       [Sample.host1; Sample.br1; Sample.host2] None)
    [PInt64 1; PInt64 5] =
    Ok (mkGraphTraversalV (Some SampleSteps.g) [Sample.br1; Sample.host2] None).
Proof.
  split; [lia|].
  refine (proj1 (@Range_is_a_slice Sample.externals
                   (mkGraphTraversalV (Some SampleSteps.g)
                      [Sample.host1; Sample.br1; Sample.host2] None)
                   SampleSteps.edges_twice 1 5 eq_refl eq_refl _)).
  lia.
Defined.

(** [Limit(n)] on a step that carries no error returns the first [n]
    elements, all of them when there are fewer and none when [n] is not
    positive; it is [Range(0, n)]. *)
Lemma Limit_takes_the_first `{Externals} (tv : GraphTraversalV)
  (te : GraphTraversalE) (n : Z) :
  tv_error tv = None ->
  te_error te = None ->
  GraphTraversalV_Limit tv [PInt64 n] =
    Ok (mkGraphTraversalV (tv_GraphTraversal tv)
          (take (Z.to_nat n) (tv_nodes tv)) None) /\
  GraphTraversalE_Limit te [PInt64 n] =
    Ok (mkGraphTraversalE (te_GraphTraversal te)
          (take (Z.to_nat n) (te_edges te)) None).
Proof.
  intros Hv He.
  unfold GraphTraversalV_Limit, GraphTraversalE_Limit. rewrite He.
  change (index [PInt64 n] 0) with (Ok (PInt64 n)).
  unfold mbind, Go_bind.
  unfold GraphTraversalV_Range, GraphTraversalE_Range. rewrite Hv, He.
  rewrite !Range_loop_from by lia.
  rewrite Z.sub_0_r. split; reflexivity.
Qed.

Lemma Limit_takes_the_first_witness :
  @GraphTraversalV_Limit Sample.externals
    (mkGraphTraversalV (Some SampleSteps.g)
       [Sample.host1; Sample.br1; Sample.host2] None)
    [PInt64 2] =
    Ok (mkGraphTraversalV (Some SampleSteps.g) [Sample.host1; Sample.br1] None).
Proof.
  exact (proj1 (@Limit_takes_the_first Sample.externals
                  (mkGraphTraversalV (Some SampleSteps.g)
                     [Sample.host1; Sample.br1; Sample.host2] None)
                  SampleSteps.edges_twice 2 eq_refl eq_refl)).
Defined.

(** [Range(from, to)] with a negative [from] panics as soon as the step is
    not empty and [from < to]: the loop indexes the slice at [from]. *)
Lemma Range_with_a_negative_from_panics `{Externals} (tv : GraphTraversalV)
  (from to : Z) :
  tv_error tv = None ->
  tv_nodes tv <> [] ->
  from < 0 ->
  from < to ->
  GraphTraversalV_Range tv [PInt64 from; PInt64 to] =
    Panic "runtime error: index out of range".
Proof.
  intros Hv Hne Hneg Hto. unfold GraphTraversalV_Range. rewrite Hv.
  cbn [Range_loop].
  assert (Hlen : (0 < length (tv_nodes tv))%nat).
  { destruct (tv_nodes tv); [congruence|simpl; lia]. }
  replace (from <? Z.of_nat (length (tv_nodes tv))) with true
    by (symmetry; apply Z.ltb_lt; lia).
  replace (from <? to) with true by (symmetry; apply Z.ltb_lt; lia).
  cbn [andb]. unfold index.
  replace (from <? 0) with true by (symmetry; apply Z.ltb_lt; lia).
  reflexivity.
Qed.

Lemma Range_with_a_negative_from_panics_witness :
  -1 < 0 /\ -1 < 2 /\
  @GraphTraversalV_Range Sample.externals
    (mkGraphTraversalV (Some SampleSteps.g) [Sample.host1] None)
    [PInt64 (-1); PInt64 2] =
    Panic "runtime error: index out of range".
Proof.
  split; [lia|]. split; [lia|].
  apply (@Range_with_a_negative_from_panics Sample.externals
           (mkGraphTraversalV (Some SampleSteps.g) [Sample.host1] None) (-1) 2);
    [reflexivity|discriminate|lia|lia].
Defined.

(** ** Pagination, step by step *)

(** The admitted elements are a slice of the list. *)
Lemma admitted_slice_from {A : Type} (from to : Z) (l : list A) :
  forall a : nat,
    admitted from to (Z.of_nat a) l =
    take (Z.to_nat (to - Z.max from (Z.of_nat a)))
      (drop (Z.to_nat (from - Z.of_nat a)) l).
Proof.
  induction l as [|x l IH]; intros a; cbn [admitted].
  - now rewrite drop_nil, take_nil.
  - replace (Z.of_nat a + 1) with (Z.of_nat (S a)) by lia. rewrite IH.
    destruct (from <=? Z.of_nat a) eqn:Hf; cbn [andb].
    + apply Z.leb_le in Hf.
      replace (Z.to_nat (from - Z.of_nat a)) with 0%nat by lia.
      replace (Z.to_nat (from - Z.of_nat (S a))) with 0%nat by lia.
      cbn [drop skipn].
      destruct (Z.of_nat a <? to) eqn:Ht.
      * apply Z.ltb_lt in Ht.
        replace (Z.to_nat (to - Z.max from (Z.of_nat a)))
          with (S (Z.to_nat (to - Z.max from (Z.of_nat (S a))))) by lia.
        reflexivity.
      * apply Z.ltb_ge in Ht.
        replace (Z.to_nat (to - Z.max from (Z.of_nat a))) with 0%nat by lia.
        replace (Z.to_nat (to - Z.max from (Z.of_nat (S a)))) with 0%nat by lia.
        reflexivity.
    + apply Z.leb_gt in Hf.
      replace (Z.to_nat (from - Z.of_nat a))
        with (S (Z.to_nat (from - Z.of_nat (S a)))) by lia.
      cbn [drop skipn].
      replace (Z.max from (Z.of_nat (S a))) with (Z.max from (Z.of_nat a)) by lia.
      reflexivity.
Qed.

Lemma admitted_slice {A : Type} (from to : Z) (l : list A) :
  0 <= from ->
  admitted from to 0 l = take (Z.to_nat (to - from)) (drop (Z.to_nat from) l).
Proof.
  intros Hfrom. pose proof (admitted_slice_from from to l 0) as Hs.
  change (Z.of_nat 0) with 0 in Hs. rewrite Hs.
  now rewrite Z.max_l, Z.sub_0_r by lia.
Qed.

Section Counting.

Context {A : Type} (from to : Z).

(** A loop body that breaks when the range is exhausted and counts the
    elements that pass the test [p]. *)
Lemma counts_filtered (p : A -> bool)
  (body : A -> Iterator * list A -> Ctl (Iterator * list A)) :
  (forall x it acc,
     body x (it, acc) =
     if Done it then Break (it, acc)
     else if p x then paginate x (it, acc) else Continue (it, acc)) ->
  counts from to (fun l st => Ok (for_range body l st)) (List.filter p).
Proof.
  intros Hbody l. induction l as [|x l IH]; intros a acc.
  - exists (Continue (mkIterator a (Some (from, to)), acc)), a.
    split; [reflexivity|]. simpl. rewrite app_nil_r. split; [reflexivity|].
    left. lia.
  - cbn [for_range List.filter]. rewrite Hbody. unfold Done at 1. cbn [it_bounds it_at].
    destruct (to <=? a) eqn:Hd.
    + apply Z.leb_le in Hd. eexists; exists a. split; [reflexivity|].
      cbn [ctl_state]. rewrite admitted_done by lia. rewrite app_nil_r.
      split; [reflexivity|]. lia.
    + apply Z.leb_gt in Hd. destruct (p x).
      * unfold paginate, Done, Next. cbn [it_bounds it_at].
        replace (to <=? a) with false by (symmetry; apply Z.leb_gt; lia).
        cbn [admitted length].
        destruct ((from <=? a) && (a <? to)).
        -- destruct (IH (a + 1) (acc ++ [x])) as (c & a' & Hc & Hs & Ha).
           injection Hc as Hc. exists c, a'. rewrite Hc.
           split; [reflexivity|]. rewrite Hs, <- app_assoc.
           split; [reflexivity|]. destruct c; lia.
        -- destruct (IH (a + 1) acc) as (c & a' & Hc & Hs & Ha).
           injection Hc as Hc. exists c, a'. rewrite Hc.
           split; [reflexivity|]. rewrite Hs. split; [reflexivity|].
           destruct c; lia.
      * apply IH.
Qed.

Lemma counts_paginate :
  counts from to (fun (l : list A) st => Ok (for_range paginate l st)) id.
Proof.
  intros l a acc.
  destruct (counts_filtered (fun _ => true) paginate) with (x := l) (a := a) (acc := acc)
    as (c & a' & Hc & Hs & Ha).
  { intros x it acc'. unfold paginate. now destruct (Done it). }
  assert (Hf : List.filter (fun _ : A => true) l = l).
  { clear. induction l as [|x l IH]; simpl; [reflexivity|now rewrite IH]. }
  rewrite Hf in Hs, Ha. exists c, a'. auto.
Qed.

(** A loop over loops that count is a loop that counts, whether an inner
    break leaves the outer loop or not. *)
Lemma counts_for_rangeM {X : Type}
  (run : X -> Iterator * list A -> Go (Ctl (Iterator * list A)))
  (items : X -> list A) :
  counts from to run items ->
  counts from to (fun l st => for_rangeM run l st) (flat_map items).
Proof.
  intros Hrun l. induction l as [|x l IH]; intros a acc.
  - exists (Continue (mkIterator a (Some (from, to)), acc)), a.
    split; [reflexivity|]. simpl. rewrite app_nil_r. split; [reflexivity|].
    left. lia.
  - cbn [for_rangeM flat_map].
    destruct (Hrun x a acc) as (c & a1 & Hc & Hs & Ha1).
    rewrite Hc. unfold mbind, Go_bind. rewrite admitted_app, length_app.
    assert (Hstop : to <= a1 <= a + Z.of_nat (length (items x)) ->
      admitted from to (a + Z.of_nat (length (items x))) (flat_map items l) = []).
    { intros Hle. apply admitted_done. lia. }
    destruct c as [st|st]; cbn [ctl_state] in Hs; subst st.
    + destruct (IH a1 (acc ++ admitted from to a (items x)))
        as (c & a2 & Hc2 & Hs2 & Ha2).
      exists c, a2. split; [exact Hc2|]. rewrite Hs2, <- app_assoc.
      destruct Ha1 as [->|Hle].
      * split; [reflexivity|]. destruct c; lia.
      * rewrite (admitted_done from to (flat_map items l) a1) by lia.
        rewrite Hstop by exact Hle. split; [reflexivity|]. destruct c; lia.
    + eexists; exists a1. split; [reflexivity|]. cbn [ctl_state].
      rewrite Hstop by exact Ha1. rewrite app_nil_r.
      split; [reflexivity|]. lia.
Qed.

Lemma counts_ext {X : Type}
  (run run' : X -> Iterator * list A -> Go (Ctl (Iterator * list A)))
  (items items' : X -> list A) :
  (forall x st, run' x st = run x st) ->
  (forall x, items' x = items x) ->
  counts from to run items -> counts from to run' items'.
Proof.
  intros Hr Hi Hc x a acc. rewrite Hr, Hi. apply Hc.
Qed.

(** An inner loop that ends in a plain [break]: the outer loop goes on. *)
Lemma counts_plain_break {X : Type}
  (run : X -> Iterator * list A -> Go (Ctl (Iterator * list A)))
  (items : X -> list A) :
  counts from to run items ->
  counts from to
    (fun x st => c ← run x st; Ok (Continue (ctl_state c))) items.
Proof.
  intros Hc x a acc. destruct (Hc x a acc) as (c & a' & Hrun & Hs & Ha).
  exists (Continue (ctl_state c)), a'. rewrite Hrun.
  split; [reflexivity|]. split; [exact Hs|]. destruct c; auto.
Qed.

Lemma counts_result {X : Type}
  (run : X -> Iterator * list A -> Go (Ctl (Iterator * list A)))
  (items : X -> list A) (x : X) :
  counts from to run items ->
  exists c,
    run x (Range_Iterator (Some (from, to)), []) = Ok c /\
    snd (ctl_state c) = admitted from to 0 (items x).
Proof.
  intros Hc. destruct (Hc x 0 []) as (c & a' & Hrun & Hs & _).
  exists c. split; [exact Hrun|]. now rewrite Hs.
Qed.

End Counting.

Section CountingSteps.

Context {A : Type} (from to : Z).

(** A loop body that tests the element first and consults the range only
    for an element that passes. *)
Lemma counts_prefiltered (p : A -> bool)
  (body : A -> Iterator * list A -> Ctl (Iterator * list A)) :
  (forall x st, body x st = if p x then paginate x st else Continue st) ->
  counts from to (fun l st => Ok (for_range body l st)) (List.filter p).
Proof.
  intros Hbody l. induction l as [|x l IH]; intros a acc.
  - exists (Continue (mkIterator a (Some (from, to)), acc)), a.
    split; [reflexivity|]. simpl. rewrite app_nil_r. split; [reflexivity|].
    left. lia.
  - cbn [for_range List.filter]. rewrite Hbody. destruct (p x); [|apply IH].
    unfold paginate, Done, Next. cbn [it_bounds it_at].
    destruct (to <=? a) eqn:Hd.
    + apply Z.leb_le in Hd. eexists; exists a. split; [reflexivity|].
      cbn [ctl_state]. rewrite admitted_done by lia. rewrite app_nil_r.
      split; [reflexivity|]. cbn [length]. lia.
    + apply Z.leb_gt in Hd. cbn [admitted length].
      destruct ((from <=? a) && (a <? to)).
      * destruct (IH (a + 1) (acc ++ [x])) as (c & a' & Hc & Hs & Ha).
        injection Hc as Hc. exists c, a'. rewrite Hc.
        split; [reflexivity|]. rewrite Hs, <- app_assoc.
        split; [reflexivity|]. destruct c; lia.
      * destruct (IH (a + 1) acc) as (c & a' & Hc & Hs & Ha).
        injection Hc as Hc. exists c, a'. rewrite Hc.
        split; [reflexivity|]. rewrite Hs. split; [reflexivity|].
        destruct c; lia.
Qed.

Lemma counts_comp {X Y : Type} (f : X -> Y)
  (run : Y -> Iterator * list A -> Go (Ctl (Iterator * list A)))
  (items : Y -> list A) :
  counts from to run items ->
  counts from to (fun x st => run (f x) st) (fun x => items (f x)).
Proof. intros Hc x a acc. apply Hc. Qed.

(** With no range the iterator admits every element that passes the test. *)
Lemma unbounded_filtered (p : A -> bool)
  (body : A -> Iterator * list A -> Ctl (Iterator * list A)) (l : list A) :
  (forall x it acc,
     body x (it, acc) =
     if Done it then Break (it, acc)
     else if p x then paginate x (it, acc) else Continue (it, acc)) ->
  forall a acc,
    snd (ctl_state (for_range body l (mkIterator a None, acc))) =
    acc ++ List.filter p l.
Proof.
  intros Hbody. induction l as [|x l IH]; intros a acc; cbn [for_range List.filter].
  - simpl. now rewrite app_nil_r.
  - rewrite Hbody. unfold Done at 1. cbn [it_bounds].
    destruct (p x); [|apply IH].
    unfold paginate, Done, Next. cbn [it_bounds it_at].
    rewrite IH. now rewrite <- app_assoc.
Qed.

End CountingSteps.

Lemma GraphTraversalV_Has_body_shape `{Externals} (filter : Filter) (n : Node)
  (it : Iterator) (nodes : list Node) :
  GraphTraversalV_Has_body filter n (it, nodes) =
  if Done it then Break (it, nodes)
  else if Filter_Eval filter n then paginate n (it, nodes) else Continue (it, nodes).
Proof.
  unfold GraphTraversalV_Has_body, paginate. now destruct (Done it).
Qed.

(** [Has(k, v, ...)] on a node step keeps, in their order, the nodes that
    the filter built from the arguments accepts; under a range [[from, to)]
    it keeps those of them whose index among the accepted nodes falls in
    the range. *)
Lemma Has_filters_and_counts `{Externals} (tv : GraphTraversalV)
  (gt : GraphTraversal) (k v : Param) (rest : list Param) (filter : Filter) :
  tv_error tv = None ->
  tv_GraphTraversal tv = Some gt ->
  ParamsToFilter (k :: v :: rest) = inl filter ->
  GraphTraversalV_Has tv (k :: v :: rest) =
  Ok (mkGraphTraversalV (Some gt)
        match PaginationRange (currentStepContext gt) with
        | None => List.filter (Filter_Eval filter) (tv_nodes tv)
        | Some (from, to) =>
            admitted from to 0 (List.filter (Filter_Eval filter) (tv_nodes tv))
        end
        None).
Proof.
  intros He Hgt Hf.
  assert (Hnodes :
    snd (ctl_state
           (for_range (GraphTraversalV_Has_body filter) (tv_nodes tv)
              (Range_Iterator (PaginationRange (currentStepContext gt)), []))) =
    match PaginationRange (currentStepContext gt) with
    | None => List.filter (Filter_Eval filter) (tv_nodes tv)
    | Some (from, to) =>
        admitted from to 0 (List.filter (Filter_Eval filter) (tv_nodes tv))
    end).
  { destruct (PaginationRange (currentStepContext gt)) as [[from to]|].
    - destruct (counts_filtered from to (Filter_Eval filter)
                  (GraphTraversalV_Has_body filter)
                  (GraphTraversalV_Has_body_shape filter) (tv_nodes tv) 0 [])
        as (c & a' & Hc & Hs & _).
      injection Hc as Hc. unfold Range_Iterator, NewIterator.
      rewrite Hc, Hs. reflexivity.
    - unfold Range_Iterator, NewIterator.
      now rewrite (unbounded_filtered (Filter_Eval filter)
                     (GraphTraversalV_Has_body filter) (tv_nodes tv)
                     (GraphTraversalV_Has_body_shape filter)). }
  unfold GraphTraversalV_Has. rewrite He.
  destruct k; rewrite Hgt; cbn [deref mbind Go_bind]; rewrite Hf, Hnodes;
    reflexivity.
Qed.

Lemma Has_filters_and_counts_witness :
  @GraphTraversalV_Has Sample.externals
    (mkGraphTraversalV (Some (Sample.range 1 2))
       [Sample.host1; Sample.br1; Sample.host2] None)
    [PString "Type"; PString "host"] =
  Ok (mkGraphTraversalV (Some (Sample.range 1 2)) [Sample.host2] None).
Proof.
  apply (@Has_filters_and_counts Sample.externals
           (mkGraphTraversalV (Some (Sample.range 1 2))
              [Sample.host1; Sample.br1; Sample.host2] None)
           (Sample.range 1 2) (PString "Type") (PString "host") []
           (AndFilter [TermStringFilter "Type" "host"])); reflexivity.
Defined.

Lemma kept_filtered {A : Type} (r : option GraphTraversalRange) (p : A -> bool)
  (body : A -> Iterator * list A -> Ctl (Iterator * list A)) (l : list A) :
  (forall x it acc,
     body x (it, acc) =
     if Done it then Break (it, acc)
     else if p x then paginate x (it, acc) else Continue (it, acc)) ->
  snd (ctl_state (for_range body l (Range_Iterator r, []))) =
  kept r (List.filter p l).
Proof.
  intros Hbody. destruct r as [[from to]|]; unfold kept, Range_Iterator, NewIterator.
  - destruct (counts_filtered from to p body Hbody l 0 []) as (c & a' & Hc & Hs & _).
    injection Hc as Hc. now rewrite Hc, Hs.
  - now rewrite (unbounded_filtered p body l Hbody).
Qed.

Lemma GraphTraversalV_hasKey_nodes (k : string) (l : list Node) :
  forall acc,
    fold_left
      (fun nodes n =>
         match node_metadata n !! k with
         | Some _ => nodes ++ [n]
         | None => nodes
         end) l acc =
    acc ++ List.filter (fun n => has_key (node_metadata n) k) l.
Proof.
  induction l as [|n l IH]; intros acc; simpl.
  - now rewrite app_nil_r.
  - rewrite IH. unfold has_key. destruct (node_metadata n !! k); [|reflexivity].
    now rewrite <- app_assoc.
Qed.

Lemma GraphTraversalE_hasKey_body_shape (k : string) (e : Edge) (it : Iterator)
  (edges : list Edge) :
  GraphTraversalE_hasKey_body k e (it, edges) =
  if Done it then Break (it, edges)
  else if has_key (edge_metadata e) k then paginate e (it, edges)
       else Continue (it, edges).
Proof.
  unfold GraphTraversalE_hasKey_body, paginate, has_key.
  destruct (Done it); [reflexivity|]. now destruct (edge_metadata e !! k).
Qed.

(** [Has(k)] with a key alone keeps the elements whose metadata binds the
    key.  On a node step the pagination range is not consulted: every such
    node is kept, also under a range, and also when the step belongs to no
    traversal.  On an edge step the range applies. *)
Lemma Has_key_counts_edges_only `{Externals} (tv : GraphTraversalV)
  (te : GraphTraversalE) (gt : GraphTraversal) (k : string) :
  tv_error tv = None ->
  te_error te = None ->
  te_GraphTraversal te = Some gt ->
  GraphTraversalV_Has tv [PString k] =
    Ok (mkGraphTraversalV (tv_GraphTraversal tv)
          (List.filter (fun n => has_key (node_metadata n) k) (tv_nodes tv)) None) /\
  GraphTraversalE_Has te [PString k] =
    Ok (mkGraphTraversalE (Some gt)
          (kept (PaginationRange (currentStepContext gt))
             (List.filter (fun e => has_key (edge_metadata e) k) (te_edges te)))
          None).
Proof.
  intros Hv He Hgt. split.
  - unfold GraphTraversalV_Has, GraphTraversalV_hasKey. rewrite Hv.
    now rewrite GraphTraversalV_hasKey_nodes.
  - unfold GraphTraversalE_Has, GraphTraversalE_hasKey. rewrite He, Hgt.
    cbn [deref mbind Go_bind].
    now rewrite (kept_filtered _ _ _ _ (GraphTraversalE_hasKey_body_shape k)).
Qed.

Lemma Has_key_counts_edges_only_witness :
  @GraphTraversalV_Has Sample.externals
    (mkGraphTraversalV (Some (Sample.range 0 1))
       [Sample.host1; Sample.br1; Sample.host2] None)
    [PString "RelationType"] =
    Ok (mkGraphTraversalV (Some (Sample.range 0 1)) [] None) /\
  @GraphTraversalE_Has Sample.externals
    (mkGraphTraversalE (Some (Sample.range 0 1)) [Sample.own1; Sample.own2] None)
    [PString "RelationType"] =
    Ok (mkGraphTraversalE (Some (Sample.range 0 1)) [Sample.own1] None).
Proof.
  exact (@Has_key_counts_edges_only Sample.externals
           (mkGraphTraversalV (Some (Sample.range 0 1))
              [Sample.host1; Sample.br1; Sample.host2] None)
           (mkGraphTraversalE (Some (Sample.range 0 1))
              [Sample.own1; Sample.own2] None)
           (Sample.range 0 1) "RelationType" eq_refl eq_refl eq_refl).
Defined.

Section Paginating.

Context {A : Type}.

Lemma passes_prefiltered (p : A -> bool)
  (body : A -> Iterator * list A -> Ctl (Iterator * list A)) :
  (forall x st, body x st = if p x then paginate x st else Continue st) ->
  passes (fun l st => Ok (for_range body l st)) (List.filter p).
Proof.
  intros Hbody l. induction l as [|x l IH]; intros a acc; cbn [for_range List.filter].
  - simpl. now rewrite app_nil_r, Z.add_0_r.
  - rewrite Hbody. destruct (p x); [|apply IH].
    unfold paginate, Done, Next. cbn [it_bounds it_at].
    rewrite IH. cbn [length]. rewrite <- app_assoc. do 3 f_equal. f_equal. lia.
Qed.

Lemma paginates_prefiltered (p : A -> bool)
  (body : A -> Iterator * list A -> Ctl (Iterator * list A)) :
  (forall x st, body x st = if p x then paginate x st else Continue st) ->
  paginates (fun l st => Ok (for_range body l st)) (List.filter p).
Proof.
  intros Hbody. split.
  - intros from to. now apply counts_prefiltered.
  - now apply passes_prefiltered.
Qed.

Lemma filter_true (l : list A) : List.filter (fun _ => true) l = l.
Proof. induction l as [|x l IH]; simpl; [reflexivity|now rewrite IH]. Qed.

Lemma paginates_paginate :
  paginates (fun (l : list A) st => Ok (for_range paginate l st)) id.
Proof.
  destruct (paginates_prefiltered (fun _ => true) paginate) as [Hc Hp];
    [reflexivity|].
  split.
  - intros from to l a acc. destruct (Hc from to l a acc) as (c & a' & H1 & H2 & H3).
    rewrite filter_true in H2, H3. exists c, a'. auto.
  - intros l a acc. rewrite (Hp l a acc). now rewrite filter_true.
Qed.

Lemma passes_for_rangeM {X : Type}
  (run : X -> Iterator * list A -> Go (Ctl (Iterator * list A)))
  (items : X -> list A) :
  passes run items ->
  passes (fun l st => for_rangeM run l st) (flat_map items).
Proof.
  intros Hrun l. induction l as [|x l IH]; intros a acc; cbn [for_rangeM flat_map].
  - simpl. now rewrite app_nil_r, Z.add_0_r.
  - rewrite Hrun. unfold mbind, Go_bind. rewrite IH.
    rewrite length_app, <- app_assoc. do 3 f_equal. f_equal. lia.
Qed.

Lemma paginates_for_rangeM {X : Type}
  (run : X -> Iterator * list A -> Go (Ctl (Iterator * list A)))
  (items : X -> list A) :
  paginates run items ->
  paginates (fun l st => for_rangeM run l st) (flat_map items).
Proof.
  intros [Hc Hp]. split.
  - intros from to. now apply counts_for_rangeM.
  - now apply passes_for_rangeM.
Qed.

Lemma paginates_plain_break {X : Type}
  (run : X -> Iterator * list A -> Go (Ctl (Iterator * list A)))
  (items : X -> list A) :
  paginates run items ->
  paginates (fun x st => c ← run x st; Ok (Continue (ctl_state c))) items.
Proof.
  intros [Hc Hp]. split.
  - intros from to. now apply counts_plain_break.
  - intros x a acc. now rewrite Hp.
Qed.

Lemma paginates_comp {X Y : Type} (f : X -> Y)
  (run : Y -> Iterator * list A -> Go (Ctl (Iterator * list A)))
  (items : Y -> list A) :
  paginates run items ->
  paginates (fun x st => run (f x) st) (fun x => items (f x)).
Proof.
  intros [Hc Hp]. split.
  - intros from to x a acc. apply Hc.
  - intros x a acc. apply Hp.
Qed.

Lemma paginates_ext {X : Type}
  (run run' : X -> Iterator * list A -> Go (Ctl (Iterator * list A)))
  (items items' : X -> list A) :
  (forall x st, run' x st = run x st) ->
  (forall x, items' x = items x) ->
  paginates run items -> paginates run' items'.
Proof.
  intros Hr Hi [Hc Hp]. split.
  - intros from to. now apply (counts_ext from to run run' items items').
  - intros x a acc. rewrite Hr, Hi. apply Hp.
Qed.

(** What a step keeps of the elements of a loop that paginates. *)
Lemma paginates_result {X : Type}
  (run : X -> Iterator * list A -> Go (Ctl (Iterator * list A)))
  (items : X -> list A) (r : option GraphTraversalRange) (x : X) :
  paginates run items ->
  exists c,
    run x (Range_Iterator r, []) = Ok c /\
    snd (ctl_state c) = kept r (items x).
Proof.
  intros [Hc Hp]. destruct r as [[from to]|]; unfold kept.
  - now apply counts_result.
  - unfold Range_Iterator, NewIterator. rewrite Hp. eexists. split; reflexivity.
Qed.

End Paginating.

Lemma paginates_pointwise {X A : Type}
  (run : X -> Iterator * list A -> Go (Ctl (Iterator * list A)))
  (items : X -> list A) :
  (forall x, paginates (fun (_ : unit) st => run x st) (fun _ => items x)) ->
  paginates run items.
Proof.
  intros Hx. split.
  - intros from to x a acc. exact (proj1 (Hx x) from to tt a acc).
  - intros x a acc. exact (proj2 (Hx x) tt a acc).
Qed.

(** [V] under a pagination range returns what it returns without the
    range, cut to the range: the nodes of index [from] to [to - 1] when a
    range is set. *)
Lemma V_under_a_range `{Externals} (t : GraphTraversal) (s : list Param)
  (tv0 : GraphTraversalV) :
  V (without_range t) s = Ok tv0 ->
  tv_error tv0 = None ->
  V t s =
  Ok (mkGraphTraversalV (Some t)
        (kept (PaginationRange (currentStepContext t)) (tv_nodes tv0)) None).
Proof.
  unfold V, without_range. cbn [gt_error gt_Graph currentStepContext PaginationRange].
  destruct (gt_error t) as [e|]; [intros [= <-]; discriminate|].
  match goal with
  | |- (?r ≫= _) = _ -> _ => destruct r as [[nodes|err]|msg]
  end; unfold mbind, Go_bind; try discriminate.
  - intros [= <-] _. cbn [tv_nodes]. f_equal. f_equal.
    destruct (PaginationRange (currentStepContext t)) as [[from to]|];
      [|reflexivity].
    destruct (paginates_result _ _ (Some (from, to)) nodes (@paginates_paginate Node))
      as (c & Hc & Hs).
    injection Hc as Hc. unfold Range_Iterator, NewIterator.
    now rewrite Hc, Hs.
  - intros [= <-]. discriminate.
Qed.

Lemma V_under_a_range_witness :
  @V Sample.externals (Sample.range 1 2) [] =
  Ok (mkGraphTraversalV (Some (Sample.range 1 2))
        (kept (Some (1, 2)) [Sample.host1; Sample.host2; Sample.br1]) None).
Proof.
  apply (@V_under_a_range Sample.externals (Sample.range 1 2) []
           (mkGraphTraversalV (Some (without_range (Sample.range 1 2)))
              [Sample.host1; Sample.host2; Sample.br1] None)); reflexivity.
Defined.

(** [InV] and [OutV] under a pagination range return the parents, or the
    children, of the edges whose running index falls in the range, although
    their inner loop leaves with a plain [break]; without a range they
    return them all. *)
Lemma InV_and_OutV_paginate `{Externals} (te : GraphTraversalE)
  (gt : GraphTraversal) (g : Graph) (s : list Param) (metadata : MetadataMatch) :
  te_error te = None ->
  te_GraphTraversal te = Some gt ->
  gt_Graph gt = Some g ->
  SliceToMetadata s = inl metadata ->
  InV te s =
    Ok (mkGraphTraversalV (Some gt)
          (kept (PaginationRange (currentStepContext gt))
             (flat_map (fun e => fst (GetEdgeNodes g e metadata ∅)) (te_edges te)))
          None) /\
  OutV te s =
    Ok (mkGraphTraversalV (Some gt)
          (kept (PaginationRange (currentStepContext gt))
             (flat_map (fun e => snd (GetEdgeNodes g e ∅ metadata)) (te_edges te)))
          None).
Proof.
  intros He Hgt Hg Hs.
  assert (Hgen : forall (items : Edge -> list Node)
                        (body : Edge -> Iterator * list Node ->
                                Go (Ctl (Iterator * list Node))),
    (forall e st, body e st =
                  Ok (Continue (ctl_state (for_range paginate (items e) st)))) ->
    exists c,
      for_rangeM body (te_edges te)
        (Range_Iterator (PaginationRange (currentStepContext gt)), []) = Ok c /\
      snd (ctl_state c) =
        kept (PaginationRange (currentStepContext gt))
          (flat_map items (te_edges te))).
  { intros items body Hbody.
    apply (paginates_result (fun l st => for_rangeM body l st) (flat_map items)).
    apply paginates_for_rangeM.
    apply (paginates_ext
             (fun e st =>
                c ← (fun e st => Ok (for_range paginate (items e) st)) e st;
                Ok (Continue (ctl_state c)))
             body (fun e => id (items e)) items).
    - intros e st. now rewrite Hbody.
    - reflexivity.
    - apply paginates_plain_break.
      apply (paginates_comp items _ _ (@paginates_paginate Node)). }
  split.
  - unfold InV. rewrite He, Hs, Hgt. cbn [deref mbind Go_bind].
    destruct (Hgen (fun e => fst (GetEdgeNodes g e metadata ∅)) (InV_body gt metadata))
      as (c & Hc & Hn).
    { intros e st. unfold InV_body, graph_of. now rewrite Hg. }
    rewrite Hc. unfold mbind, Go_bind. now rewrite Hn.
  - unfold OutV. rewrite He, Hs, Hgt. cbn [deref mbind Go_bind].
    destruct (Hgen (fun e => snd (GetEdgeNodes g e ∅ metadata)) (OutV_body gt metadata))
      as (c & Hc & Hn).
    { intros e st. unfold OutV_body, graph_of. now rewrite Hg. }
    rewrite Hc. unfold mbind, Go_bind. now rewrite Hn.
Qed.

Lemma InV_and_OutV_paginate_witness :
  @InV Sample.externals
    (mkGraphTraversalE (Some (Sample.range 1 2)) [Sample.own1; Sample.own2] None) [] =
    Ok (mkGraphTraversalV (Some (Sample.range 1 2)) [Sample.host2] None) /\
  @OutV Sample.externals
    (mkGraphTraversalE (Some (Sample.range 1 2)) [Sample.own1; Sample.own2] None) [] =
    Ok (mkGraphTraversalV (Some (Sample.range 1 2)) [Sample.br1] None).
Proof.
  exact (@InV_and_OutV_paginate Sample.externals
           (mkGraphTraversalE (Some (Sample.range 1 2))
              [Sample.own1; Sample.own2] None)
           (Sample.range 1 2) Sample.graph [] ∅ eq_refl eq_refl eq_refl eq_refl).
Defined.

(** [InE] returns the edges of which a node of the step is the child, in
    the order of the nodes and of their edges; under a pagination range,
    those whose running index falls in the range. *)
Lemma InE_paginates `{Externals} (tv : GraphTraversalV) (gt : GraphTraversal)
  (g : Graph) (s : list Param) (metadata : MetadataMatch) :
  tv_error tv = None ->
  tv_GraphTraversal tv = Some gt ->
  gt_Graph gt = Some g ->
  SliceToMetadata s = inl metadata ->
  InE tv s =
  Ok (mkGraphTraversalE (Some gt)
        (kept (PaginationRange (currentStepContext gt))
           (flat_map (incoming_edges g metadata) (tv_nodes tv)))
        None).
Proof.
  intros He Hgt Hg Hs. unfold InE. rewrite He, Hs, Hgt. cbn [deref mbind Go_bind].
  destruct (paginates_result
              (fun l st => for_rangeM (InE_body gt metadata) l st)
              (flat_map (incoming_edges g metadata))
              (PaginationRange (currentStepContext gt)) (tv_nodes tv))
    as (c & Hc & Hn).
  { apply paginates_for_rangeM, paginates_pointwise. intros n.
    apply (paginates_ext
             (fun (_ : unit) st =>
                Ok (for_range (InE_inner n) (GetNodeEdges g n metadata) st))
             _ (fun _ => List.filter (fun e => bool_decide (GetChild e = node_ID n))
                           (GetNodeEdges g n metadata)) _).
    - intros _ st. unfold InE_body, graph_of, pure_loop. now rewrite Hg.
    - reflexivity.
    - apply (paginates_comp (fun _ : unit => GetNodeEdges g n metadata)
               (fun l st => Ok (for_range (InE_inner n) l st))).
      apply paginates_prefiltered. reflexivity. }
  rewrite Hc. unfold mbind, Go_bind. now rewrite Hn.
Qed.

Lemma InE_paginates_witness :
  @InE Sample.externals
    (mkGraphTraversalV (Some (Sample.range 1 2)) [Sample.host1; Sample.br1] None) [] =
  Ok (mkGraphTraversalE (Some (Sample.range 1 2)) [Sample.own2] None).
Proof.
  exact (@InE_paginates Sample.externals
           (mkGraphTraversalV (Some (Sample.range 1 2))
              [Sample.host1; Sample.br1] None)
           (Sample.range 1 2) Sample.graph [] ∅ eq_refl eq_refl eq_refl eq_refl).
Defined.

(** [Both] returns, for every node of the step and every edge of the node,
    the matching nodes at the other end of the edge (the parents when the
    node is the child of the edge, the children otherwise); under a
    pagination range, those whose running index falls in the range. *)
Lemma Both_paginates `{Externals} (tv : GraphTraversalV) (gt : GraphTraversal)
  (g : Graph) (s : list Param) (metadata : MetadataMatch) :
  tv_error tv = None ->
  tv_GraphTraversal tv = Some gt ->
  gt_Graph gt = Some g ->
  SliceToMetadata s = inl metadata ->
  Both tv s =
  Ok (mkGraphTraversalV (Some gt)
        (kept (PaginationRange (currentStepContext gt))
           (flat_map
              (fun n => flat_map (Both_neighbours g metadata n) (GetNodeEdges g n ∅))
              (tv_nodes tv)))
        None).
Proof.
  intros He Hgt Hg Hs. unfold Both. rewrite He, Hs, Hgt. cbn [deref mbind Go_bind].
  destruct (paginates_result
              (fun l st => for_rangeM (Both_body gt metadata) l st)
              (flat_map
                 (fun n => flat_map (Both_neighbours g metadata n)
                             (GetNodeEdges g n ∅)))
              (PaginationRange (currentStepContext gt)) (tv_nodes tv))
    as (c & Hc & Hn).
  { apply paginates_for_rangeM, paginates_pointwise. intros n.
    apply (paginates_ext
             (fun (_ : unit) st =>
                for_rangeM
                  (fun e st =>
                     Ok (for_range paginate (Both_neighbours g metadata n e) st))
                  (GetNodeEdges g n ∅) st)
             _ (fun _ => flat_map (fun e => id (Both_neighbours g metadata n e))
                           (GetNodeEdges g n ∅)) _).
    - intros _ st. unfold Both_body, graph_of, pure_loop, Both_neighbours.
      now rewrite Hg.
    - reflexivity.
    - apply (paginates_comp (fun _ : unit => GetNodeEdges g n ∅)
               (fun l st =>
                  for_rangeM
                    (fun e st =>
                       Ok (for_range paginate (Both_neighbours g metadata n e) st))
                    l st)).
      apply paginates_for_rangeM.
      apply (paginates_comp (Both_neighbours g metadata n) _ _
               (@paginates_paginate Node)). }
  rewrite Hc. unfold mbind, Go_bind. now rewrite Hn.
Qed.

Lemma Both_paginates_witness :
  @Both Sample.externals
    (mkGraphTraversalV (Some (Sample.range 1 3)) [Sample.br1; Sample.host1] None) [] =
  Ok (mkGraphTraversalV (Some (Sample.range 1 3)) [Sample.host2; Sample.br1] None).
Proof.
  exact (@Both_paginates Sample.externals
           (mkGraphTraversalV (Some (Sample.range 1 3))
              [Sample.br1; Sample.host1] None)
           (Sample.range 1 3) Sample.graph [] ∅ eq_refl eq_refl eq_refl eq_refl).
Defined.

Lemma GraphTraversalE_Has_body_shape `{Externals} (m : MetadataMatch) (e : Edge)
  (it : Iterator) (edges : list Edge) :
  GraphTraversalE_Has_body m e (it, edges) =
  if Done it then Break (it, edges)
  else if MatchMetadata e m then paginate e (it, edges) else Continue (it, edges).
Proof.
  unfold GraphTraversalE_Has_body, paginate. now destruct (Done it).
Qed.

(** [Has(k, v, ...)] on an edge step keeps, in their order, the edges whose
    metadata matches the metadata built from the arguments; under a range,
    those of them whose index among the matching edges falls in the
    range. *)
Lemma Edge_Has_filters_and_counts `{Externals} (te : GraphTraversalE)
  (gt : GraphTraversal) (k v : Param) (rest : list Param) (m : MetadataMatch) :
  te_error te = None ->
  te_GraphTraversal te = Some gt ->
  SliceToMetadata (k :: v :: rest) = inl m ->
  GraphTraversalE_Has te (k :: v :: rest) =
  Ok (mkGraphTraversalE (Some gt)
        (kept (PaginationRange (currentStepContext gt))
           (List.filter (fun e => MatchMetadata e m) (te_edges te)))
        None).
Proof.
  intros He Hgt Hs.
  pose proof (kept_filtered (PaginationRange (currentStepContext gt))
                (fun e => MatchMetadata e m) (GraphTraversalE_Has_body m)
                (te_edges te) (GraphTraversalE_Has_body_shape m)) as Hn.
  unfold GraphTraversalE_Has. rewrite He.
  destruct k; rewrite Hs, Hgt; cbn [deref mbind Go_bind]; rewrite Hn; reflexivity.
Qed.

Lemma Edge_Has_filters_and_counts_witness :
  @GraphTraversalE_Has Sample.externals
    (mkGraphTraversalE (Some (Sample.range 1 2)) [Sample.own1; Sample.own2] None)
    [PString "RelationType"; PString "ownership"] =
  Ok (mkGraphTraversalE (Some (Sample.range 1 2)) [Sample.own2] None).
Proof.
  apply (@Edge_Has_filters_and_counts Sample.externals
           (mkGraphTraversalE (Some (Sample.range 1 2))
              [Sample.own1; Sample.own2] None)
           (Sample.range 1 2) (PString "RelationType") (PString "ownership") []
           {["RelationType" := MFilter (TermStringFilter "RelationType" "ownership")]});
    reflexivity.
Defined.

(** ** What Dedup keeps *)

Lemma visited_identifier (id : Identifier) (visited : list MapKey) :
  existsb (MapKey_eqb (KIdentifier id)) visited = true <->
  In (KIdentifier id) visited.
Proof.
  rewrite existsb_exists. split.
  - intros (k & Hin & Heq). destruct k; simpl in Heq; try discriminate.
    apply bool_decide_eq_true in Heq. now subst.
  - intros Hin. exists (KIdentifier id). split; [exact Hin|].
    simpl. now apply bool_decide_eq_true.
Qed.

Lemma Dedup_body_by_identifier `{Externals} (n : Node) (st : DedupState) :
  GraphTraversalV_Dedup_body [] n st =
  Ok (if Done (ds_it st) then Break st
      else if existsb (MapKey_eqb (KIdentifier (node_ID n))) (ds_visited st)
      then Continue st
      else if snd (Next (ds_it st))
      then Continue (mkDedupState (fst (Next (ds_it st)))
                       (KIdentifier (node_ID n) :: ds_visited st)
                       (ds_nodes st ++ [n]))
      else Continue (mkDedupState (fst (Next (ds_it st)))
                       (ds_visited st) (ds_nodes st))).
Proof.
  unfold GraphTraversalV_Dedup_body, GraphTraversalV_Dedup_visit, visited_lookup,
    visited_insert.
  destruct (Done (ds_it st)); [reflexivity|]. cbn [hashable].
  destruct (existsb _ _); [reflexivity|].
  destruct (Next (ds_it st)) as [it' []]; reflexivity.
Qed.

(** The invariant of the loop of the node [Dedup] without keys: the nodes
    kept so far have distinct identifiers, all of them visited. *)
Lemma Dedup_by_identifier_loop `{Externals} (l : list Node) :
  forall st,
    NoDup (map node_ID (ds_nodes st)) ->
    (forall n, In n (ds_nodes st) -> In (KIdentifier (node_ID n)) (ds_visited st)) ->
    exists c out,
      for_rangeM (GraphTraversalV_Dedup_body []) l st = Ok c /\
      ds_nodes (ctl_state c) = ds_nodes st ++ out /\
      sublist out l /\
      NoDup (map node_ID (ds_nodes (ctl_state c))).
Proof.
  induction l as [|n l IH]; intros st Hnd Hvis; cbn [for_rangeM].
  - exists (Continue st), []. split; [reflexivity|]. simpl.
    rewrite app_nil_r. repeat split; [constructor|exact Hnd].
  - rewrite Dedup_body_by_identifier. unfold mbind, Go_bind.
    destruct (Done (ds_it st)).
    { exists (Break st), []. split; [reflexivity|]. simpl. rewrite app_nil_r.
      repeat split; [apply sublist_nil_l|exact Hnd]. }
    destruct (existsb (MapKey_eqb (KIdentifier (node_ID n))) (ds_visited st)) eqn:Hv.
    { destruct (IH st Hnd Hvis) as (c & out & Hc & Hn & Hsub & Hnd').
      exists c, out. split; [exact Hc|]. split; [exact Hn|].
      split; [now apply sublist_cons|exact Hnd']. }
    destruct (snd (Next (ds_it st))).
    + assert (Hfresh : ~ In (node_ID n) (map node_ID (ds_nodes st))).
      { intros Hin. apply in_map_iff in Hin as (n' & Hid & Hin').
        apply Hvis in Hin'. rewrite Hid in Hin'.
        apply visited_identifier in Hin'. congruence. }
      destruct (IH (mkDedupState (fst (Next (ds_it st)))
                      (KIdentifier (node_ID n) :: ds_visited st)
                      (ds_nodes st ++ [n])))
        as (c & out & Hc & Hn & Hsub & Hnd').
      * cbn [ds_nodes]. rewrite map_app. apply NoDup_app. split; [exact Hnd|].
        split; [|apply NoDup_singleton].
        intros id Hin Hin'. apply list_elem_of_In in Hin.
        apply list_elem_of_singleton in Hin'. subst id. contradiction.
      * cbn [ds_nodes ds_visited]. intros n' Hin'.
        apply in_app_or in Hin' as [Hin'|[->|[]]].
        -- right. now apply Hvis.
        -- now left.
      * exists c, (n :: out). split; [exact Hc|]. cbn [ds_nodes] in Hn.
        split; [now rewrite Hn, <- app_assoc|].
        split; [now apply sublist_skip|exact Hnd'].
    + destruct (IH (mkDedupState (fst (Next (ds_it st))) (ds_visited st)
                      (ds_nodes st)) Hnd Hvis)
        as (c & out & Hc & Hn & Hsub & Hnd').
      exists c, out. split; [exact Hc|]. split; [exact Hn|].
      split; [now apply sublist_cons|exact Hnd'].
Qed.

Lemma Dedup_unbounded_covers `{Externals} (l : list Node) :
  forall visited n,
    In n l ->
    In (KIdentifier (node_ID n)) visited \/
    In (node_ID n) (map node_ID (Dedup_unbounded [] visited l)).
Proof.
  induction l as [|x l IH]; intros visited n Hin; [destruct Hin|].
  cbn [Dedup_unbounded Dedup_key].
  destruct (existsb (MapKey_eqb (KIdentifier (node_ID x))) visited) eqn:Hv.
  - destruct Hin as [->|Hin]; [|now apply IH].
    left. now apply visited_identifier.
  - destruct Hin as [->|Hin]; [right; now left|].
    destruct (IH (KIdentifier (node_ID x) :: visited) n Hin) as [[Heq|Hvis]|Hout].
    + right. left. congruence.
    + now left.
    + right. now right.
Qed.

(** [Dedup()] without keys, applied to a node step that carries no error,
    never panics and returns a subsequence of the nodes of the step in
    which no identifier occurs twice, with or without a pagination range;
    without a range every identifier of the step occurs in it. *)
Lemma Dedup_by_identifier_is_duplicate_free `{Externals} (tv : GraphTraversalV)
  (gt : GraphTraversal) :
  tv_error tv = None ->
  tv_GraphTraversal tv = Some gt ->
  exists nodes,
    GraphTraversalV_Dedup tv [] = Ok (mkGraphTraversalV (Some gt) nodes None) /\
    NoDup (map node_ID nodes) /\
    sublist nodes (tv_nodes tv) /\
    (PaginationRange (currentStepContext gt) = None ->
     forall n, In n (tv_nodes tv) -> In (node_ID n) (map node_ID nodes)).
Proof.
  intros He Hgt. unfold GraphTraversalV_Dedup. rewrite He, Hgt.
  cbn [Dedup_keys deref mbind Go_bind].
  destruct (Dedup_by_identifier_loop (tv_nodes tv)
              (mkDedupState
                 (Range_Iterator (PaginationRange (currentStepContext gt))) [] []))
    as (c & out & Hc & Hn & Hsub & Hnd).
  { constructor. }
  { intros n []. }
  exists (ds_nodes (ctl_state c)). rewrite Hc.
  split; [reflexivity|]. split; [exact Hnd|].
  cbn [ds_nodes app] in Hn. rewrite Hn. split; [exact Hsub|].
  intros Hr n Hin.
  rewrite Hr in Hc.
  destruct (Dedup_loop_unbounded [] (tv_nodes tv)
              (mkDedupState (Range_Iterator None) [] []) eq_refl)
    as (st' & Hc' & Hn').
  rewrite Hc in Hc'. injection Hc' as ->. cbn [ctl_state] in Hn.
  rewrite Hn in Hn'. cbn [ds_nodes ds_visited app] in Hn'. rewrite Hn'.
  destruct (Dedup_unbounded_covers (tv_nodes tv) [] n Hin) as [[]|Hout].
  exact Hout.
Qed.

Lemma Dedup_by_identifier_is_duplicate_free_witness :
  exists nodes,
    @GraphTraversalV_Dedup Sample.externals SampleSteps.nodes_twice [] =
      Ok (mkGraphTraversalV (Some SampleSteps.g) nodes None) /\
    NoDup (map node_ID nodes) /\
    sublist nodes (tv_nodes SampleSteps.nodes_twice) /\
    (PaginationRange (currentStepContext SampleSteps.g) = None ->
     forall n, In n (tv_nodes SampleSteps.nodes_twice) ->
               In (node_ID n) (map node_ID nodes)).
Proof.
  exact (@Dedup_by_identifier_is_duplicate_free Sample.externals
           SampleSteps.nodes_twice SampleSteps.g eq_refl eq_refl).
Defined.

Lemma Dedup_keys_strings (keys acc : list string) :
  Dedup_keys (map PString keys) acc = Some (acc ++ keys).
Proof.
  revert acc. induction keys as [|k keys IH]; intros acc; simpl.
  - now rewrite app_nil_r.
  - rewrite IH. now rewrite <- app_assoc.
Qed.

Lemma Dedup_values_fields (n : Node) (keys : list string) :
  is_Some (Dedup_values n keys) ->
  forall key, In key keys -> is_Some (GetField (node_metadata n) key).
Proof.
  induction keys as [|k keys IH]; intros Hs key Hin; [destruct Hin|].
  simpl in Hs. destruct (GetField (node_metadata n) k) as [v|] eqn:Hk.
  - destruct Hin as [<-|Hin]; [rewrite Hk; eauto|].
    apply IH; [|exact Hin]. destruct (Dedup_values n keys); [eauto|].
    simpl in Hs. destruct Hs as [? Hs]. discriminate.
  - destruct Hs as [? Hs]. discriminate.
Qed.

Lemma Dedup_body_by_keys `{Externals} (k : string) (keys : list string) (n : Node)
  (st : DedupState) :
  exists c,
    GraphTraversalV_Dedup_body (k :: keys) n st = Ok c /\
    (ds_nodes (ctl_state c) = ds_nodes st \/
     (is_Some (Dedup_values n (k :: keys)) /\
      ds_nodes (ctl_state c) = ds_nodes st ++ [n])).
Proof.
  unfold GraphTraversalV_Dedup_body.
  destruct (Done (ds_it st)); [exists (Break st); auto|].
  destruct (Dedup_values n (k :: keys)) as [values|]; [|exists (Continue st); auto].
  destruct (hashstructure_Hash values) as [h err].
  unfold GraphTraversalV_Dedup_visit, visited_lookup. cbn [hashable].
  destruct (existsb _ _); [exists (Continue st); auto|].
  destruct (Next (ds_it st)) as [it' []]; cbn [negb];
    eexists; (split; [reflexivity|]); cbn [ctl_state ds_nodes].
  - right. split; [eexists; reflexivity|reflexivity].
  - now left.
Qed.

Lemma Dedup_by_keys_loop `{Externals} (k : string) (keys : list string)
  (l : list Node) :
  forall st,
    exists c out,
      for_rangeM (GraphTraversalV_Dedup_body (k :: keys)) l st = Ok c /\
      ds_nodes (ctl_state c) = ds_nodes st ++ out /\
      sublist out l /\
      Forall (fun n => is_Some (Dedup_values n (k :: keys))) out.
Proof.
  induction l as [|n l IH]; intros st; cbn [for_rangeM].
  - exists (Continue st), []. split; [reflexivity|]. simpl.
    rewrite app_nil_r. repeat split; constructor.
  - destruct (Dedup_body_by_keys k keys n st) as (c & -> & Hc).
    unfold mbind, Go_bind. destruct c as [st'|st']; cbn [ctl_state] in Hc.
    + destruct (IH st') as (c & out & Hl & Hn & Hsub & Hall).
      destruct Hc as [Hnodes|[Hsome Hnodes]].
      * exists c, out. split; [exact Hl|]. split; [now rewrite Hn, Hnodes|].
        split; [now apply sublist_cons|exact Hall].
      * exists c, (n :: out). split; [exact Hl|].
        split; [now rewrite Hn, Hnodes, <- app_assoc|].
        split; [now apply sublist_skip|now constructor].
    + destruct Hc as [Hnodes|[Hsome Hnodes]].
      * exists (Break st'), []. split; [reflexivity|]. cbn [ctl_state].
        rewrite app_nil_r. repeat split; [exact Hnodes|apply sublist_nil_l|constructor].
      * exists (Break st'), [n]. split; [reflexivity|]. split; [exact Hnodes|].
        split; [apply sublist_skip, sublist_nil_l|]. now repeat constructor.
Qed.

(** [Dedup(k1, k2, ...)] with string keys, applied to a node step that
    carries no error, never panics and returns a subsequence of the nodes of
    the step in which every node has a value for every one of the keys: a
    node that lacks one of them is dropped, whatever the range. *)
Lemma Dedup_by_keys_drops_nodes_without_the_fields `{Externals}
  (tv : GraphTraversalV) (gt : GraphTraversal) (k : string) (keys : list string) :
  tv_error tv = None ->
  tv_GraphTraversal tv = Some gt ->
  exists nodes,
    GraphTraversalV_Dedup tv (map PString (k :: keys)) =
      Ok (mkGraphTraversalV (Some gt) nodes None) /\
    sublist nodes (tv_nodes tv) /\
    forall n key,
      In n nodes -> In key (k :: keys) ->
      is_Some (GetField (node_metadata n) key).
Proof.
  intros He Hgt. unfold GraphTraversalV_Dedup. rewrite He, Hgt.
  rewrite Dedup_keys_strings. cbn [app deref mbind Go_bind].
  destruct (Dedup_by_keys_loop k keys (tv_nodes tv)
              (mkDedupState
                 (Range_Iterator (PaginationRange (currentStepContext gt))) [] []))
    as (c & out & Hc & Hn & Hsub & Hall).
  rewrite Hc. exists (ds_nodes (ctl_state c)). split; [reflexivity|].
  cbn [ds_nodes app] in Hn. rewrite Hn. split; [exact Hsub|].
  intros n key Hin Hkey. rewrite Forall_forall in Hall.
  apply (Dedup_values_fields n (k :: keys)); [|exact Hkey].
  apply Hall. now apply list_elem_of_In.
Qed.

Lemma Dedup_by_keys_drops_nodes_without_the_fields_witness :
  exists nodes,
    @GraphTraversalV_Dedup Sample.externals
      (mkGraphTraversalV (Some SampleSteps.g)
         [Sample.br1; Sample.br2; Sample.host1] None)
      (map PString ["Capture/ID"]) =
      Ok (mkGraphTraversalV (Some SampleSteps.g) nodes None) /\
    sublist nodes [Sample.br1; Sample.br2; Sample.host1] /\
    forall n key,
      In n nodes -> In key ["Capture/ID"] ->
      is_Some (GetField (node_metadata n) key).
Proof.
  exact (@Dedup_by_keys_drops_nodes_without_the_fields Sample.externals
           (mkGraphTraversalV (Some SampleSteps.g)
              [Sample.br1; Sample.br2; Sample.host1] None)
           SampleSteps.g "Capture/ID" [] eq_refl eq_refl).
Defined.

Example Dedup_by_Capture_ID :
  @GraphTraversalV_Dedup Sample.externals
    (mkGraphTraversalV (Some SampleSteps.g)
       [Sample.br1; Sample.br2; Sample.host1] None)
    [PString "Capture/ID"] =
  Ok (mkGraphTraversalV (Some SampleSteps.g) [Sample.br2] None).
Proof. vm_compute. reflexivity. Qed.

Lemma Edge_Dedup_out_unhashable (key : string) (e : Edge) (l : list Edge) :
  In e l ->
  hashable (Edge_Dedup_key key e) = false ->
  forall visited,
    Edge_Dedup_out key visited l = Panic "runtime error: hash of unhashable type".
Proof.
  intros Hin Hh. induction l as [|e0 l IH]; intros visited; [destruct Hin|].
  cbn [Edge_Dedup_out].
  destruct (hashable (Edge_Dedup_key key e0)) eqn:Hh0; [|reflexivity].
  assert (Hin' : In e l).
  { destruct Hin as [->|Hin]; [congruence|exact Hin]. }
  destruct (existsb _ _); [now apply IH|].
  now rewrite (IH Hin').
Qed.

(** [Dedup(key)] on an edge step panics as soon as one of the edges has a
    slice or a mapping as its value under the key: the value is used as the
    key of a Go map. *)
Lemma Edge_Dedup_panics_on_a_structured_value (te : GraphTraversalE)
  (key : string) (rest : list Param) (e : Edge) (v : Value) :
  te_error te = None ->
  key <> "" ->
  In e (te_edges te) ->
  edge_metadata e !! key = Some v ->
  hashable (KValue v) = false ->
  GraphTraversalE_Dedup te (PString key :: rest) =
    Panic "runtime error: hash of unhashable type".
Proof.
  intros He Hkey Hin Hv Hh. unfold GraphTraversalE_Dedup. rewrite He.
  pose proof (Edge_Dedup_loop key (te_edges te) [] []) as Hl.
  rewrite (Edge_Dedup_out_unhashable key e (te_edges te) Hin) in Hl.
  - now rewrite Hl.
  - unfold Edge_Dedup_key. rewrite bool_decide_eq_true_2 by exact Hkey.
    now rewrite Hv.
Qed.

Lemma Edge_Dedup_panics_on_a_structured_value_witness :
  GraphTraversalE_Dedup
    (mkGraphTraversalE (Some SampleSteps.g)
       [Sample.own1;
        mkEdge "e9" "h1" "b1" (Sample.md [("Tags", VSlice [VString "a"])])] None)
    [PString "Tags"] =
    Panic "runtime error: hash of unhashable type".
Proof.
  apply (Edge_Dedup_panics_on_a_structured_value
           (mkGraphTraversalE (Some SampleSteps.g)
              [Sample.own1;
               mkEdge "e9" "h1" "b1" (Sample.md [("Tags", VSlice [VString "a"])])]
              None)
           "Tags" []
           (mkEdge "e9" "h1" "b1" (Sample.md [("Tags", VSlice [VString "a"])]))
           (VSlice [VString "a"])).
  - reflexivity.
  - discriminate.
  - right. left. reflexivity.
  - reflexivity.
  - reflexivity.
Defined.

Lemma Edge_Dedup_out_by_identifier (l : list Edge) :
  forall visited,
    exists out,
      Edge_Dedup_out "" visited l = Ok out /\
      sublist out l /\
      NoDup (map edge_ID out) /\
      (forall e, In e out -> ~ In (KIdentifier (edge_ID e)) visited) /\
      (forall e, In e l ->
                 In (KIdentifier (edge_ID e)) visited \/
                 In (edge_ID e) (map edge_ID out)).
Proof.
  induction l as [|e l IH]; intros visited.
  - exists []. split; [reflexivity|]. split; [constructor|].
    split; [constructor|]. split; intros e [].
  - cbn [Edge_Dedup_out]. unfold Edge_Dedup_key.
    rewrite bool_decide_eq_false_2 by (intros Hne; now apply Hne).
    cbn [hashable].
    destruct (existsb (MapKey_eqb (KIdentifier (edge_ID e))) visited) eqn:Hv.
    + destruct (IH visited) as (out & Ho & Hsub & Hnd & Hfresh & Hcov).
      exists out. split; [exact Ho|]. split; [now apply sublist_cons|].
      split; [exact Hnd|]. split; [exact Hfresh|].
      intros e' [<-|Hin]; [left; now apply visited_identifier|now apply Hcov].
    + destruct (IH (KIdentifier (edge_ID e) :: visited))
        as (out & Ho & Hsub & Hnd & Hfresh & Hcov).
      exists (e :: out). rewrite Ho. split; [reflexivity|].
      split; [now apply sublist_skip|]. split.
      * cbn [map]. apply NoDup_cons. split; [|exact Hnd].
        intros Hin. apply list_elem_of_In, in_map_iff in Hin as (e' & Hid & Hin).
        apply (Hfresh e' Hin). left. now rewrite Hid.
      * split.
        -- intros e' [<-|Hin] Hvis.
           ++ apply visited_identifier in Hvis. congruence.
           ++ apply (Hfresh e' Hin). now right.
        -- intros e' [<-|Hin]; [right; now left|].
           destruct (Hcov e' Hin) as [[Heq|Hvis]|Hout].
           ++ right. left. congruence.
           ++ now left.
           ++ right. now right.
Qed.

(** [Dedup()] without key, applied to an edge step that carries no error,
    never panics and returns a subsequence of the edges of the step in which
    every identifier of the step occurs exactly once; the pagination range
    is not consulted. *)
Lemma Edge_Dedup_by_identifier (te : GraphTraversalE) :
  te_error te = None ->
  exists edges,
    GraphTraversalE_Dedup te [] =
      Ok (mkGraphTraversalE (te_GraphTraversal te) edges None) /\
    sublist edges (te_edges te) /\
    NoDup (map edge_ID edges) /\
    forall e, In e (te_edges te) -> In (edge_ID e) (map edge_ID edges).
Proof.
  intros He. unfold GraphTraversalE_Dedup. rewrite He.
  destruct (Edge_Dedup_out_by_identifier (te_edges te) [])
    as (out & Ho & Hsub & Hnd & _ & Hcov).
  pose proof (Edge_Dedup_loop "" (te_edges te) [] []) as Hl.
  rewrite Ho in Hl. destruct Hl as (visited' & Hl). rewrite Hl.
  exists out. split; [reflexivity|]. split; [exact Hsub|]. split; [exact Hnd|].
  intros e Hin. destruct (Hcov e Hin) as [[]|Hout]. exact Hout.
Qed.

Lemma Edge_Dedup_by_identifier_witness :
  exists edges,
    GraphTraversalE_Dedup SampleSteps.edges_twice [] =
      Ok (mkGraphTraversalE (te_GraphTraversal SampleSteps.edges_twice) edges None) /\
    sublist edges (te_edges SampleSteps.edges_twice) /\
    NoDup (map edge_ID edges) /\
    forall e, In e (te_edges SampleSteps.edges_twice) ->
              In (edge_ID e) (map edge_ID edges).
Proof.
  exact (Edge_Dedup_by_identifier SampleSteps.edges_twice eq_refl).
Defined.

(** ** From arguments to filters *)

Lemma ParamsToFilter_loop_strings `{Externals} (kvs : list (string * string)) :
  forall acc,
    ParamsToFilter_loop (string_pairs kvs) acc =
    inl (acc ++ map (fun kv => TermStringFilter (fst kv) (snd kv)) kvs).
Proof.
  induction kvs as [|[k v] kvs IH]; intros acc; simpl.
  - now rewrite app_nil_r.
  - unfold string_pairs in IH. rewrite IH. now rewrite <- app_assoc.
Qed.

Lemma SliceToMetadata_loop_strings `{Externals} (kvs : list (string * string)) :
  forall m,
    SliceToMetadata_loop (string_pairs kvs) m =
    inl (fold_left
           (fun m kv => <[fst kv := MFilter (TermStringFilter (fst kv) (snd kv))]> m)
           kvs m).
Proof.
  induction kvs as [|[k v] kvs IH]; intros m; simpl; [reflexivity|].
  unfold string_pairs in IH. now rewrite IH.
Qed.

Lemma string_pairs_even (kvs : list (string * string)) :
  Nat.even (length (string_pairs kvs)) = true.
Proof. induction kvs as [|kv kvs IH]; [reflexivity|exact IH]. Qed.

Lemma fold_insert_lookup (kvs : list (string * string)) (k : string) :
  forall m : MetadataMatch,
    fold_left
      (fun m kv => <[fst kv := MFilter (TermStringFilter (fst kv) (snd kv))]> m)
      kvs m !! k =
    match list_to_map (M := gmap string string) (reverse kvs) !! k with
    | Some v => Some (MFilter (TermStringFilter k v))
    | None => m !! k
    end.
Proof.
  induction kvs as [|[k0 v0] kvs IH]; intros m; simpl.
  - now rewrite lookup_empty.
  - rewrite IH, reverse_cons.
    destruct (list_to_map (reverse kvs) !! k) as [v|] eqn:Hk.
    + rewrite list_to_map_app.
      now rewrite (lookup_union_Some_l _ _ _ _ Hk).
    + rewrite list_to_map_app, lookup_union_r by exact Hk.
      simpl. destruct (decide (k0 = k)) as [->|Hne].
      * now rewrite !lookup_insert_eq.
      * now rewrite !lookup_insert_ne, lookup_empty by exact Hne.
Qed.

(** With string keys and string values, [SliceToMetadata] and
    [ParamsToFilter] never fail.  [SliceToMetadata] binds every key to the
    equality filter of the last value given for it: an earlier value of the
    same key is overwritten.  [ParamsToFilter] keeps one equality filter
    for every pair, in order, under one conjunction: an earlier value of
    the same key stays. *)
Lemma string_pairs_become_filters `{Externals} (kvs : list (string * string)) :
  (exists m,
     SliceToMetadata (string_pairs kvs) = inl m /\
     forall k,
       m !! k =
       (fun v => MFilter (TermStringFilter k v)) <$>
         list_to_map (M := gmap string string) (reverse kvs) !! k) /\
  ParamsToFilter (string_pairs kvs) =
    inl (AndFilter (map (fun kv => TermStringFilter (fst kv) (snd kv)) kvs)).
Proof.
  unfold SliceToMetadata, ParamsToFilter. rewrite string_pairs_even. cbn [negb].
  rewrite SliceToMetadata_loop_strings, ParamsToFilter_loop_strings.
  split; [|reflexivity].
  eexists. split; [reflexivity|]. intros k. rewrite fold_insert_lookup.
  destruct (list_to_map (reverse kvs) !! k); [reflexivity|apply lookup_empty].
Qed.

Example the_last_value_of_a_key_wins :
  @SliceToMetadata Sample.externals
    (string_pairs [("Type", "host"); ("Type", "netns")]) =
  inl {["Type" := MFilter (TermStringFilter "Type" "netns")]}.
Proof. vm_compute. reflexivity. Qed.

(** A bound of a range matcher is an integer for [common.ToInt64]. *)
Lemma range_matchers_witness_bounds :
  @ToInt64 Sample.externals (PInt64 10) = inl 10 /\
  @ToInt64 Sample.externals (PInt64 20) = inl 20.
Proof. split; reflexivity. Defined.

(** The filters built for the range matchers, with integer bounds [a] and
    [b], read as conjunctions: [Inside(a, b)] holds for [a < x < b],
    [Between(a, b)] for [a <= x < b], and [Outside(a, b)] for [x < a] and
    [b < x] at once, that is for no [x] when [a <= b]. *)
Lemma range_matchers_are_conjunctions `{Externals} (k : string) (from to : Param)
  (a b : Z) :
  ToInt64 from = inl a ->
  ToInt64 to = inl b ->
  exists inside between outside,
    ParamToFilter k (Inside from to) = inl inside /\
    ParamToFilter k (Between from to) = inl between /\
    ParamToFilter k (Outside from to) = inl outside /\
    forall x,
      (Filter_holds inside x = true <-> a < x < b) /\
      (Filter_holds between x = true <-> a <= x < b) /\
      (Filter_holds outside x = true <-> x < a /\ b < x) /\
      (a <= b -> Filter_holds outside x = false).
Proof.
  intros Ha Hb. unfold Inside, Between, Outside, ParamToFilter. rewrite Ha, Hb.
  do 3 eexists. repeat (split; [reflexivity|]).
  intros x. cbn [Filter_holds forallb NewAndFilter NewGtInt64Filter
                 NewLtInt64Filter NewGteInt64Filter].
  rewrite !andb_true_r, !andb_true_iff, !Z.ltb_lt, Z.leb_le.
  repeat split; lia.
Qed.

Lemma range_matchers_are_conjunctions_witness :
  exists inside between outside,
    @ParamToFilter Sample.externals "MTU" (Inside (PInt64 10) (PInt64 20)) =
      inl inside /\
    @ParamToFilter Sample.externals "MTU" (Between (PInt64 10) (PInt64 20)) =
      inl between /\
    @ParamToFilter Sample.externals "MTU" (Outside (PInt64 10) (PInt64 20)) =
      inl outside /\
    forall x,
      (Filter_holds inside x = true <-> 10 < x < 20) /\
      (Filter_holds between x = true <-> 10 <= x < 20) /\
      (Filter_holds outside x = true <-> x < 10 /\ 20 < x) /\
      (10 <= 20 -> Filter_holds outside x = false).
Proof.
  exact (@range_matchers_are_conjunctions Sample.externals "MTU"
           (PInt64 10) (PInt64 20) 10 20
           (proj1 range_matchers_witness_bounds)
           (proj2 range_matchers_witness_bounds)).
Defined.

(** ** Paths and hosts *)

Lemma string_app_assoc (a b c : string) : (a +:+ b) +:+ c = a +:+ (b +:+ c).
Proof.
  induction a as [|x a IH]; [reflexivity|exact (f_equal (String x) IH)].
Qed.

Lemma string_app_length (a b : string) :
  String.length (a +:+ b) = (String.length a + String.length b)%nat.
Proof.
  induction a as [|x a IH]; [reflexivity|exact (f_equal S IH)].
Qed.

Lemma segment_length (node : Node) : (0 < String.length (segment node))%nat.
Proof. unfold segment. rewrite !string_app_length. simpl. lia. Qed.

Lemma concat_snoc (sep : string) (xs : list string) (y : string) :
  String.concat sep (xs ++ [y]) =
  match xs with
  | [] => y
  | _ => String.concat sep xs +:+ sep +:+ y
  end.
Proof.
  induction xs as [|x xs IH]; [reflexivity|].
  destruct xs as [|x' xs].
  - simpl. reflexivity.
  - change (String.concat sep ((x :: x' :: xs) ++ [y]))
      with (x +:+ sep +:+ String.concat sep ((x' :: xs) ++ [y])).
    rewrite IH.
    change (String.concat sep (x :: x' :: xs))
      with (x +:+ sep +:+ String.concat sep (x' :: xs)).
    now rewrite !string_app_assoc.
Qed.

Lemma concat_segments_length (xs : list Node) :
  xs <> [] ->
  (0 < String.length (String.concat "/" (map segment xs)))%nat.
Proof.
  destruct xs as [|x xs]; [congruence|]. intros _.
  pose proof (segment_length x) as Hx.
  destruct xs as [|x' xs]; simpl; [exact Hx|].
  rewrite string_app_length. lia.
Qed.

Lemma Marshal_body_named (node : Node) (path : string) :
  named node ->
  Marshal_body node path =
  Ok (Continue ((if (0 <? String.length path)%nat then path +:+ "/" else path)
                +:+ segment node)).
Proof.
  intros [[n Hn] [t Ht]]. unfold Marshal_body, segment, GetFieldString_.
  rewrite Hn, Ht. unfold GetFieldString in Hn, Ht. unfold Metadata_at.
  destruct (node_metadata node !! "Name") as [[]|]; try discriminate.
  destruct (node_metadata node !! "Type") as [[]|]; try discriminate.
  injection Hn as ->. injection Ht as ->. reflexivity.
Qed.

Lemma Marshal_body_unnamed (node : Node) (path : string) :
  unnamed node -> Marshal_body node path = Ok (Break "").
Proof.
  intros Hu. unfold Marshal_body.
  destruct Hu as [-> | ->]; simpl; [reflexivity|].
  now rewrite orb_true_r.
Qed.

Lemma Marshal_loop_named (l : list Node) :
  Forall named l ->
  forall xs,
    for_rangeM Marshal_body l (String.concat "/" (map segment xs)) =
    Ok (Continue (String.concat "/" (map segment (xs ++ l)))).
Proof.
  induction 1 as [|node l Hn Hl IH]; intros xs; cbn [for_rangeM].
  - now rewrite app_nil_r.
  - rewrite (Marshal_body_named _ _ Hn). cbn [mbind Go_bind].
    assert (Hs : (if (0 <? String.length (String.concat "/" (map segment xs)))%nat
                  then String.concat "/" (map segment xs) +:+ "/"
                  else String.concat "/" (map segment xs)) +:+ segment node =
                 String.concat "/" (map segment (xs ++ [node]))).
    { rewrite map_app. cbn [map]. rewrite concat_snoc.
      destruct xs as [|x xs]; [reflexivity|].
      assert (Hlen : (0 < String.length
                            (String.concat "/" (map segment (x :: xs))))%nat)
        by (apply concat_segments_length; discriminate).
      apply Nat.ltb_lt in Hlen. rewrite Hlen. cbn [map].
      now rewrite string_app_assoc. }
    rewrite Hs, IH. now rewrite <- app_assoc.
Qed.

(** [Marshal] on a path whose nodes all carry a string name and a string
    type joins the segments [Name[Type=T]] with [/], from the last node of
    the path to the first.  When a node has no name or no type and the
    nodes after it are named, the result is the empty string, whatever
    comes before that node; when its name is there and is no string, the
    call panics. *)
Lemma Marshal_joins_the_segments (before after : list Node) (node : Node) :
  Forall named after ->
  (Forall named (before ++ [node]) ->
   NodePath_Marshal (before ++ node :: after) =
     Ok (String.concat "/" (map segment (rev (before ++ node :: after))))) /\
  (unnamed node -> NodePath_Marshal (before ++ node :: after) = Ok "") /\
  (Metadata_at (node_metadata node) "Type" <> VNil ->
   (forall s, Metadata_at (node_metadata node) "Name" <> VString s) ->
   Metadata_at (node_metadata node) "Name" <> VNil ->
   exists msg, NodePath_Marshal (before ++ node :: after) = Panic msg).
Proof.
  intros Hafter. unfold NodePath_Marshal.
  assert (Hrev : rev (before ++ node :: after) = rev after ++ node :: rev before).
  { rewrite rev_app_distr. simpl. now rewrite <- app_assoc. }
  assert (Hloop : forall l,
    for_rangeM Marshal_body (rev after ++ l) "" =
    for_rangeM Marshal_body l (String.concat "/" (map segment (rev after)))).
  { intros l.
    assert (Hgen : forall (l1 : list Node) s,
      Forall named l1 ->
      forall s', for_rangeM Marshal_body l1 s = Ok (Continue s') ->
                 for_rangeM Marshal_body (l1 ++ l) s = for_rangeM Marshal_body l s').
    { induction l1 as [|x l1 IH1]; intros s Hf s' Hs; cbn [for_rangeM app] in *.
      - now injection Hs as ->.
      - inversion Hf as [|? ? Hx Hl1]; subst.
        rewrite (Marshal_body_named _ _ Hx) in *. cbn [mbind Go_bind] in *.
        now apply IH1. }
    apply Hgen; [now apply Forall_rev|].
    exact (Marshal_loop_named (rev after) (Forall_rev Hafter) []). }
  split; [|split].
  - intros Hall.
    pose proof (Marshal_loop_named (rev (before ++ node :: after))) as Hl.
    specialize (Hl ltac:(apply Forall_rev, Forall_app; split;
                          [apply Forall_app in Hall; tauto|
                           constructor; [apply Forall_app in Hall as [_ Hn];
                                         now inversion Hn|exact Hafter]]) []).
    cbn [map String.concat app] in Hl. rewrite Hl. reflexivity.
  - intros Hu. rewrite Hrev, Hloop. cbn [for_rangeM].
    now rewrite (Marshal_body_unnamed _ _ Hu).
  - intros Ht Hs Hn. rewrite Hrev, Hloop. cbn [for_rangeM].
    unfold Marshal_body.
    destruct (Metadata_at (node_metadata node) "Name") as [| s | | | | | |] eqn:HN;
      try congruence;
      destruct (Metadata_at (node_metadata node) "Type"); try congruence;
      try (exfalso; now apply (Hs s)); cbn; eauto.
Qed.

Lemma Marshal_joins_the_segments_witness :
  NodePath_Marshal [SampleTopology.eth0; SampleTopology.ns; SampleTopology.host] =
    Ok "host-1[Type=host]/x[Type=netns]/eth0[Type=veth]" /\
  NodePath_Marshal [SampleTopology.eth0; SampleTopology.anonymous;
                    SampleTopology.host] = Ok "" /\
  exists msg,
    NodePath_Marshal [SampleTopology.eth0; SampleTopology.numbered;
                      SampleTopology.host] = Panic msg.
Proof.
  assert (Hhost : Forall named [SampleTopology.host]).
  { repeat constructor; vm_compute; eauto. }
  split; [|split].
  - refine (proj1 (Marshal_joins_the_segments [SampleTopology.eth0]
                     [SampleTopology.host] SampleTopology.ns Hhost) _).
    repeat constructor; vm_compute; eauto.
  - refine (proj1 (proj2 (Marshal_joins_the_segments [SampleTopology.eth0]
                            [SampleTopology.host] SampleTopology.anonymous Hhost)) _).
    left. reflexivity.
  - refine (proj2 (proj2 (Marshal_joins_the_segments [SampleTopology.eth0]
                            [SampleTopology.host] SampleTopology.numbered Hhost))
              _ _ _); vm_compute; discriminate.
Defined.

Lemma NewNetNSContextByNode_outside (fmt_node : Node -> string) (n : Node)
  (l rest : list Node) (st : NetNSContext) :
  Forall outside_netns l ->
  for_range (NewNetNSContextByNode_body fmt_node n) (l ++ rest) st =
  for_range (NewNetNSContextByNode_body fmt_node n) rest st.
Proof.
  induction 1 as [|node l [Ht Hn] Hl IH]; [reflexivity|].
  cbn [app for_range]. unfold NewNetNSContextByNode_body at 1.
  now rewrite !bool_decide_eq_false_2 by assumption.
Qed.

(** [NewNetNSContextByNode] of a named node enters the namespace of the
    first [netns] node of the shortest path to the host, when the nodes
    before it have a type each: the nodes after it are not looked at.
    When all nodes of the path have a type and none is a [netns], it
    returns neither a context nor an error. *)
Lemma NewNetNSContextByNode_enters_the_first_namespace
  (fmt_node : Node -> string) (g : Graph) (n : Node)
  (before after : list Node) (ns : Node) (path : string) :
  GetFieldString_ (node_metadata n) "Name" <> "" ->
  Forall outside_netns before ->
  GetFieldString (node_metadata ns) "Type" = Some "netns" ->
  GetFieldString_ (node_metadata ns) "Name" <> "" ->
  GetFieldString (node_metadata ns) "Path" = Some path ->
  path <> "" ->
  (LookupShortestPath g n host_metadata ownership_metadata =
     before ++ ns :: after ->
   NewNetNSContextByNode fmt_node g n = NetNS_enter path) /\
  (LookupShortestPath g n host_metadata ownership_metadata = before ->
   before <> [] ->
   NewNetNSContextByNode fmt_node g n = NetNS_none).
Proof.
  intros Hname Hbefore Htp Hnsname Hpath Hne.
  unfold NewNetNSContextByNode.
  rewrite bool_decide_eq_false_2 by exact Hname.
  split.
  - intros ->.
    assert (Hlen : (length (before ++ ns :: after) =? 0)%nat = false).
    { apply Nat.eqb_neq. rewrite length_app. simpl. lia. }
    rewrite Hlen, NewNetNSContextByNode_outside by exact Hbefore.
    cbn [for_range]. unfold NewNetNSContextByNode_body.
    unfold GetFieldString_ in *. rewrite Htp, Hpath in *. cbn [from_option id] in *.
    rewrite bool_decide_eq_false_2 by discriminate.
    rewrite bool_decide_eq_true_2 by reflexivity.
    rewrite bool_decide_eq_false_2 by exact Hnsname.
    now rewrite bool_decide_eq_false_2 by exact Hne.
  - intros -> Hnil.
    assert (Hlen : (length before =? 0)%nat = false).
    { apply Nat.eqb_neq. destruct before; [congruence|]. simpl. lia. }
    rewrite Hlen.
    pose proof (NewNetNSContextByNode_outside fmt_node n before [] NetNS_none
                  Hbefore) as Hl.
    rewrite app_nil_r in Hl. now rewrite Hl.
Qed.

Lemma NewNetNSContextByNode_enters_the_first_namespace_witness :
  NewNetNSContextByNode (fun node => node_ID node) SampleTopology.graph
    SampleTopology.eth0 = NetNS_enter "/var/run/netns/x".
Proof.
  refine (proj1 (NewNetNSContextByNode_enters_the_first_namespace
                   (fun node => node_ID node) SampleTopology.graph
                   SampleTopology.eth0 [SampleTopology.eth0]
                   [SampleTopology.host] SampleTopology.ns "/var/run/netns/x"
                   _ _ _ _ _ _) _);
    try reflexivity; try (vm_compute; discriminate).
  repeat constructor; vm_compute; discriminate.
Defined.

Lemma BuildHostNodeTIDMap_loop (host : string) (nodes : list Node) :
  forall hnmap : HostNodeTIDMap,
    default [] (fold_left BuildHostNodeTIDMap_body nodes hnmap !! host) =
    default [] (hnmap !! host) ++ TIDs_of_host host nodes /\
    (is_Some (fold_left BuildHostNodeTIDMap_body nodes hnmap !! host) <->
     is_Some (hnmap !! host) \/ TIDs_of_host host nodes <> []).
Proof.
  induction nodes as [|node nodes IH]; intros hnmap; cbn [fold_left].
  - unfold TIDs_of_host. simpl. rewrite app_nil_r. split; [reflexivity|].
    split; [now left|]. intros [Hs|Hn]; [exact Hs|congruence].
  - destruct (IH (BuildHostNodeTIDMap_body hnmap node)) as [IH1 IH2].
    rewrite IH1, IH2. clear IH IH1 IH2.
    unfold TIDs_of_host, BuildHostNodeTIDMap_body. cbv zeta. cbn [List.filter].
    destruct (decide (GetFieldString_ (node_metadata node) "TID" <> "")) as [Ht|Ht].
    + rewrite !(bool_decide_eq_true_2 _ Ht).
      destruct (decide (Host node = host)) as [<-|Hh].
      * rewrite bool_decide_eq_true_2 by reflexivity. cbn [andb map].
        rewrite lookup_insert_eq. cbn [from_option id].
        rewrite <- app_assoc. split; [reflexivity|].
        split; [intros _; right; discriminate|intros _; left; eauto].
      * rewrite (bool_decide_eq_false_2 _ Hh). cbn [andb].
        rewrite lookup_insert_ne by exact Hh. split; [reflexivity|tauto].
    + rewrite !(bool_decide_eq_false_2 _ Ht). rewrite andb_false_r.
      split; [reflexivity|tauto].
Qed.

(** [BuildHostNodeTIDMap] binds a host to the TIDs of its nodes, in the
    order of the nodes and with their repetitions; a node without a TID
    (or with an empty one) is left out, and a host none of whose nodes has
    a TID is not bound at all, so that no host is bound to an empty list. *)
Lemma BuildHostNodeTIDMap_groups_by_host (nodes : list Node) (host : string) :
  BuildHostNodeTIDMap nodes !! host =
    match TIDs_of_host host nodes with
    | [] => None
    | tids => Some tids
    end /\
  BuildHostNodeTIDMap nodes !! host <> Some [].
Proof.
  unfold BuildHostNodeTIDMap.
  destruct (BuildHostNodeTIDMap_loop host nodes ∅) as [Hd Hs].
  rewrite lookup_empty in Hd, Hs. cbn [from_option id app] in Hd.
  assert (Hm : forall m : option (list string),
             default [] m = TIDs_of_host host nodes ->
             (is_Some m <-> is_Some (@None (list string)) \/
                            TIDs_of_host host nodes <> []) ->
             m = match TIDs_of_host host nodes with
                 | [] => None
                 | tids => Some tids
                 end /\ m <> Some []).
  { intros m Hdm Hsm. destruct m as [l|]; cbn [from_option id] in Hdm.
    - subst l. destruct Hsm as [Hsm _].
      destruct (Hsm ltac:(eauto)) as [[? Hx]|Hx]; [discriminate|].
      destruct (TIDs_of_host host nodes); [congruence|].
      split; [reflexivity|discriminate].
    - rewrite <- Hdm. split; [reflexivity|discriminate]. }
  apply Hm; assumption.
Qed.

Example BuildHostNodeTIDMap_of_two_hosts :
  BuildHostNodeTIDMap
    [SampleTopology.eth0; SampleTopology.anonymous; SampleTopology.ns;
     SampleTopology.eth0] =
  {["host-1" := ["t-eth0"; "t-ns"; "t-eth0"]]}.
Proof. vm_compute. reflexivity. Qed.

(** ** What the mapper writes *)

Section MapperFrame.

Context `{UUIDLib}.

Lemma writes_TID_only_refl (t : TIDMapper) : writes_TID_only t t.
Proof. repeat split; auto. Qed.

Lemma writes_TID_only_trans (t1 t2 t3 : TIDMapper) :
  writes_TID_only t1 t2 -> writes_TID_only t2 t3 -> writes_TID_only t1 t3.
Proof.
  intros (He & Hx & Hk & Ht & Hl) (He' & Hx' & Hk' & Ht' & Hl').
  split; [congruence|]. split; [intros m; now rewrite Hx', Hx|].
  split; [intros m k Hne; now rewrite Hk', Hk|].
  split; [auto|]. now transitivity (tm_errors t2).
Qed.

Lemma AddMetadata_edges (g : Store) (n : Identifier) (k : string) (v : Value) :
  st_edges (AddMetadata g n k v) = st_edges g.
Proof. unfold AddMetadata. now destruct (st_nodes g !! n). Qed.

Lemma AddMetadata_key (g : Store) (n m : Identifier) (k k' : string) (v : Value) :
  k' <> k ->
  Node_Metadata (AddMetadata g n k v) m !! k' = Node_Metadata g m !! k'.
Proof.
  intros Hne. unfold Node_Metadata, AddMetadata.
  destruct (st_nodes g !! n) as [md|] eqn:Hn; [|reflexivity]. cbn [st_nodes].
  destruct (decide (n = m)) as [<-|Hm].
  - rewrite lookup_insert_eq, Hn. cbn. now rewrite lookup_insert_ne by congruence.
  - now rewrite lookup_insert_ne.
Qed.

Lemma assign_writes_TID_only (t : TIDMapper) (h n : Identifier) (tid : string) :
  writes_TID_only t
    (assign_TID (mkTIDMapper (tm_Graph t) h (tm_errors t)) n tid).
Proof.
  unfold assign_TID, set_graph, writes_TID_only, TID_of. cbn [tm_Graph tm_errors].
  split; [apply AddMetadata_edges|].
  split; [intros m; apply AddMetadata_exists|].
  split; [intros m k Hk; now apply AddMetadata_key|].
  split; [|reflexivity].
  intros m Hm. destruct (decide (n = m)) as [<-|Hne].
  - destruct Hm as [s Hs]. unfold GetFieldString.
    rewrite AddMetadata_same by (eapply GetFieldString_exists, Hs). eauto.
  - now rewrite AddMetadata_other.
Qed.

Lemma setTID_writes_TID_only (t : TIDMapper) (parent child : Identifier) :
  writes_TID_only t (setTID t parent child).
Proof.
  unfold setTID. repeat case_bool_decide; try apply writes_TID_only_refl.
  destruct t as [g h errs].
  exact (assign_writes_TID_only (mkTIDMapper g h errs) h child _).
Qed.

Lemma setChildren_writes_TID_only (parent : Identifier) (children : list Identifier) :
  forall t,
    writes_TID_only t
      (fold_left (fun t child => setTID t parent child) children t).
Proof.
  induction children as [|c children IH]; intros t; cbn [fold_left].
  - apply writes_TID_only_refl.
  - eapply writes_TID_only_trans; [apply setTID_writes_TID_only|apply IH].
Qed.

Lemma root_writes_TID_only (t : TIDMapper) (h n : Identifier) (tid : string) :
  writes_TID_only t
    (setChildrenTID (assign_TID (mkTIDMapper (tm_Graph t) h (tm_errors t)) n tid) n).
Proof.
  eapply writes_TID_only_trans; [apply assign_writes_TID_only|].
  apply setChildren_writes_TID_only.
Qed.

Lemma onNodeEvent_writes_TID_only (t : TIDMapper) (n : Identifier) :
  writes_TID_only t (TIDMapper_onNodeEvent t n).
Proof.
  unfold TIDMapper_onNodeEvent.
  destruct (GetFieldString _ "TID"); [apply writes_TID_only_refl|].
  destruct (GetFieldString _ "Type") as [tp|]; [|apply writes_TID_only_refl].
  case_bool_decide; [apply root_writes_TID_only|].
  case_bool_decide.
  { case_bool_decide; [|apply writes_TID_only_refl].
    destruct t as [g h errs]. apply (root_writes_TID_only (mkTIDMapper g h errs)). }
  case_bool_decide.
  { case_bool_decide; [|apply writes_TID_only_refl].
    destruct t as [g h errs]. apply (root_writes_TID_only (mkTIDMapper g h errs)). }
  case_bool_decide.
  { destruct t as [g h errs].
    apply (assign_writes_TID_only (mkTIDMapper g h errs)). }
  destruct (1 <? length _)%nat.
  { repeat split; auto. cbn [tm_errors]. now apply prefix_app_r. }
  destruct (ownership_parents _ _) as [|p [|p' ps]];
    try apply writes_TID_only_refl.
  apply setTID_writes_TID_only.
Qed.

Lemma onEdgeEvent_writes_TID_only (t : TIDMapper) (e : Edge) :
  writes_TID_only t (onEdgeEvent t e).
Proof.
  unfold onEdgeEvent. case_bool_decide; [apply writes_TID_only_refl|].
  destruct (edge_nodes _ _) as [[|p ps] [|c cs]];
    try apply writes_TID_only_refl.
  apply setTID_writes_TID_only.
Qed.

Lemma writes_TID_only_field (t t' : TIDMapper) (m : Identifier) (k : string) :
  writes_TID_only t t' -> k <> "TID" ->
  GetFieldString (Node_Metadata (tm_Graph t') m) k =
  GetFieldString (Node_Metadata (tm_Graph t) m) k.
Proof.
  intros (_ & _ & Hk & _) Hne. unfold GetFieldString. now rewrite Hk.
Qed.

Lemma writes_TID_only_children (t t' : TIDMapper) (p : Identifier) :
  writes_TID_only t t' ->
  ownership_children (tm_Graph t') p = ownership_children (tm_Graph t) p.
Proof.
  intros (He & Hx & _). unfold ownership_children. rewrite He. f_equal.
  apply List.filter_ext. intros e. now rewrite Hx.
Qed.

Lemma writes_TID_only_parents (t t' : TIDMapper) (c : Identifier) :
  writes_TID_only t t' ->
  ownership_parents (tm_Graph t') c = ownership_parents (tm_Graph t) c.
Proof.
  intros (He & Hx & _). unfold ownership_parents. rewrite He. f_equal.
  apply List.filter_ext. intros e. now rewrite Hx.
Qed.

Lemma setTID_assigns (t : TIDMapper) (p c : Identifier) (tid name tp : string) :
  TID_of t p = Some tid -> tid <> "" ->
  GetFieldString (Node_Metadata (tm_Graph t) c) "Name" = Some name -> name <> "" ->
  GetFieldString (Node_Metadata (tm_Graph t) c) "Type" = Some tp -> tp <> "" ->
  setTID t p c = assign_TID t c (child_TID tid name tp) /\
  TID_of (setTID t p c) c = Some (child_TID tid name tp).
Proof.
  intros Htid Hne Hname Hn Htp Ht.
  assert (Hrun : setTID t p c = assign_TID t c (child_TID tid name tp)).
  { unfold setTID, GetFieldString_. unfold TID_of in Htid.
    rewrite Htid, Hname, Htp. cbn [from_option id].
    rewrite !bool_decide_eq_false_2 by assumption.
    now rewrite bool_decide_eq_true_2 by assumption. }
  split; [exact Hrun|]. rewrite Hrun.
  unfold TID_of, assign_TID, set_graph, GetFieldString. cbn [tm_Graph].
  rewrite AddMetadata_same; [reflexivity|].
  eapply GetFieldString_exists, Hname.
Qed.

Lemma setChildren_assigns (p c : Identifier) (tid name tp : string)
  (children : list Identifier) :
  tid <> "" -> name <> "" -> tp <> "" ->
  p ∉ children ->
  forall t,
    TID_of t p = Some tid ->
    GetFieldString (Node_Metadata (tm_Graph t) c) "Name" = Some name ->
    GetFieldString (Node_Metadata (tm_Graph t) c) "Type" = Some tp ->
    c ∈ children \/ TID_of t c = Some (child_TID tid name tp) ->
    TID_of (fold_left (fun t child => setTID t p child) children t) c =
      Some (child_TID tid name tp).
Proof.
  intros Hne Hn Ht. induction children as [|x children IH];
    intros Hp t Htid Hname Htp Hc; cbn [fold_left].
  - destruct Hc as [Hc|Hc]; [inversion Hc|exact Hc].
  - apply not_elem_of_cons in Hp as [Hpx Hp].
    pose proof (setTID_writes_TID_only t p x) as Hw.
    apply (IH Hp).
    + unfold TID_of. rewrite setTID_other by congruence. exact Htid.
    + now rewrite (writes_TID_only_field _ _ _ _ Hw) by discriminate.
    + now rewrite (writes_TID_only_field _ _ _ _ Hw) by discriminate.
    + destruct (decide (x = c)) as [->|Hxc].
      * right. now apply setTID_assigns.
      * destruct Hc as [Hc|Hc].
        -- apply elem_of_cons in Hc as [Hc|Hc]; [congruence|now left].
        -- right. unfold TID_of. now rewrite setTID_other.
Qed.

Lemma root_run (t : TIDMapper) (n c : Identifier) (tid name tp : string) :
  is_Some (st_nodes (tm_Graph t) !! n) ->
  n ∉ ownership_children (tm_Graph t) n ->
  TID_of (setChildrenTID (assign_TID t n tid) n) n = Some tid /\
  (tid <> "" ->
   c ∈ ownership_children (tm_Graph t) n ->
   GetFieldString (Node_Metadata (tm_Graph t) c) "Name" = Some name ->
   name <> "" ->
   GetFieldString (Node_Metadata (tm_Graph t) c) "Type" = Some tp ->
   tp <> "" ->
   TID_of (setChildrenTID (assign_TID t n tid) n) c = Some (child_TID tid name tp)).
Proof.
  intros Hex Hself.
  pose proof (assign_writes_TID_only t (hostID t) n tid) as Hw.
  assert (Ht : mkTIDMapper (tm_Graph t) (hostID t) (tm_errors t) = t)
    by now destruct t.
  rewrite Ht in Hw.
  assert (Hset : TID_of (assign_TID t n tid) n = Some tid).
  { unfold TID_of, assign_TID, set_graph, GetFieldString. cbn [tm_Graph].
    now rewrite AddMetadata_same. }
  unfold setChildrenTID. rewrite (writes_TID_only_children _ _ n Hw).
  split.
  - unfold TID_of. rewrite setChildren_other by exact Hself. exact Hset.
  - intros Hne Hc Hname Hn Htp Htpne.
    apply setChildren_assigns; auto.
    + now rewrite (writes_TID_only_field _ _ _ _ Hw) by discriminate.
    + now rewrite (writes_TID_only_field _ _ _ _ Hw) by discriminate.
Qed.

End MapperFrame.

(** A handler of the mapper writes TIDs and nothing else: after a node
    event and after an edge event the graph has the same edges and the
    same nodes, every key of every node other than [TID] reads as before,
    a node that had a TID still has one, and the log has only grown. *)
Lemma the_mapper_writes_TID_only `{UUIDLib} (t : TIDMapper) (n : Identifier)
  (e : Edge) :
  writes_TID_only t (TIDMapper_onNodeEvent t n) /\
  writes_TID_only t (onEdgeEvent t e).
Proof.
  split; [apply onNodeEvent_writes_TID_only|apply onEdgeEvent_writes_TID_only].
Qed.

Lemma onNodeEvent_root `{UUIDLib} (t : TIDMapper) (n : Identifier) (tp : string) :
  TID_of t n = None ->
  GetFieldString (Node_Metadata (tm_Graph t) n) "Type" = Some tp ->
  (tp = "host" ->
   TIDMapper_onNodeEvent t n =
   setChildrenTID
     (assign_TID (mkTIDMapper (tm_Graph t) n (tm_errors t)) n n) n) /\
  (tp = "netns" ->
   TIDMapper_onNodeEvent t n =
   if bool_decide (GetFieldString_ (Node_Metadata (tm_Graph t) n) "Path" <> "")
   then setChildrenTID
          (assign_TID t n
             (uuid_NewV5 NamespaceOID
                (hostID t +:+
                 GetFieldString_ (Node_Metadata (tm_Graph t) n) "Path" +:+ tp))) n
   else t) /\
  (tp = "ovsport" ->
   TIDMapper_onNodeEvent t n =
   if bool_decide (GetFieldString_ (Node_Metadata (tm_Graph t) n) "UUID" <> "")
   then setChildrenTID
          (assign_TID t n
             (uuid_NewV5 NamespaceOID
                (hostID t +:+
                 GetFieldString_ (Node_Metadata (tm_Graph t) n) "UUID" +:+ tp))) n
   else t).
Proof.
  intros Htid Htp. unfold TID_of in Htid.
  split; [|split]; intros ->; unfold TIDMapper_onNodeEvent; rewrite Htid, Htp.
  - now rewrite bool_decide_eq_true_2 by reflexivity.
  - rewrite bool_decide_eq_false_2 by discriminate.
    now rewrite bool_decide_eq_true_2 by reflexivity.
  - rewrite !bool_decide_eq_false_2 by discriminate.
    now rewrite bool_decide_eq_true_2 by reflexivity.
Qed.

(** The event of a root node ([host], [netns], [ovsport]) that gets its TID
    in that event names its ownership children after it.  The TID of a
    host is its identifier, which also becomes the host identifier of the
    mapper; the TID of a namespace or of a port is the UUIDv5 of the host
    identifier followed by the path or by the UUID and by the type.  Every
    ownership child with a name and a type then has the UUIDv5 of that TID
    followed by its name and its type, whatever TID it had before. *)
Lemma a_root_names_its_children `{UUIDLib} (t : TIDMapper) (n : Identifier)
  (tp tid : string) :
  TID_of t n = None ->
  GetFieldString (Node_Metadata (tm_Graph t) n) "Type" = Some tp ->
  tp ∈ ["host"; "netns"; "ovsport"] ->
  n ∉ ownership_children (tm_Graph t) n ->
  TID_of (TIDMapper_onNodeEvent t n) n = Some tid ->
  tid <> "" ->
  tid =
    (if bool_decide (tp = "host") then n
     else uuid_NewV5 NamespaceOID
            (hostID t +:+
             GetFieldString_ (Node_Metadata (tm_Graph t) n)
               (if bool_decide (tp = "netns") then "Path" else "UUID") +:+ tp)) /\
  hostID (TIDMapper_onNodeEvent t n) =
    (if bool_decide (tp = "host") then n else hostID t) /\
  forall c name ctp,
    c ∈ ownership_children (tm_Graph t) n ->
    GetFieldString (Node_Metadata (tm_Graph t) c) "Name" = Some name ->
    name <> "" ->
    GetFieldString (Node_Metadata (tm_Graph t) c) "Type" = Some ctp ->
    ctp <> "" ->
    TID_of (TIDMapper_onNodeEvent t n) c = Some (child_TID tid name ctp).
Proof.
  intros Hno Htp Hroot Hself Htid Hne.
  assert (Hex : is_Some (st_nodes (tm_Graph t) !! n))
    by (eapply GetFieldString_exists, Htp).
  assert (HhostID : forall t0 p l,
             hostID (fold_left (fun t child => setTID t p child) l t0) = hostID t0).
  { intros t0 p l. revert t0. induction l as [|x l IH]; intros t0; [reflexivity|].
    cbn [fold_left]. rewrite IH. unfold setTID.
    repeat case_bool_decide; reflexivity. }
  destruct (onNodeEvent_root t n tp Hno Htp) as (Hh & Hn & Ho).
  assert (Hgen : forall t0 u,
             tm_Graph t0 = tm_Graph t ->
             TIDMapper_onNodeEvent t n = setChildrenTID (assign_TID t0 n u) n ->
             tid = u /\
             hostID (TIDMapper_onNodeEvent t n) = hostID t0 /\
             forall c name ctp,
               c ∈ ownership_children (tm_Graph t) n ->
               GetFieldString (Node_Metadata (tm_Graph t) c) "Name" = Some name ->
               name <> "" ->
               GetFieldString (Node_Metadata (tm_Graph t) c) "Type" = Some ctp ->
               ctp <> "" ->
               TID_of (TIDMapper_onNodeEvent t n) c = Some (child_TID tid name ctp)).
  { intros t0 u Hg Hrun. rewrite Hrun in Htid |- *.
    rewrite <- Hg in Hex, Hself.
    destruct (root_run t0 n n u "" "" Hex Hself) as [Hown _].
    assert (Hu : tid = u) by congruence. subst u.
    split; [reflexivity|].
    split; [unfold setChildrenTID; rewrite HhostID; reflexivity|].
    intros c name ctp Hc Hname Hnn Hctp Hcn. rewrite <- Hg in Hc, Hname, Hctp.
    now apply (root_run t0 n c tid name ctp Hex Hself). }
  apply elem_of_cons in Hroot as [->|Hroot].
  { rewrite bool_decide_eq_true_2 by reflexivity.
    apply (Hgen (mkTIDMapper (tm_Graph t) n (tm_errors t)) n eq_refl (Hh eq_refl)). }
  apply elem_of_cons in Hroot as [->|Hroot].
  { rewrite bool_decide_eq_false_2 by discriminate.
    rewrite bool_decide_eq_true_2 by reflexivity.
    specialize (Hn eq_refl). clear Hh Ho.
    destruct (bool_decide (GetFieldString_ _ "Path" <> "")) in Hn.
    - apply (Hgen t _ eq_refl Hn).
    - rewrite Hn in Htid. congruence. }
  apply list_elem_of_singleton in Hroot as ->.
  rewrite !bool_decide_eq_false_2 by discriminate.
  specialize (Ho eq_refl). clear Hh Hn.
  destruct (bool_decide (GetFieldString_ _ "UUID" <> "")) in Ho.
  - apply (Hgen t _ eq_refl Ho).
  - rewrite Ho in Htid. congruence.
Qed.

Lemma a_root_names_its_children_witness :
  hostID (@TIDMapper_onNodeEvent SampleMapper.uuidlib SampleBoot.mapper "h") = "h" /\
  TID_of (@TIDMapper_onNodeEvent SampleMapper.uuidlib SampleBoot.mapper "h") "p" =
    Some (@uuid_NewV5 SampleMapper.uuidlib NamespaceOID ("h" +:+ "eth0" +:+ "veth")) /\
  TID_of (@TIDMapper_onNodeEvent SampleMapper.uuidlib SampleBoot.mapper "h") "q" =
    Some (@uuid_NewV5 SampleMapper.uuidlib NamespaceOID ("h" +:+ "tap0" +:+ "ovsport")).
Proof.
  assert (Hself : "h" ∉ ownership_children (tm_Graph SampleBoot.mapper) "h").
  { vm_compute. intros Hin. apply list_elem_of_In in Hin.
    destruct Hin as [Hin|[Hin|[]]]; discriminate. }
  assert (Hp : "p" ∈ ownership_children (tm_Graph SampleBoot.mapper) "h").
  { apply list_elem_of_In. vm_compute. now left. }
  assert (Hq : "q" ∈ ownership_children (tm_Graph SampleBoot.mapper) "h").
  { apply list_elem_of_In. vm_compute. right. now left. }
  assert (Hroot : "host" ∈ ["host"; "netns"; "ovsport"]) by (now left).
  assert (Hne : "h" <> "") by discriminate.
  destruct (@a_root_names_its_children SampleMapper.uuidlib SampleBoot.mapper
              "h" "host" "h" eq_refl eq_refl Hroot Hself eq_refl Hne)
    as (_ & Hhost & Hc).
  split; [exact Hhost|]. split.
  - apply (Hc "p" "eth0" "veth" Hp eq_refl); [discriminate|reflexivity|discriminate].
  - apply (Hc "q" "tap0" "ovsport" Hq eq_refl); [discriminate|reflexivity|discriminate].
Defined.

Section MapperEvents.

Context `{UUIDLib}.

Lemma GetFieldString_nonempty (md : Metadata) (k : string) :
  GetFieldString_ md k <> "" ->
  GetFieldString md k = Some (GetFieldString_ md k).
Proof.
  unfold GetFieldString_. destruct (GetFieldString md k); [reflexivity|].
  cbn. congruence.
Qed.

Lemma setTID_without_parent_TID (t : TIDMapper) (p c : Identifier) :
  GetFieldString_ (Node_Metadata (tm_Graph t) p) "TID" = "" ->
  setTID t p c = t.
Proof.
  intros Hp. unfold setTID. rewrite Hp.
  repeat case_bool_decide; try reflexivity. congruence.
Qed.

Lemma onNodeEvent_other (t : TIDMapper) (c p : Identifier) :
  other_event t c ->
  ownership_parents (tm_Graph t) c = [p] ->
  TIDMapper_onNodeEvent t c = setTID t p c.
Proof.
  intros (Htid & (tp & Htp & Hh & Hn & Ho) & Hprobe) Hp.
  unfold TIDMapper_onNodeEvent. unfold TID_of in Htid. rewrite Htid, Htp.
  rewrite !bool_decide_eq_false_2 by assumption. now rewrite Hp.
Qed.

Lemma onNodeEvent_with_TID (t : TIDMapper) (n : Identifier) (s : string) :
  TID_of t n = Some s -> TIDMapper_onNodeEvent t n = t.
Proof.
  intros Hs. unfold TIDMapper_onNodeEvent. unfold TID_of in Hs. now rewrite Hs.
Qed.

Lemma parent_child (g : Store) (p c : Identifier) :
  is_Some (st_nodes g !! c) ->
  p ∈ ownership_parents g c -> c ∈ ownership_children g p.
Proof.
  intros Hc Hp. apply list_elem_of_In in Hp. apply list_elem_of_In.
  unfold ownership_parents in Hp. unfold ownership_children.
  apply in_map_iff in Hp as (e & He & Hin).
  apply filter_In in Hin as [Hin Hcond].
  apply andb_true_iff in Hcond as [Hcond _].
  apply andb_true_iff in Hcond as [Hown Hchild].
  apply bool_decide_eq_true in Hchild.
  apply in_map_iff. exists e. split; [exact Hchild|].
  apply filter_In. split; [exact Hin|].
  rewrite Hown, Hchild. unfold node_exists.
  rewrite (bool_decide_eq_true_2 _ He), (bool_decide_eq_true_2 _ Hc).
  reflexivity.
Qed.

End MapperEvents.

(** The event of a node that already has a TID changes nothing, but the
    event of an ownership edge writes the TID of the child anew: when the
    parent has a TID and the child a name and a type, the child gets the
    UUIDv5 of the TID of the parent followed by its name and its type in
    place of the TID it had. *)
Lemma an_edge_event_rewrites_the_TID `{UUIDLib} (t : TIDMapper) (e : Edge)
  (tid name tp old : string) :
  GetFieldString (edge_metadata e) "RelationType" = Some "ownership" ->
  TID_of t (edge_parent e) = Some tid -> tid <> "" ->
  GetFieldString (Node_Metadata (tm_Graph t) (edge_child e)) "Name" = Some name ->
  name <> "" ->
  GetFieldString (Node_Metadata (tm_Graph t) (edge_child e)) "Type" = Some tp ->
  tp <> "" ->
  TID_of t (edge_child e) = Some old ->
  TIDMapper_onNodeEvent t (edge_child e) = t /\
  TID_of (onEdgeEvent t e) (edge_child e) = Some (child_TID tid name tp).
Proof.
  intros Hown Htid Hne Hname Hn Htp Ht Hold.
  split; [now apply onNodeEvent_with_TID with old|].
  unfold onEdgeEvent, GetFieldString_. rewrite Hown. cbn [from_option id].
  rewrite bool_decide_eq_false_2 by (intros Hx; now apply Hx).
  unfold edge_nodes, node_exists.
  rewrite !bool_decide_eq_true_2
    by (eapply GetFieldString_exists; first [exact Htid|exact Hname]).
  now apply setTID_assigns.
Qed.

Lemma an_edge_event_rewrites_the_TID_witness :
  TID_of SampleBoot_seen "q" = Some "old" /\
  @TIDMapper_onNodeEvent SampleMapper.uuidlib SampleBoot_seen "q" =
    SampleBoot_seen /\
  TID_of (@onEdgeEvent SampleMapper.uuidlib SampleBoot_seen
            (SampleMapper.own "f" "h" "q")) "q" =
    Some (@uuid_NewV5 SampleMapper.uuidlib NamespaceOID
            ("h" +:+ "tap0" +:+ "ovsport")).
Proof.
  split; [reflexivity|].
  apply (@an_edge_event_rewrites_the_TID SampleMapper.uuidlib SampleBoot_seen
           (SampleMapper.own "f" "h" "q") "h" "tap0" "ovsport" "old");
    first [reflexivity|discriminate].
Defined.

(** The events of a host that has no TID yet and of a node it owns (a node
    of the last case of the switch, with the host as its only ownership
    parent) may come in either order: the event of the node before the
    one of the host changes nothing, the event of the node after it
    changes nothing either, and the two orders leave the mapper in the
    state the event of the host alone gives. *)
Lemma host_and_child_events_commute `{UUIDLib} (t : TIDMapper) (h c : Identifier) :
  host_event t h ->
  other_event t c ->
  ownership_parents (tm_Graph t) c = [h] ->
  h ∉ ownership_children (tm_Graph t) h ->
  TIDMapper_onNodeEvent t c = t /\
  TIDMapper_onNodeEvent (TIDMapper_onNodeEvent t c) h = TIDMapper_onNodeEvent t h /\
  TIDMapper_onNodeEvent (TIDMapper_onNodeEvent t h) c = TIDMapper_onNodeEvent t h.
Proof.
  intros [HnoTID Htype] Hother Hpar Hself.
  assert (H1 : TIDMapper_onNodeEvent t c = t).
  { rewrite (onNodeEvent_other t c h Hother Hpar).
    apply setTID_without_parent_TID. unfold GetFieldString_.
    unfold TID_of in HnoTID. now rewrite HnoTID. }
  split; [exact H1|]. split; [now rewrite H1|].
  pose proof (onNodeEvent_writes_TID_only t h) as HW.
  destruct (onNodeEvent_root t h "host" HnoTID Htype) as (HR & _).
  specialize (HR eq_refl).
  destruct (TID_of (TIDMapper_onNodeEvent t h) c) as [s|] eqn:HRc;
    [now apply onNodeEvent_with_TID with s|].
  destruct Hother as (Hc & (tp & Htp & Hh & Hn & Ho) & Hprobe).
  assert (Hother' : other_event (TIDMapper_onNodeEvent t h) c).
  { split; [exact HRc|]. split.
    - exists tp. now rewrite (writes_TID_only_field _ _ _ _ HW) by discriminate.
    - unfold GetFieldString_.
      now rewrite (writes_TID_only_field _ _ _ _ HW) by discriminate. }
  rewrite (onNodeEvent_other _ c h Hother')
    by now rewrite (writes_TID_only_parents _ _ _ HW).
  assert (Hex : is_Some (st_nodes (tm_Graph t) !! h))
    by (eapply GetFieldString_exists, Htype).
  assert (Hexc : is_Some (st_nodes (tm_Graph t) !! c))
    by (eapply GetFieldString_exists, Htp).
  assert (Hin : c ∈ ownership_children (tm_Graph t) h).
  { apply parent_child; [exact Hexc|]. rewrite Hpar. now left. }
  unfold setTID.
  case_bool_decide as Ht; [reflexivity|].
  case_bool_decide as Hname; [reflexivity|].
  case_bool_decide as Htid; [|reflexivity].
  exfalso.
  assert (Hf : forall k, k <> "TID" ->
             GetFieldString_
               (Node_Metadata (tm_Graph (TIDMapper_onNodeEvent t h)) c) k =
             GetFieldString_ (Node_Metadata (tm_Graph t) c) k).
  { intros k Hk. unfold GetFieldString_.
    now rewrite (writes_TID_only_field _ _ _ _ HW) by exact Hk. }
  rewrite Hf in Ht, Hname by discriminate.
  destruct (root_run (mkTIDMapper (tm_Graph t) h (tm_errors t)) h c h
              (GetFieldString_ (Node_Metadata (tm_Graph t) c) "Name")
              (GetFieldString_ (Node_Metadata (tm_Graph t) c) "Type")
              Hex Hself) as [Hown Hchild].
  rewrite <- HR in Hown, Hchild.
  assert (Hhne : h <> "").
  { intros ->. apply Htid. unfold GetFieldString_.
    unfold TID_of in Hown. now rewrite Hown. }
  rewrite Hchild in HRc;
    [discriminate|exact Hhne|exact Hin| |exact Hname| |exact Ht];
    now apply GetFieldString_nonempty.
Qed.

Lemma SampleBoot_events :
  host_event SampleBoot.mapper "h" /\
  other_event SampleBoot.mapper "p" /\
  "h" ∉ ownership_children (tm_Graph SampleBoot.mapper) "h".
Proof.
  split; [split; reflexivity|]. split.
  - split; [reflexivity|]. split.
    + exists "veth". split; [reflexivity|]. repeat split; discriminate.
    + vm_compute. discriminate.
  - vm_compute. intros Hin. apply list_elem_of_In in Hin.
    destruct Hin as [Hin|[Hin|[]]]; discriminate.
Defined.

Lemma host_and_child_events_commute_witness :
  @TIDMapper_onNodeEvent SampleMapper.uuidlib SampleBoot.mapper "p" =
    SampleBoot.mapper /\
  @TIDMapper_onNodeEvent SampleMapper.uuidlib
    (@TIDMapper_onNodeEvent SampleMapper.uuidlib SampleBoot.mapper "p") "h" =
    @TIDMapper_onNodeEvent SampleMapper.uuidlib SampleBoot.mapper "h" /\
  @TIDMapper_onNodeEvent SampleMapper.uuidlib
    (@TIDMapper_onNodeEvent SampleMapper.uuidlib SampleBoot.mapper "h") "p" =
    @TIDMapper_onNodeEvent SampleMapper.uuidlib SampleBoot.mapper "h".
Proof.
  exact (@host_and_child_events_commute SampleMapper.uuidlib SampleBoot.mapper
           "h" "p" (proj1 SampleBoot_events) (proj1 (proj2 SampleBoot_events))
           eq_refl (proj2 (proj2 SampleBoot_events))).
Defined.

(** ** The capture client at any capture *)

Section ClientFacts.

Context `{ClientEnv}.

Lemma outbound_app (a b : list Effect) : outbound (a ++ b) = outbound a ++ outbound b.
Proof. unfold outbound, run_goroutines. now rewrite flat_map_app, List.filter_app. Qed.

Lemma unregisterProbe_outbound (node : Node) :
  outbound (fst (unregisterProbe node)) = [CaptureStop_to node].
Proof. unfold unregisterProbe, CaptureStop_to. now destruct (SendWSMessageTo _ _). Qed.

Lemma stop_node_outbound (node : Node) (effects : list Effect) :
  outbound (stop_node node effects) = outbound effects ++ [CaptureStop_to node].
Proof.
  unfold stop_node. pose proof (unregisterProbe_outbound node) as Hu.
  destruct (unregisterProbe node) as [sent ok]. cbn [fst] in Hu.
  destruct ok; cbn [negb]; rewrite !outbound_app, Hu; [reflexivity|].
  change (outbound [ELog ("Failed to stop capture on " +:+ node_ID node)])
    with (@nil Effect).
  reflexivity.
Qed.

Lemma stop_nodes_outbound (nodes : list Node) :
  forall effects,
    outbound (fold_left (fun effects node => stop_node node effects) nodes effects) =
    outbound effects ++ map CaptureStop_to nodes.
Proof.
  induction nodes as [|node nodes IH]; intros effects; cbn [fold_left map].
  - now rewrite app_nil_r.
  - rewrite IH, stop_node_outbound. now rewrite <- app_assoc.
Qed.

Lemma onCaptureDeleted_loop (values : list Result) :
  forall effects,
    outbound (ctl_state (for_range onCaptureDeleted_body values effects)) =
    outbound effects ++ map CaptureStop_to (before_other values).
Proof.
  induction values as [|value values IH]; intros effects;
    cbn [for_range before_other map ctl_state].
  - now rewrite app_nil_r.
  - destruct value; cbn [onCaptureDeleted_body ctl_state map];
      try now rewrite app_nil_r.
    + rewrite IH, stop_node_outbound. now rewrite <- app_assoc.
    + rewrite IH, stop_nodes_outbound, map_app. now rewrite <- app_assoc.
Qed.

Lemma before_other_Step_Values (res : Step) :
  before_other (Step_Values res) = flat_map nodes_of (Step_Values res).
Proof.
  destruct res as [t|tv|te|sp|t]; cbn [Step_Values].
  - reflexivity.
  - unfold GraphTraversalV_Values.
    induction (tv_nodes tv) as [|n l IH]; [reflexivity|].
    cbn [map before_other flat_map nodes_of app]. now rewrite IH.
  - unfold GraphTraversalE_Values.
    assert (He : forall l, flat_map nodes_of (map REdge l) = []).
    { induction l as [|e l IH]; [reflexivity|exact IH]. }
    rewrite He. now destruct (te_edges te).
  - unfold GraphTraversalShortestPath_Values.
    induction (sp_paths sp) as [|p l IH]; [reflexivity|].
    cbn [map before_other flat_map nodes_of]. now rewrite IH.
  - unfold GraphTraversalValue_Values.
    assert (Hv : forall l, flat_map nodes_of (map RValue l) = []).
    { induction l as [|v l IH]; [reflexivity|exact IH]. }
    destruct (val_value t) as [| | | | | |l|]; try reflexivity.
    rewrite Hv. now destruct l.
Qed.

Lemma registerProbe_outbound (capture : Capture) (node : Node) :
  List.filter is_outbound (fst (registerProbe (node_ID node) (Host node) capture)) =
  [CaptureStart_to capture node].
Proof.
  unfold registerProbe, CaptureStart_to.
  now destruct (SendWSMessageTo _ _).
Qed.

Lemma registerProbes_node_outbound (capture : Capture) (l : list Node) :
  forall effects,
    exists c,
      for_range (registerProbes_node capture) l effects = c /\
      List.filter is_outbound (ctl_state c) =
        List.filter is_outbound effects ++
        map (CaptureStart_to capture) (before_bound l) /\
      forall rest,
        before_bound (l ++ rest) =
        match c with
        | Continue _ => before_bound l ++ before_bound rest
        | Break _ => before_bound l
        end.
Proof.
  induction l as [|node l IH]; intros effects; cbn [for_range before_bound].
  - eexists. split; [reflexivity|]. simpl. split; [now rewrite app_nil_r|].
    reflexivity.
  - unfold registerProbes_node at 1, bound.
    destruct (GetFieldString (node_metadata node) "Capture/ID") as [id|] eqn:Hid.
    + rewrite bool_decide_eq_true_2 by eauto.
      eexists. split; [reflexivity|]. simpl.
      unfold bound. rewrite Hid.
      rewrite bool_decide_eq_true_2 by eauto.
      split; [now rewrite app_nil_r|]. reflexivity.
    + rewrite bool_decide_eq_false_2 by (intros [? ?]; discriminate).
      destruct (IH (effects ++ fst (registerProbe (node_ID node) (Host node) capture)))
        as (c & Hc & Hf & Hr).
      exists c. split; [exact Hc|]. split.
      * rewrite Hf, List.filter_app, registerProbe_outbound.
        now rewrite <- app_assoc.
      * intros rest. simpl. unfold bound at 1. rewrite Hid.
        rewrite bool_decide_eq_false_2 by (intros [? ?]; discriminate).
        rewrite Hr. now destruct c.
Qed.

Lemma registerProbes_outbound (nodes : list Result) (capture : Capture) :
  List.filter is_outbound (registerProbes nodes capture) =
  map (CaptureStart_to capture) (before_bound (flat_map nodes_of nodes)).
Proof.
  unfold registerProbes.
  assert (Hgen : forall effects,
    List.filter is_outbound
      (ctl_state (for_range (registerProbes_body capture) nodes effects)) =
    List.filter is_outbound effects ++
    map (CaptureStart_to capture) (before_bound (flat_map nodes_of nodes))).
  { induction nodes as [|i nodes IH]; intros effects; cbn [for_range flat_map].
    - simpl. now rewrite app_nil_r.
    - assert (Hb : registerProbes_body capture i effects =
                   for_range (registerProbes_node capture) (nodes_of i) effects).
      { destruct i; simpl; try reflexivity.
        now destruct (registerProbes_node capture n effects). }
      rewrite Hb.
      destruct (registerProbes_node_outbound capture (nodes_of i) effects)
        as (c & -> & Hf & Hr).
      rewrite (Hr (flat_map nodes_of nodes)).
      destruct c as [effects'|effects']; simpl in Hf.
      + rewrite IH, Hf, map_app. now rewrite <- app_assoc.
      + exact Hf. }
  apply Hgen.
Qed.

Lemma goroutine_outbound (nodes : list Result) (capture : Capture) :
  outbound [EGo_registerProbes nodes capture] =
  map (CaptureStart_to capture) (before_bound (flat_map nodes_of nodes)).
Proof.
  unfold outbound, run_goroutines. cbn [flat_map]. rewrite app_nil_r.
  apply registerProbes_outbound.
Qed.

Lemma applyGremlinExpr_logs (query : string) :
  outbound (snd (applyGremlinExpr query)) = [].
Proof. unfold applyGremlinExpr. now destruct (ExecuteGremlinQuery query). Qed.

(** What the query of a capture adds to the effects of a handler: the
    [CaptureStart] of the nodes before the first bound one. *)
Lemma capture_outbound (capture : Capture) (effects : list Effect) :
  outbound
    (let '(res, logs) := applyGremlinExpr (GremlinQuery capture) in
     if (0 <? length res)%nat
     then effects ++ logs ++ [EGo_registerProbes res capture]
     else effects ++ logs) =
  outbound effects ++
  map (CaptureStart_to capture) (before_bound (targets capture)).
Proof.
  unfold targets. pose proof (applyGremlinExpr_logs (GremlinQuery capture)) as Hl.
  destruct (applyGremlinExpr (GremlinQuery capture)) as [res logs].
  cbn [fst snd] in *.
  destruct res as [|r res]; cbn [length Nat.ltb Nat.leb flat_map before_bound map].
  - rewrite outbound_app, Hl. reflexivity.
  - rewrite !outbound_app, Hl, goroutine_outbound. reflexivity.
Qed.

End ClientFacts.

(** On the leader, the deletion of a capture takes it out of the mapping
    and sends [CaptureStop] to every node the query resolves to, in order,
    whether the node is bound to a probe or not; the message names the
    node only.  When the query fails nothing is sent, and the capture is
    out of the mapping all the same. *)
Lemma capture_deletion_stops_every_node `{ClientEnv} (o : OnDemandProbeClient)
  (capture : Capture) :
  IsMaster o = true ->
  captures (fst (onCaptureDeleted o capture)) =
    delete (UUID capture) (captures o) /\
  outbound (snd (onCaptureDeleted o capture)) =
    match ExecuteGremlinQuery (GremlinQuery capture) with
    | inl res => map CaptureStop_to (flat_map nodes_of (Step_Values res))
    | inr _ => []
    end.
Proof.
  intros Hm. unfold onCaptureDeleted. rewrite Hm. cbn [negb].
  destruct (ExecuteGremlinQuery (GremlinQuery capture)) as [res|err];
    cbn [fst snd captures]; (split; [reflexivity|]).
  - rewrite onCaptureDeleted_loop, before_other_Step_Values. reflexivity.
  - reflexivity.
Qed.

Lemma capture_deletion_stops_every_node_witness :
  captures (fst (@onCaptureDeleted SampleClient.env SampleClient.master
                   SampleClient.capture)) =
    delete "c-1" (captures SampleClient.master) /\
  @outbound SampleClient.env
    (snd (@onCaptureDeleted SampleClient.env SampleClient.master
            SampleClient.capture)) =
    [CaptureStop_to Sample.br2; CaptureStop_to Sample.br1].
Proof.
  exact (@capture_deletion_stops_every_node SampleClient.env SampleClient.master
           SampleClient.capture eq_refl).
Defined.

(** On the leader, the addition of a capture binds it to its identifier in
    the mapping, whatever was there, and the goroutine it starts sends
    [CaptureStart] to the nodes of the query that come before the first
    bound one, and nothing else. *)
Lemma capture_addition_starts_the_unbound_nodes `{ClientEnv}
  (o : OnDemandProbeClient) (capture : Capture) :
  IsMaster o = true ->
  captures (fst (onCaptureAdded o capture)) =
    <[UUID capture := capture]> (captures o) /\
  outbound (snd (onCaptureAdded o capture)) =
    map (CaptureStart_to capture) (before_bound (targets capture)).
Proof.
  intros Hm. unfold onCaptureAdded. rewrite Hm. cbn [negb].
  pose proof (capture_outbound capture []) as Hc.
  destruct (applyGremlinExpr (GremlinQuery capture)) as [res logs] eqn:Hq.
  destruct (0 <? length res)%nat; cbn [fst snd captures];
    (split; [reflexivity|exact Hc]).
Qed.

Lemma capture_addition_starts_the_unbound_nodes_witness :
  captures (fst (@onCaptureAdded SampleStart.env SampleClient.master
                   SampleClient.capture)) =
    <["c-1" := SampleClient.capture]> (captures SampleClient.master) /\
  @outbound SampleStart.env
    (snd (@onCaptureAdded SampleStart.env SampleClient.master
            SampleClient.capture)) =
    [CaptureStart_to SampleClient.capture Sample.br1].
Proof.
  exact (@capture_addition_starts_the_unbound_nodes SampleStart.env
           SampleClient.master SampleClient.capture eq_refl).
Defined.

(** A graph event makes the client send nothing but [CaptureStart]: every
    message it puts on the bus is the [CaptureStart] of a capture of the
    mapping, for a node of the query of that capture that comes before
    the first bound one.  No capture is stopped and nothing is broadcast. *)
Lemma graph_events_only_start_captures `{ClientEnv} (o : OnDemandProbeClient) :
  Forall (starts_a_known_capture o) (outbound (onNodeEvent o)).
Proof.
  unfold onNodeEvent. destruct (IsMaster o); cbn [negb]; [|constructor].
  assert (Hgen : forall l effects,
    (forall kv, kv ∈ l -> captures o !! fst kv = Some (snd kv)) ->
    Forall (starts_a_known_capture o) (outbound effects) ->
    Forall (starts_a_known_capture o)
      (outbound
         (fold_left
            (fun effects kv =>
               let capture := snd kv in
               let '(res, logs) := applyGremlinExpr (GremlinQuery capture) in
               if (0 <? length res)%nat
               then effects ++ logs ++ [EGo_registerProbes res capture]
               else effects ++ logs)
            l effects))).
  { induction l as [|[k capture] l IH]; intros effects Hl He; cbn [fold_left].
    - exact He.
    - apply IH; [intros kv Hkv; apply Hl; now right|].
      cbn [snd]. rewrite capture_outbound. apply Forall_app. split; [exact He|].
      apply Forall_forall. intros ef Hef.
      apply list_elem_of_In, in_map_iff in Hef as (node & <- & Hnode).
      exists k, capture, node. split; [apply (Hl (k, capture)); now left|].
      split; [now apply list_elem_of_In|reflexivity]. }
  apply Hgen; [|constructor].
  intros [k capture] Hkv. now apply elem_of_map_to_list in Hkv.
Qed.

(** A capture that is started is stopped: on a leader, every node that
    gets [CaptureStart] when the capture is added gets [CaptureStop] when
    the capture is deleted, as long as the query resolves as it did. *)
Lemma a_started_node_is_stopped `{ClientEnv} (o o' : OnDemandProbeClient)
  (capture : Capture) (node : Node) :
  IsMaster o = true ->
  IsMaster o' = true ->
  CaptureStart_to capture node ∈ outbound (snd (onCaptureAdded o capture)) ->
  CaptureStop_to node ∈ outbound (snd (onCaptureDeleted o' capture)).
Proof.
  intros Hm Hm' Hstart.
  assert (Hadd : outbound (snd (onCaptureAdded o capture)) =
                 map (CaptureStart_to capture) (before_bound (targets capture))).
  { unfold onCaptureAdded. rewrite Hm. cbn [negb].
    pose proof (capture_outbound capture []) as Hc.
    destruct (applyGremlinExpr (GremlinQuery capture)) as [res logs].
    destruct (0 <? length res)%nat; exact Hc. }
  rewrite Hadd in Hstart.
  apply list_elem_of_In, in_map_iff in Hstart as (node' & Heq & Hin).
  assert (Hsame : CaptureStop_to node = CaptureStop_to node').
  { unfold CaptureStart_to in Heq. unfold CaptureStop_to.
    injection Heq as Hid Hhost. now rewrite Hid, Hhost. }
  assert (Hsub : forall l x, In x (before_bound l) -> In x l).
  { induction l as [|y l IH]; intros x Hx; [exact Hx|].
    cbn [before_bound] in Hx. destruct (bound y); [destruct Hx|].
    destruct Hx as [->|Hx]; [now left|right; now apply IH]. }
  apply Hsub in Hin. unfold targets, applyGremlinExpr in Hin.
  unfold onCaptureDeleted. rewrite Hm'. cbn [negb].
  destruct (ExecuteGremlinQuery (GremlinQuery capture)) as [res|err];
    cbn [fst snd] in *; [|destruct Hin].
  rewrite onCaptureDeleted_loop, before_other_Step_Values.
  rewrite Hsame. apply list_elem_of_In, in_map. exact Hin.
Qed.

Lemma a_started_node_is_stopped_witness :
  CaptureStart_to SampleClient.capture Sample.br1 ∈
    @outbound SampleStart.env
      (snd (@onCaptureAdded SampleStart.env SampleClient.master
              SampleClient.capture)) /\
  CaptureStop_to Sample.br1 ∈
    @outbound SampleStart.env
      (snd (@onCaptureDeleted SampleStart.env SampleClient.master
              SampleClient.capture)).
Proof.
  assert (Hstart : CaptureStart_to SampleClient.capture Sample.br1 ∈
            @outbound SampleStart.env
              (snd (@onCaptureAdded SampleStart.env SampleClient.master
                      SampleClient.capture))).
  { apply list_elem_of_In. vm_compute. now left. }
  split; [exact Hstart|].
  exact (@a_started_node_is_stopped SampleStart.env SampleClient.master
           SampleClient.master SampleClient.capture Sample.br1
           eq_refl eq_refl Hstart).
Defined.

(** ** The value steps *)







Lemma count_key (key : string) (l : list (string * Value)) :
  NoDup (l.*1) ->
  length (List.filter (is_key key) (map (fun kv => VString (fst kv)) l)) =
  if decide (key ∈ l.*1) then 1%nat else 0%nat.
Proof.
  induction l as [|[k v] l IH]; intros Hnd.
  - cbn. destruct (decide (key ∈ [])) as [Hin|]; [inversion Hin|reflexivity].
  - rewrite fmap_cons in Hnd. apply NoDup_cons in Hnd as [Hk Hnd].
    cbn [map List.filter is_key fst]. rewrite fmap_cons. cbn [fst].
    specialize (IH Hnd). case_bool_decide as Hkey.
    + subst k. cbn [length]. rewrite IH.
      rewrite (decide_False (P := key ∈ l.*1)) by exact Hk.
      rewrite decide_True by (now left). reflexivity.
    + rewrite IH. destruct (decide (key ∈ l.*1)) as [Hin|Hin].
      * rewrite decide_True by (now right). reflexivity.
      * rewrite decide_False; [reflexivity|].
        intros Hx. apply elem_of_cons in Hx as [Hx|Hx]; congruence.
Qed.

Lemma count_key_of_a_node (key : string) (md : Metadata) :
  length (List.filter (is_key key)
            (map (fun kv => VString (fst kv)) (map_to_list md))) =
  match md !! key with Some _ => 1%nat | None => 0%nat end.
Proof.
  rewrite count_key by apply NoDup_fst_map_to_list.
  destruct (md !! key) as [v|] eqn:Hk.
  - rewrite decide_True; [reflexivity|].
    apply list_elem_of_fmap. exists (key, v). split; [reflexivity|].
    now apply elem_of_map_to_list.
  - rewrite decide_False; [reflexivity|].
    intros Hin. apply list_elem_of_fmap in Hin as ([k v] & -> & Hin).
    apply elem_of_map_to_list in Hin. cbn in Hk. congruence.
Qed.

Lemma PropertyValues_loop (key : string) (nodes : list Node) :
  forall s,
    fold_left
      (fun s n =>
         match node_metadata n !! key with
         | Some value => s ++ [value]
         | None => s
         end) nodes s =
    s ++ omap (fun n => node_metadata n !! key) nodes.
Proof.
  induction nodes as [|n nodes IH]; intros s; cbn [fold_left omap list_omap].
  - now rewrite app_nil_r.
  - rewrite IH. destruct (node_metadata n !! key); [|reflexivity].
    now rewrite <- app_assoc.
Qed.

Lemma PropertyKeys_loop (nodes : list Node) :
  forall s,
    fold_left
      (fun s n => s ++ map (fun kv => VString (fst kv))
                         (map_to_list (node_metadata n))) nodes s =
    s ++ flat_map (fun n => map (fun kv => VString (fst kv))
                              (map_to_list (node_metadata n))) nodes.
Proof.
  induction nodes as [|n nodes IH]; intros s; cbn [fold_left flat_map].
  - now rewrite app_nil_r.
  - rewrite IH. now rewrite <- app_assoc.
Qed.

(** On a step without error, [PropertyValues(key)] gives the values the
    nodes have under the key, in the order of the nodes, a node without
    the key giving none; [PropertyKeys()] gives the keys of every node,
    so that a key comes as many times in it as [PropertyValues] has values
    for that key. *)
Lemma PropertyKeys_counts_the_PropertyValues (tv : GraphTraversalV)
  (key : string) (rest keys : list Param) :
  tv_error tv = None ->
  exists ks,
    PropertyKeys tv keys =
      Ok (mkGraphTraversalValue (tv_GraphTraversal tv) (VSlice ks) None) /\
    PropertyValues tv (PString key :: rest) =
      Ok (mkGraphTraversalValue (tv_GraphTraversal tv)
            (VSlice (omap (fun n => node_metadata n !! key) (tv_nodes tv))) None) /\
    length (List.filter (is_key key) ks) =
      length (omap (fun n => node_metadata n !! key) (tv_nodes tv)) /\
    (length (omap (fun n => node_metadata n !! key) (tv_nodes tv)) <=
     length (tv_nodes tv))%nat.
Proof.
  intros Herr. unfold PropertyKeys, PropertyValues. rewrite Herr.
  rewrite PropertyKeys_loop. eexists. split; [reflexivity|].
  change (string_arg (PString key :: rest)) with (Ok key).
  cbn [mbind Go_bind]. rewrite PropertyValues_loop. cbn [app].
  split; [reflexivity|].
  induction (tv_nodes tv) as [|n nodes [IH1 IH2]]; [split; reflexivity|].
  cbn [flat_map omap list_omap length].
  rewrite List.filter_app, length_app, count_key_of_a_node, IH1.
  destruct (node_metadata n !! key); cbn [length]; split; lia.
Qed.

Lemma PropertyKeys_counts_the_PropertyValues_witness :
  exists ks,
    PropertyKeys
      (mkGraphTraversalV (Some SampleSteps.g) [Sample.br1; Sample.br2] None) [] =
      Ok (mkGraphTraversalValue (Some SampleSteps.g) (VSlice ks) None) /\
    PropertyValues
      (mkGraphTraversalV (Some SampleSteps.g) [Sample.br1; Sample.br2] None)
      [PString "Capture/ID"] =
      Ok (mkGraphTraversalValue (Some SampleSteps.g) (VSlice [VString "c-1"]) None) /\
    length (List.filter (is_key "Capture/ID") ks) = 1%nat /\
    (1 <= 2)%nat.
Proof.
  exact (PropertyKeys_counts_the_PropertyValues
           (mkGraphTraversalV (Some SampleSteps.g) [Sample.br1; Sample.br2] None)
           "Capture/ID" [] [] eq_refl).
Defined.

Lemma Sum_loop_skips `{Externals} (key : string) (nodes : list Node) :
  forall s,
    Sum_loop key (List.filter (has_integer key) nodes) s = Sum_loop key nodes s.
Proof.
  induction nodes as [|n nodes IH]; intros s; [reflexivity|].
  cbn [List.filter]. unfold has_integer at 1.
  destruct (GetFieldInt64 n key) as [value|] eqn:Hn; cbn [Sum_loop]; rewrite Hn.
  - destruct (ToFloat64 value); [apply IH|reflexivity].
  - apply IH.
Qed.

(** [Sum] never panics: what it cannot use is reported through the error
    of the step it returns.  It reads the nodes that have an integer under
    the key and no other: without the other nodes the result is the same. *)
Lemma Sum_reads_the_integer_fields_only `{Externals} (tv : GraphTraversalV)
  (keys : list Param) (key : string) :
  (exists t, Sum tv keys = Ok t) /\
  Sum (with_nodes tv (List.filter (has_integer key) (tv_nodes tv))) [PString key] =
  Sum tv [PString key].
Proof.
  split.
  - unfold Sum. repeat case_match; eauto.
  - unfold Sum, with_nodes. cbn [tv_error tv_nodes tv_GraphTraversal].
    now rewrite Sum_loop_skips.
Qed.

(** [Count] after [Range(from, to)] with [0 <= from], on a step without
    error, is the size of the slice: [min(to, len) - from], or 0 when that
    is negative. *)
Lemma Count_of_a_Range `{Externals} (tv : GraphTraversalV) (from to : Z)
  (s : list Param) :
  tv_error tv = None ->
  0 <= from ->
  (tv' ← GraphTraversalV_Range tv [PInt64 from; PInt64 to];
   Ok (GraphTraversalV_Count tv' s)) =
  Ok (mkGraphTraversalValue (tv_GraphTraversal tv)
        (VInt (Z.max 0 (Z.min to (Z.of_nat (length (tv_nodes tv))) - from))) None).
Proof.
  intros Herr Hfrom. unfold GraphTraversalV_Range. rewrite Herr.
  rewrite Range_loop_from by exact Hfrom. cbn [mbind Go_bind].
  unfold GraphTraversalV_Count. cbn [tv_error tv_nodes tv_GraphTraversal].
  rewrite length_take, length_drop. do 3 f_equal. lia.
Qed.

Lemma Count_of_a_Range_witness :
  (tv' ← @GraphTraversalV_Range Sample.externals
           (mkGraphTraversalV (Some SampleSteps.g)
              [Sample.host1; Sample.br1; Sample.host2] None)
           [PInt64 1; PInt64 5];
   Ok (GraphTraversalV_Count tv' [])) =
  Ok (mkGraphTraversalValue (Some SampleSteps.g) (VInt 2) None).
Proof.
  refine (@Count_of_a_Range Sample.externals
            (mkGraphTraversalV (Some SampleSteps.g)
               [Sample.host1; Sample.br1; Sample.host2] None) 1 5 [] eq_refl _).
  lia.
Defined.

Lemma Within_loop_integers `{Externals} (k : string) (l : list Z) :
  (forall i, ToInt64 (PInt64 i) = inl i) ->
  forall orFilters,
    Within_loop k (map PInt64 l) orFilters =
    inl (orFilters ++ map (TermInt64Filter k) l).
Proof.
  intros Hint. induction l as [|i l IH]; intros orFilters; cbn [map Within_loop].
  - now rewrite app_nil_r.
  - rewrite Hint, IH. now rewrite <- app_assoc.
Qed.

(** With integers, [Within(l)] becomes the disjunction of the equalities
    with the elements of [l] (it holds for the elements of [l], and for
    nothing when [l] is empty), and [Ne(i)] the negation of the equality
    with [i].  [Without] has no case of its own: it is handed to
    [common.ToInt64] like a number, and the error of that conversion is
    what [ParamToFilter] returns. *)
Lemma Within_is_a_disjunction `{Externals} (k : string) (l : list Z) (i : Z)
  (without : list Param) (err : string) :
  (forall i, ToInt64 (PInt64 i) = inl i) ->
  ToInt64 (Without without) = inr err ->
  (exists within,
     ParamToFilter k (Within (map PInt64 l)) = inl within /\
     forall x, Filter_holds within x = true <-> In x l) /\
  (exists ne,
     ParamToFilter k (Ne (PInt64 i)) = inl ne /\
     forall x, Filter_holds ne x = true <-> x <> i) /\
  ParamToFilter k (Without without) = inr err.
Proof.
  intros Hint Hwithout. split; [|split].
  - unfold Within, ParamToFilter. rewrite Within_loop_integers by exact Hint.
    eexists. split; [reflexivity|]. intros x. cbn [app NewOrFilter Filter_holds].
    rewrite existsb_exists. split.
    + intros (f & Hf & Hx). apply in_map_iff in Hf as (j & <- & Hj).
      cbn in Hx. apply Z.eqb_eq in Hx. now subst j.
    + intros Hx. exists (TermInt64Filter k x). split; [now apply in_map|].
      cbn. apply Z.eqb_refl.
  - unfold Ne, ParamToFilter. rewrite Hint. eexists. split; [reflexivity|].
    intros x. cbn. rewrite negb_true_iff, Z.eqb_neq. reflexivity.
  - unfold ParamToFilter. unfold Without in *. now rewrite Hwithout.
Qed.

Lemma Within_is_a_disjunction_witness :
  (exists within,
     @ParamToFilter Sample.externals "MTU" (Within (map PInt64 [1500; 9000])) =
       inl within /\
     forall x, Filter_holds within x = true <-> In x [1500; 9000]) /\
  (exists ne,
     @ParamToFilter Sample.externals "MTU" (Ne (PInt64 1500)) = inl ne /\
     forall x, Filter_holds ne x = true <-> x <> 1500) /\
  @ParamToFilter Sample.externals "MTU" (Without [PInt64 1500]) =
    inr "not an integer".
Proof.
  exact (@Within_is_a_disjunction Sample.externals "MTU" [1500; 9000] 1500
           [PInt64 1500] "not an integer" (fun i => eq_refl) eq_refl).
Defined.
